(** * Serial monitor: channel runtime

    A shallow embedding of the server side of the serial monitor
    (src/serial-manager.js, src/plugin-loader.js, src/ws-handler.js,
    src/macro-engine.js) and the properties of its channel runtime.

    Conventions of the embedding.
    - JavaScript numbers that the code uses as counters, sizes and times are
      integers [Z]; [NaN] is [None] where it can arise ([parseInt]).
    - JavaScript strings are [string]: the characters are the code units
      below 256.  Bytes read from a device are a [string] too (one character
      per byte), and a [Buffer] built by the code is a [list Z] of values in
      [0, 256).
    - [Date.now()] and the outcome of device calls (open, write) are inputs
      of the operation that makes the call.
    - The completion callback of a device call runs atomically with the call
      that started it. *)

From Stdlib Require Import ZArith Ascii String.
From stdpp Require Import gmap strings list fin_maps sorting.

Local Open Scope Z_scope.

(** ** Results of calls that may throw *)

Inductive Result (A : Type) : Type :=
| Ok (a : A)
| Throw (message : string).
Arguments Ok {A} a.
Arguments Throw {A} message.

(** ** Strings as the code uses them *)

Module Js.

Definition LF : ascii := ascii_of_nat 10.
Definition CR : ascii := ascii_of_nat 13.

(** The class [\s] of a regular expression, on code units below 256:
    TAB, LF, VT, FF, CR, SPACE and NO-BREAK SPACE. *)
Definition isWhiteSpace (c : ascii) : bool :=
  let n := nat_of_ascii c in
  ((9 <=? n) && (n <=? 13) || (n =? 32) || (n =? 160))%nat.

Fixpoint filterChars (keep : ascii -> bool) (s : string) : string :=
  match s with
  | EmptyString => EmptyString
  | String c rest =>
      if keep c then String c (filterChars keep rest) else filterChars keep rest
  end.

(** [data.replace(/\s+/g, '')] *)
Definition stripWhiteSpace (s : string) : string :=
  filterChars (fun c => negb (isWhiteSpace c)) s.

Fixpoint count (c : ascii) (s : string) : nat :=
  match s with
  | EmptyString => O
  | String d rest => ((if Ascii.eqb d c then 1 else 0) + count c rest)%nat
  end.

Fixpoint contains (c : ascii) (s : string) : bool :=
  match s with
  | EmptyString => false
  | String d rest => Ascii.eqb d c || contains c rest
  end.

(** [s.substring(from, to)] for [0 <= from <= to]. *)
Definition substring (from to : nat) (s : string) : string :=
  String.substring from (to - from) s.

(** [array.slice(start, end)]; [end] is [None] when the argument is
    omitted.  Negative positions count from the end. *)
Definition sliceIndex (len k : Z) : Z :=
  if k <? 0 then Z.max (len + k) 0 else Z.min k len.

Definition slice {A : Type} (start : Z) (stop : option Z) (l : list A) : list A :=
  let len := Z.of_nat (length l) in
  let from := sliceIndex len start in
  let to := match stop with Some e => sliceIndex len e | None => len end in
  take (Z.to_nat (to - from)) (drop (Z.to_nat from) l).

End Js.

(** ** The line parser

    [connect] pipes the port into
    [new ReadlineParser({ delimiter: '\n', includeDelimiter: false })].
    The parser keeps the bytes after the last delimiter; on every chunk it
    runs, over the kept bytes followed by the chunk,

      while ((position = data.indexOf(delimiter)) !== -1) {
        push(data.slice(0, position)); data = data.slice(position + 1) }

    and keeps what is left.  The parser is a Transform stream of bytes, not
    of objects: a push of zero bytes adds nothing to what the stream gives
    out, so that an empty line makes no [data] event.  The parser gives out
    a line as text, decoded from UTF-8: for bytes below 128 the text is the
    bytes, one character per byte, and that is the text that [transform]
    gives.  Lines with bytes from 128 on are decoded otherwise by the real
    parser (and a sequence that a terminator cuts is held back), which
    [transform] does not follow: what is stated of the text of a line is
    stated for ASCII bytes. *)

Module ReadlineParser.

(** [frame cur data]: [cur] is the part of the current line seen so far,
    [data] what is still to scan.  Returns the lines pushed and the
    bytes kept. *)
Fixpoint frame (cur : string) (data : string) : list string * string :=
  match data with
  | EmptyString => ([], cur)
  | String c rest =>
      if Ascii.eqb c Js.LF
      then let '(lines, kept) := frame EmptyString rest in (cur :: lines, kept)
      else frame (cur +:+ String c EmptyString) rest
  end.

Definition nonEmpty (s : string) : bool := negb (String.eqb s EmptyString).

(** The lines given out for a chunk, and the bytes kept. *)
Definition transform (kept chunk : string) : list string * string :=
  let '(pushed, rest) := frame EmptyString (kept +:+ chunk) in
  (List.filter nonEmpty pushed, rest).

End ReadlineParser.

(** ** Buffers

    The platform functions that [send] uses to turn its payload into
    bytes. *)

Module Buffer.

(** Value of a hexadecimal digit. *)
Definition unhex (c : ascii) : option Z :=
  let n := Z.of_nat (nat_of_ascii c) in
  if (48 <=? n) && (n <=? 57) then Some (n - 48)
  else if (97 <=? n) && (n <=? 102) then Some (n - 87)
  else if (65 <=? n) && (n <=? 70) then Some (n - 55)
  else None.

(** [Buffer.from(s, 'hex')]: the pairs of hexadecimal digits of [s] up to
    the first pair that is not one; a single trailing character is
    dropped.  The call does not throw. *)
Fixpoint fromHex (s : string) : list Z :=
  match s with
  | String a (String b rest) =>
      match unhex a, unhex b with
      | Some hi, Some lo => (16 * hi + lo) :: fromHex rest
      | _, _ => []
      end
  | _ => []
  end.

(** [Buffer.from(s, 'utf-8')] on code units below 256. *)
Fixpoint fromUtf8 (s : string) : list Z :=
  match s with
  | EmptyString => []
  | String c rest =>
      let n := Z.of_nat (nat_of_ascii c) in
      if n <? 128 then n :: fromUtf8 rest
      else Z.lor 192 (Z.shiftr n 6) :: Z.lor 128 (Z.land n 63) :: fromUtf8 rest
  end.

(** Conversion of an array element to a byte: [NaN] gives 0, a number is
    taken modulo 256. *)
Definition toUint8 (v : option Z) : Z :=
  match v with
  | None => 0
  | Some n => n mod 256
  end.

(** [Buffer.from(array)] *)
Definition fromArray (values : list (option Z)) : list Z :=
  map toUint8 values.

End Buffer.

(** [parseInt(s, 2)]: leading white space is skipped, a sign is read, and
    the longest prefix of binary digits gives the value; without a digit the
    result is [NaN]. *)

Module ParseInt.

Fixpoint skipWhiteSpace (s : string) : string :=
  match s with
  | String c rest => if Js.isWhiteSpace c then skipWhiteSpace rest else s
  | EmptyString => s
  end.

Definition bitValue (c : ascii) : option Z :=
  if Ascii.eqb c "0" then Some 0
  else if Ascii.eqb c "1" then Some 1
  else None.

(** Reads digits while there are some: [acc] is the value of those read,
    [seen] tells whether there was one. *)
Fixpoint digits (acc : Z) (seen : bool) (s : string) : option Z :=
  match s with
  | String c rest =>
      match bitValue c with
      | Some b => digits (2 * acc + b) true rest
      | None => if seen then Some acc else None
      end
  | EmptyString => if seen then Some acc else None
  end.

Definition parseInt2 (s : string) : option Z :=
  match skipWhiteSpace s with
  | String c rest =>
      if Ascii.eqb c "-" then Z.opp <$> digits 0 false rest
      else if Ascii.eqb c "+" then digits 0 false rest
      else digits 0 false (String c rest)
  | EmptyString => None
  end.

End ParseInt.

(** ** Payload encoding of [send] (the [switch (mode)]) *)

Module Encoding.

(** The loop [for (let i = 0; i < bits.length; i += 8)
    bytes.push(parseInt(bits.substring(i, i + 8), 2))].
    [fuel] bounds the number of rounds; [String.length bits] rounds are
    always enough (see [binaryLoop_fuel]). *)
Fixpoint binaryLoop (fuel : nat) (i : nat) (bits : string) : list (option Z) :=
  match fuel with
  | O => []
  | S fuel' =>
      if (i <? String.length bits)%nat
      then ParseInt.parseInt2 (Js.substring i (i + 8) bits)
             :: binaryLoop fuel' (i + 8) bits
      else []
  end.

Definition binaryBytes (data : string) : list Z :=
  let bits := Js.stripWhiteSpace data in
  Buffer.fromArray (binaryLoop (String.length bits) 0 bits).

Definition hexBytes (data : string) : list Z :=
  let hexStr := Js.stripWhiteSpace data in
  Buffer.fromHex hexStr.

Definition asciiBytes (data : string) : list Z :=
  Buffer.fromUtf8 (data +:+ String Js.LF EmptyString).

Definition encode (mode data : string) : list Z :=
  if String.eqb mode "hex" then hexBytes data
  else if String.eqb mode "binary" then binaryBytes data
  else asciiBytes data.

End Encoding.

(** ** Data model (src/serial-manager.js) *)

Inductive Direction : Type := Rx | Tx.

Record LineEntry : Type := {
  timestamp : Z;
  direction : Direction;
  data : string;
  mode : option string;      (* only the entries made by [send] have one *)
  index : Z;
  entryChannelId : string
}.

Record Stats : Type := {
  bytesRx : Z;
  bytesTx : Z;
  linesRx : Z;
  linesTx : Z;
  errors : Z;
  connectedAt : option Z
}.

(** The configuration as a caller gives it: [None] is a field that is
    absent or that [parseInt] / [parseFloat] does not read as a number. *)
Record Config : Type := {
  cfgPath : string;
  cfgBaudRate : option Z;
  cfgDataBits : option Z;
  cfgStopBits : option Qcanon.Qc;
  cfgParity : option string;
  cfgFlowControl : option string
}.

Record PortConfig : Type := {
  path : string;
  baudRate : Z;
  dataBits : Z;
  stopBits : Qcanon.Qc;
  parity : string;
  rtscts : bool;
  xon : bool;
  xoff : bool;
  autoOpen : bool
}.

(** A [SerialPort] object, as far as the manager looks at it.  [isOpen]
    says that the [open] call of [connect] has succeeded on this object; the
    manager listens to no [close] event, and a port that the device closes
    by itself changes no field of the manager. *)
Record Port : Type := {
  isOpen : bool
}.

(** A [ReadlineParser] object: the bytes after the last delimiter. *)
Record Parser : Type := {
  kept : string
}.

Record SerialConnection : Type := {
  channelId : string;
  port : option Port;
  parser : option Parser;
  config : option PortConfig;
  connected : bool;
  stats : Stats;
  MAX_BUFFER_LINES : Z;
  buffer : list LineEntry;
  bufferIndex : Z
}.

Record Status : Type := {
  statusChannelId : string;
  statusConnected : bool;
  statusConfig : option PortConfig;
  statusStats : Stats;
  bufferSize : Z
}.

(** What the manager emits ([this.emit]). *)
Inductive Event : Type :=
| EvLine (channelId : string) (entry : LineEntry)
| EvRawData (channelId : string) (bytes : string)
| EvConnected (channelId : string) (config : PortConfig)
| EvDisconnected (channelId : string)
| EvError (channelId : string) (message : string).

(** What an operation does to the outside: events emitted and buffers
    handed to [port.write], in the order in which they happen. *)
Inductive Effect : Type :=
| Emit (event : Event)
| PortWrite (channelId : string) (bytes : list Z).

Module Connection.

Definition emptyStats : Stats :=
  {| bytesRx := 0; bytesTx := 0; linesRx := 0; linesTx := 0;
     errors := 0; connectedAt := None |}.

(** [new SerialConnection(channelId)] *)
Definition new (channelId : string) : SerialConnection :=
  {| channelId := channelId;
     port := None;
     parser := None;
     config := None;
     connected := false;
     stats := emptyStats;
     MAX_BUFFER_LINES := 10000000;
     buffer := [];
     bufferIndex := 0 |}.

Definition getStatus (c : SerialConnection) : Status :=
  {| statusChannelId := channelId c;
     statusConnected := connected c;
     statusConfig := config c;
     statusStats := stats c;
     bufferSize := Z.of_nat (length (buffer c)) |}.

Definition setBuffer (b : list LineEntry) (c : SerialConnection) : SerialConnection :=
  {| channelId := channelId c; port := port c; parser := parser c;
     config := config c; connected := connected c; stats := stats c;
     MAX_BUFFER_LINES := MAX_BUFFER_LINES c;
     buffer := b; bufferIndex := bufferIndex c |}.

Definition setBufferIndex (i : Z) (c : SerialConnection) : SerialConnection :=
  {| channelId := channelId c; port := port c; parser := parser c;
     config := config c; connected := connected c; stats := stats c;
     MAX_BUFFER_LINES := MAX_BUFFER_LINES c;
     buffer := buffer c; bufferIndex := i |}.

Definition setStats (s : Stats) (c : SerialConnection) : SerialConnection :=
  {| channelId := channelId c; port := port c; parser := parser c;
     config := config c; connected := connected c; stats := s;
     MAX_BUFFER_LINES := MAX_BUFFER_LINES c;
     buffer := buffer c; bufferIndex := bufferIndex c |}.

Definition setParser (p : option Parser) (c : SerialConnection) : SerialConnection :=
  {| channelId := channelId c; port := port c; parser := p;
     config := config c; connected := connected c; stats := stats c;
     MAX_BUFFER_LINES := MAX_BUFFER_LINES c;
     buffer := buffer c; bufferIndex := bufferIndex c |}.

Definition setPort (p : option Port) (c : SerialConnection) : SerialConnection :=
  {| channelId := channelId c; port := p; parser := parser c;
     config := config c; connected := connected c; stats := stats c;
     MAX_BUFFER_LINES := MAX_BUFFER_LINES c;
     buffer := buffer c; bufferIndex := bufferIndex c |}.

Definition setConfig (p : option PortConfig) (c : SerialConnection) : SerialConnection :=
  {| channelId := channelId c; port := port c; parser := parser c;
     config := p; connected := connected c; stats := stats c;
     MAX_BUFFER_LINES := MAX_BUFFER_LINES c;
     buffer := buffer c; bufferIndex := bufferIndex c |}.

Definition setConnected (b : bool) (c : SerialConnection) : SerialConnection :=
  {| channelId := channelId c; port := port c; parser := parser c;
     config := config c; connected := b; stats := stats c;
     MAX_BUFFER_LINES := MAX_BUFFER_LINES c;
     buffer := buffer c; bufferIndex := bufferIndex c |}.

Definition addErrors (n : Z) (s : Stats) : Stats :=
  {| bytesRx := bytesRx s; bytesTx := bytesTx s; linesRx := linesRx s;
     linesTx := linesTx s; errors := errors s + n;
     connectedAt := connectedAt s |}.

Definition addRxBytes (n : Z) (s : Stats) : Stats :=
  {| bytesRx := bytesRx s + n; bytesTx := bytesTx s; linesRx := linesRx s;
     linesTx := linesTx s; errors := errors s;
     connectedAt := connectedAt s |}.

Definition addRxLines (n : Z) (s : Stats) : Stats :=
  {| bytesRx := bytesRx s; bytesTx := bytesTx s; linesRx := linesRx s + n;
     linesTx := linesTx s; errors := errors s;
     connectedAt := connectedAt s |}.

Definition addTx (nbytes : Z) (s : Stats) : Stats :=
  {| bytesRx := bytesRx s; bytesTx := bytesTx s + nbytes; linesRx := linesRx s;
     linesTx := linesTx s + 1; errors := errors s;
     connectedAt := connectedAt s |}.

(** [_addToBuffer(entry)]: [shift] drops the first element (and does
    nothing on an empty array), [push] appends. *)
Definition _addToBuffer (entry : LineEntry) (c : SerialConnection) : SerialConnection :=
  let shifted :=
    if Z.of_nat (length (buffer c)) >=? MAX_BUFFER_LINES c
    then tail (buffer c)
    else buffer c in
  setBuffer (shifted ++ [entry]) c.

End Connection.

(** ** The manager (class [SerialManager]) *)

Record SerialManager : Type := {
  connections : gmap string SerialConnection;
  serialportAvailable : bool
}.

Module Manager.

Definition NOT_CONNECTED : string :=
  "Not connected to any serial port on this channel".

Definition NOT_INSTALLED : string :=
  "serialport package not installed. Run: npm install serialport".

Definition new (available : bool) : SerialManager :=
  {| connections := ∅; serialportAvailable := available |}.

Definition setConnections (cs : gmap string SerialConnection) (m : SerialManager)
  : SerialManager :=
  {| connections := cs; serialportAvailable := serialportAvailable m |}.

(** An assignment to a field of the connection object stored under
    [channelId]. *)
Definition store (channelId : string) (c : SerialConnection) (m : SerialManager)
  : SerialManager :=
  setConnections (<[channelId := c]> (connections m)) m.

(** [getConnection(channelId)] *)
Definition getConnection (channelId : string) (m : SerialManager)
  : SerialConnection * SerialManager :=
  match connections m !! channelId with
  | Some c => (c, m)
  | None =>
      let c := Connection.new channelId in
      (c, store channelId c m)
  end.

(** [disconnect(channelId)] *)
Definition disconnect (channelId : string) (m : SerialManager)
  : SerialManager * list Effect :=
  match connections m !! channelId with
  | None => (m, [])
  | Some conn =>
      if negb (bool_decide (is_Some (port conn))) || negb (connected conn)
      then (store channelId (Connection.setConnected false conn) m, [])
      else
        let conn :=
          Connection.setConfig None
            (Connection.setParser None
               (Connection.setPort None
                  (Connection.setConnected false conn))) in
        (store channelId conn m, [Emit (EvDisconnected channelId)])
  end.

(** The [||] defaults of [connect]: 0 and [NaN] give the default. *)
Definition orDefaultZ (v : option Z) (d : Z) : Z :=
  match v with
  | Some n => if n =? 0 then d else n
  | None => d
  end.

Definition orDefaultQc (v : option Qcanon.Qc) (d : Qcanon.Qc) : Qcanon.Qc :=
  match v with
  | Some q => if bool_decide (q = Qcanon.Q2Qc (QArith_base.Qmake 0 1)) then d else q
  | None => d
  end.

Definition orDefaultString (v : option string) (d : string) : string :=
  match v with
  | Some s => if String.eqb s "" then d else s
  | None => d
  end.

Definition isString (v : option string) (s : string) : bool :=
  match v with
  | Some x => String.eqb x s
  | None => false
  end.

Definition portConfigOf (cfg : Config) : PortConfig :=
  {| path := cfgPath cfg;
     baudRate := orDefaultZ (cfgBaudRate cfg) 115200;
     dataBits := orDefaultZ (cfgDataBits cfg) 8;
     stopBits := orDefaultQc (cfgStopBits cfg) 1%Qc;
     parity := orDefaultString (cfgParity cfg) "none";
     rtscts := isString (cfgFlowControl cfg) "rtscts";
     xon := isString (cfgFlowControl cfg) "xon/xoff";
     xoff := isString (cfgFlowControl cfg) "xon/xoff";
     autoOpen := false |}.

(** [connect(channelId, config)].  [openError] is the error that
    [port.open] passes to its callback, if any; [now] is [Date.now()]. *)
Definition connect (channelId : string) (cfg : Config)
    (openError : option string) (now : Z) (m : SerialManager)
  : Result PortConfig * SerialManager * list Effect :=
  if negb (serialportAvailable m) then (Throw NOT_INSTALLED, m, [])
  else
    let '(conn, m) := getConnection channelId m in
    let '(m, effects) :=
      if connected conn then disconnect channelId m else (m, []) in
    let conn := default conn (connections m !! channelId) in
    let portConfig := portConfigOf cfg in
    let conn := Connection.setPort (Some {| isOpen := false |}) conn in
    match openError with
    | Some message =>
        let conn := Connection.setConnected false conn in
        (Throw ("Failed to open port: " +:+ message),
         store channelId conn m, effects)
    | None =>
        let conn :=
          Connection.setStats
            {| bytesRx := 0; bytesTx := 0; linesRx := 0; linesTx := 0;
               errors := 0; connectedAt := Some now |}
            (Connection.setConnected true
               (Connection.setConfig (Some portConfig)
                  (Connection.setPort (Some {| isOpen := true |}) conn))) in
        let conn := Connection.setParser (Some {| kept := EmptyString |}) conn in
        (Ok portConfig, store channelId conn m,
         effects ++ [Emit (EvConnected channelId portConfig)])
    end.

(** The listener of the port's [error] event. *)
Definition onPortError (channelId message : string) (conn : SerialConnection)
  : SerialConnection * list Effect :=
  (Connection.setStats (Connection.addErrors 1 (stats conn)) conn,
   [Emit (EvError channelId message)]).

(** The listener of the parser's [data] event: one framed line. *)
Definition onLine (channelId : string) (now : Z) (line : string)
    (conn : SerialConnection) : SerialConnection * list Effect :=
  let conn := Connection.setStats (Connection.addRxLines 1 (stats conn)) conn in
  let entry :=
    {| timestamp := now; direction := Rx; data := line; mode := None;
       index := bufferIndex conn; entryChannelId := channelId |} in
  let conn := Connection.setBufferIndex (bufferIndex conn + 1) conn in
  let conn := Connection._addToBuffer entry conn in
  (conn, [Emit (EvLine channelId entry)]).

(** The lines that the parser pushes for one chunk, in order; [now k] is
    the clock when the [k]-th of them is handled. *)
Fixpoint onLines (channelId : string) (now : nat -> Z) (k : nat)
    (lines : list string) (conn : SerialConnection)
  : SerialConnection * list Effect :=
  match lines with
  | [] => (conn, [])
  | line :: rest =>
      let '(conn, e1) := onLine channelId (now k) line conn in
      let '(conn, e2) := onLines channelId now (S k) rest conn in
      (conn, e1 ++ e2)
  end.

(** A chunk of bytes read from the device of an open channel: the raw
    listener, then the parser and the line listener. *)
Definition onPortData (channelId : string) (chunk : string) (now : nat -> Z)
    (conn : SerialConnection) : SerialConnection * list Effect :=
  let conn :=
    Connection.setStats
      (Connection.addRxBytes (Z.of_nat (String.length chunk)) (stats conn)) conn in
  let raw := [Emit (EvRawData channelId chunk)] in
  match parser conn with
  | None => (conn, raw)
  | Some p =>
      let '(lines, rest) := ReadlineParser.transform (kept p) chunk in
      let conn := Connection.setParser (Some {| kept := rest |}) conn in
      let '(conn, effects) := onLines channelId now 0 lines conn in
      (conn, raw ++ effects)
  end.

(** The device of channel [channelId] delivers [chunk]; only an open port
    delivers data. *)
Definition portData (channelId : string) (chunk : string) (now : nat -> Z)
    (m : SerialManager) : SerialManager * list Effect :=
  match connections m !! channelId with
  | Some conn =>
      match port conn with
      | Some p =>
          if isOpen p then
            let '(conn, effects) := onPortData channelId chunk now conn in
            (store channelId conn m, effects)
          else (m, [])
      | None => (m, [])
      end
  | None => (m, [])
  end.

(** The port of channel [channelId] emits [error]. *)
Definition portError (channelId message : string) (m : SerialManager)
  : SerialManager * list Effect :=
  match connections m !! channelId with
  | Some conn =>
      match port conn with
      | Some _ =>
          let '(conn, effects) := onPortError channelId message conn in
          (store channelId conn m, effects)
      | None => (m, [])
      end
  | None => (m, [])
  end.

(** The callback of [conn.port.write(buffer, ...)] in [send].  An [error]
    event that the port may emit besides, for the same failure, is an event
    of its own ([portError]). *)
Definition onWritten (channelId data mode : string) (bytes : list Z)
    (writeError : option string) (now : Z) (conn : SerialConnection)
  : SerialConnection * list Effect :=
  match writeError with
  | Some message =>
      (Connection.setStats (Connection.addErrors 1 (stats conn)) conn,
       [Emit (EvError channelId ("Send error: " +:+ message))])
  | None =>
      let conn :=
        Connection.setStats
          (Connection.addTx (Z.of_nat (length bytes)) (stats conn)) conn in
      let entry :=
        {| timestamp := now; direction := Tx; data := data; mode := Some mode;
           index := bufferIndex conn; entryChannelId := channelId |} in
      let conn := Connection.setBufferIndex (bufferIndex conn + 1) conn in
      let conn := Connection._addToBuffer entry conn in
      (conn, [Emit (EvLine channelId entry)])
  end.

(** [send(channelId, data, mode)].  [writeError] is the error that
    [port.write] passes to its callback, if any. *)
Definition send (channelId data mode : string)
    (writeError : option string) (now : Z) (m : SerialManager)
  : Result unit * SerialManager * list Effect :=
  match connections m !! channelId with
  | None => (Throw NOT_CONNECTED, m, [])
  | Some conn =>
      if negb (bool_decide (is_Some (port conn))) || negb (connected conn)
      then (Throw NOT_CONNECTED, m, [])
      else
        let bytes := Encoding.encode mode data in
        let '(conn, effects) :=
          onWritten channelId data mode bytes writeError now conn in
        (Ok (), store channelId conn m, PortWrite channelId bytes :: effects)
  end.

(** [getBuffer(channelId, start = 0, count)] *)
Definition getBuffer (channelId : string) (start : option Z) (count : option Z)
    (m : SerialManager) : list LineEntry * SerialManager :=
  let start := default 0 start in
  match connections m !! channelId with
  | None => ([], m)
  | Some conn =>
      match count with
      | None => (Js.slice start None (buffer conn), m)
      | Some n => (Js.slice start (Some (start + n)) (buffer conn), m)
      end
  end.

(** [clearBuffer(channelId)] *)
Definition clearBuffer (channelId : string) (m : SerialManager)
  : SerialManager * list Effect :=
  match connections m !! channelId with
  | Some conn =>
      (store channelId
         (Connection.setBufferIndex 0 (Connection.setBuffer [] conn)) m, [])
  | None => (m, [])
  end.

Definition defaultStatus (channelId : string) : Status :=
  {| statusChannelId := channelId;
     statusConnected := false;
     statusConfig := None;
     statusStats :=
       {| bytesRx := 0; bytesTx := 0; linesRx := 0; linesTx := 0;
          errors := 0; connectedAt := None |};
     bufferSize := 0 |}.

Inductive StatusReply : Type :=
| OneChannel (status : Status)
| AllChannels (channels : gmap string Status) (available : bool).

(** [getStatus(channelId)]; the argument is [None] when it is omitted,
    and the empty string is as good as omitted ([if (channelId)]). *)
Definition getStatus (channelId : option string) (m : SerialManager)
  : StatusReply * SerialManager :=
  match channelId with
  | Some id =>
      if negb (String.eqb id "") then
        match connections m !! id with
        | Some conn => (OneChannel (Connection.getStatus conn), m)
        | None => (OneChannel (defaultStatus id), m)
        end
      else
        (AllChannels (Connection.getStatus <$> connections m)
           (serialportAvailable m), m)
  | None =>
      (AllChannels (Connection.getStatus <$> connections m)
         (serialportAvailable m), m)
  end.

(** [removeChannel(channelId)] *)
Definition removeChannel (channelId : string) (m : SerialManager)
  : SerialManager * list Effect :=
  let '(m, effects) := disconnect channelId m in
  (setConnections (delete channelId (connections m)) m, effects).

End Manager.

(** ** The decoder registry (src/plugin-loader.js) *)

Inductive FieldValue : Type :=
| FNumber (n : Z)
| FString (s : string)
| FBoolean (b : bool).

(** What a decoder returns for data of its protocol. *)
Record DecodedFrame : Type := {
  protocol : string;
  fields : list (string * FieldValue);
  display : string
}.

(** How a call of [decode] ends: it returns a frame or [null], or it
    throws. *)
Inductive DecodeOutcome : Type :=
| Returned (result : option DecodedFrame)
| Threw.

Record Plugin : Type := {
  name : string;
  description : option string;
  decode : list Z -> DecodeOutcome
}.

(** An element of the result of [decodeAll], [{ plugin: plugin.name,
    ...result }]: the properties of the frame and, under [plugin], the name
    of the decoder that made it. *)
Record Decoded : Type := {
  plugin : string;
  frame : DecodedFrame
}.

Module PluginLoader.

(** [decodeAll(data)] over [this.plugins].  Next to the results, the
    calls of [decode] that were made: the name of the decoder and its
    argument. *)
Fixpoint decodeAll (plugins : list Plugin) (data : list Z)
  : list Decoded * list (string * list Z) :=
  match plugins with
  | [] => ([], [])
  | p :: rest =>
      let outcome := decode p data in
      let '(results, calls) := decodeAll rest data in
      match outcome with
      | Returned (Some result) =>
          ({| plugin := name p; frame := result |} :: results,
           (name p, data) :: calls)
      | Returned None => (results, (name p, data) :: calls)
      | Threw => (results, (name p, data) :: calls)
      end
  end.

End PluginLoader.

(** ** The WebSocket bridge (src/ws-handler.js) *)

Inductive Outbound : Type :=
| SerialData (channelId : string) (payload : LineEntry) (decoded : option (list Decoded))
| SerialRaw (channelId : string) (hex : string) (timestamp : Z)
| SerialStatusConnected (channelId : string) (config : PortConfig)
| SerialStatusDisconnected (channelId : string)
| SerialStatusReply (channelId : string) (reply : Manager.StatusReply)
| SerialError (channelId : string) (error : string)
| SerialCleared (channelId : string)
| ErrorReply (error : string).

Inductive Inbound : Type :=
| SerialConnect (cfg : Config)
| SerialDisconnect
| SerialSend (data : string) (mode : option string)
| SerialClear
| SerialGetStatus
| ChannelRemove
| Unknown (type : string).

(** What the device does during a call, and the clock. *)
Record World : Type := {
  openError : option string;
  writeError : option string;
  now : Z
}.

Module WsHandler.

Definition hexDigit (n : Z) : ascii :=
  if n <? 10 then ascii_of_nat (Z.to_nat (48 + n))
  else ascii_of_nat (Z.to_nat (87 + n)).

(** [rawBuffer.toString('hex')] *)
Fixpoint toHex (bytes : string) : string :=
  match bytes with
  | EmptyString => EmptyString
  | String c rest =>
      let n := Z.of_nat (nat_of_ascii c) in
      String (hexDigit (n / 16)) (String (hexDigit (n mod 16)) (toHex rest))
  end.

(** The listener of [line]. *)
Definition onLine (plugins : list Plugin) (channelId : string) (entry : LineEntry)
  : Outbound :=
  let decoded := fst (PluginLoader.decodeAll plugins (Buffer.fromUtf8 (data entry))) in
  SerialData channelId entry
    (if (0 <? length decoded)%nat then Some decoded else None).

(** The listeners that [init] registers on the manager: what is
    broadcast for an event. *)
Definition onEvent (plugins : list Plugin) (now : Z) (event : Event) : Outbound :=
  match event with
  | EvLine channelId entry => onLine plugins channelId entry
  | EvRawData channelId bytes => SerialRaw channelId (toHex bytes) now
  | EvConnected channelId config => SerialStatusConnected channelId config
  | EvDisconnected channelId => SerialStatusDisconnected channelId
  | EvError channelId message => SerialError channelId message
  end.

Fixpoint broadcasts (plugins : list Plugin) (now : Z) (effects : list Effect)
  : list Outbound :=
  match effects with
  | [] => []
  | Emit event :: rest => onEvent plugins now event :: broadcasts plugins now rest
  | PortWrite _ _ :: rest => broadcasts plugins now rest
  end.

Record Handled : Type := {
  manager : SerialManager;
  toSender : list Outbound;
  toAll : list Outbound
}.

(** [handleMessage(ws, msg)]; [channelId] is [msg.channelId], [None] when
    the message has none. *)
Definition handleMessage (plugins : list Plugin) (w : World)
    (msgChannelId : option string) (msg : Inbound) (m : SerialManager) : Handled :=
  let channelId := Manager.orDefaultString msgChannelId "default" in
  match msg with
  | SerialConnect cfg =>
      let '(result, m, effects) :=
        Manager.connect channelId cfg (openError w) (now w) m in
      {| manager := m;
         toSender :=
           match result with
           | Ok config => [SerialStatusConnected channelId config]
           | Throw message => [SerialError channelId message]
           end;
         toAll := broadcasts plugins (now w) effects |}
  | SerialDisconnect =>
      let '(m, effects) := Manager.disconnect channelId m in
      {| manager := m; toSender := [];
         toAll := broadcasts plugins (now w) effects |}
  | SerialSend data mode =>
      let '(result, m, effects) :=
        Manager.send channelId data (Manager.orDefaultString mode "ascii")
          (writeError w) (now w) m in
      {| manager := m;
         toSender :=
           match result with
           | Ok _ => []
           | Throw message => [SerialError channelId message]
           end;
         toAll := broadcasts plugins (now w) effects |}
  | SerialClear =>
      let '(m, effects) := Manager.clearBuffer channelId m in
      {| manager := m; toSender := [];
         toAll := broadcasts plugins (now w) effects ++ [SerialCleared channelId] |}
  | SerialGetStatus =>
      let '(reply, m) := Manager.getStatus (Some channelId) m in
      {| manager := m; toSender := [SerialStatusReply channelId reply];
         toAll := [] |}
  | ChannelRemove =>
      let '(m, effects) := Manager.removeChannel channelId m in
      {| manager := m; toSender := [];
         toAll := broadcasts plugins (now w) effects |}
  | Unknown type =>
      {| manager := m;
         toSender := [ErrorReply ("Unknown message type: " +:+ type)];
         toAll := [] |}
  end.

End WsHandler.

(** ** The REST route [POST /clear] (src/api-routes.js) *)

Module ApiRoutes.

(** [router.post('/clear', ...)]: the new manager and what is broadcast
    to the sockets. *)
Definition postClear (bodyChannelId : option string) (m : SerialManager)
  : SerialManager * list Outbound :=
  let channelId := Manager.orDefaultString bodyChannelId "default" in
  let '(m, _) := Manager.clearBuffer channelId m in
  (m, []).

End ApiRoutes.

(** ** The macro engine (src/macro-engine.js) *)

(** A command of a macro as stored; [None] is an absent field. *)
Record Command : Type := {
  cmdData : option string;
  cmdMode : option string;
  delayMs : option Z
}.

Record Macro : Type := {
  id : string;
  macroName : string;
  commands : list Command;
  repeatCount : option Z;
  params : list string;
  createdAt : Z;
  updatedAt : Z
}.

(** What [run] does, in order: a call of [serialManager.send] and a
    suspension on [setTimeout]. *)
Inductive Action : Type :=
| Sent (channelId data mode : string)
| Slept (ms : Z).

Module MacroEngine.

(** [data.replace(new RegExp(pattern, 'g'), value)] for a pattern that
    matches the text [pat] only and a value without [$]: the occurrences
    of [pat] are replaced from left to right, without overlap.  [skip]
    counts the characters of a match still to pass over. *)
Fixpoint replaceAll (skip : nat) (pat value : string) (s : string) : string :=
  match s with
  | EmptyString => EmptyString
  | String c rest =>
      match skip with
      | S k => replaceAll k pat value rest
      | O =>
          if String.prefix pat s
          then value +:+ replaceAll (String.length pat - 1) pat value rest
          else String c (replaceAll 0 pat value rest)
      end
  end.

Definition placeholder (key : string) : string :=
  "{{" +:+ key +:+ "}}".

(** The loop over [Object.entries(params)]: the entries in their order,
    each applied to the result of the one before. *)
Fixpoint inject (entries : list (string * string)) (data : string) : string :=
  match entries with
  | [] => data
  | (key, value) :: rest => inject rest (replaceAll 0 (placeholder key) value data)
  end.

(** The state that [run] works on: the manager, what the manager did to
    the outside, what [run] did, and the number of calls of [send] made
    (the [k]-th call meets the world [world k]). *)
Record RunState : Type := {
  mgr : SerialManager;
  effects : list Effect;
  actions : list Action;
  sends : nat
}.

Definition Run (A : Type) : Type := RunState -> Result A * RunState.

Definition ret {A : Type} (a : A) : Run A := fun s => (Ok a, s).

Definition bind {A B : Type} (c : Run A) (k : A -> Run B) : Run B :=
  fun s =>
    match c s with
    | (Ok a, s') => k a s'
    | (Throw message, s') => (Throw message, s')
    end.

Notation "c1 >>> c2" := (bind c1 (fun _ => c2))
  (at level 60, right associativity).

(** A call of [serialManager.send] by [run]: the call and the callback of
    its write.  What the port emits by itself after a write that fails (its
    [error] event, an event of its own for the manager) is not part of the
    call. *)
Definition callSend (world : nat -> World) (channelId data mode : string) : Run unit :=
  fun s =>
    let w := world (sends s) in
    let '(result, m, e) :=
      Manager.send channelId data mode (writeError w) (now w) (mgr s) in
    (result,
     {| mgr := m; effects := effects s ++ e;
        actions := actions s ++ [Sent channelId data mode];
        sends := S (sends s) |}).

Definition sleep (ms : Z) : Run unit :=
  fun s =>
    (Ok (),
     {| mgr := mgr s; effects := effects s;
        actions := actions s ++ [Slept ms]; sends := sends s |}).

(** The body of [for (const cmd of macro.commands)]. *)
Definition runCommand (world : nat -> World) (entries : list (string * string))
    (channelId : string) (cmd : Command) : Run unit :=
  let data := Manager.orDefaultString (cmdData cmd) "" in
  let data := inject entries data in
  callSend world channelId data (Manager.orDefaultString (cmdMode cmd) "ascii")
  >>> match delayMs cmd with
      | Some d => if 0 <? d then sleep d else ret ()
      | None => ret ()
      end.

Fixpoint runCommands (world : nat -> World) (entries : list (string * string))
    (channelId : string) (cmds : list Command) : Run unit :=
  match cmds with
  | [] => ret ()
  | cmd :: rest =>
      runCommand world entries channelId cmd
      >>> runCommands world entries channelId rest
  end.

(** [for (let r = 0; r < repeatCount; r++)] *)
Fixpoint iterate (n : nat) (body : Run unit) : Run unit :=
  match n with
  | O => ret ()
  | S n' => body >>> iterate n' body
  end.

Definition findMacro (macros : list Macro) (macroId : string) : option Macro :=
  List.find (fun m => String.eqb (id m) macroId) macros.

(** [run(id, serialManager, params = {}, channelId = 'default')] over
    [this.macros]. *)
Definition run (macros : list Macro) (world : nat -> World)
    (macroId : string) (entries : option (list (string * string)))
    (channelId : option string) : Run unit :=
  let entries := default [] entries in
  let channelId := default "default" channelId in
  match findMacro macros macroId with
  | None => fun s => (Throw "Macro not found", s)
  | Some macro =>
      let repeatCount := Manager.orDefaultZ (repeatCount macro) 1 in
      iterate (Z.to_nat repeatCount)
        (runCommands world entries channelId (commands macro))
  end.

Definition start (m : SerialManager) : RunState :=
  {| mgr := m; effects := []; actions := []; sends := 0 |}.

End MacroEngine.

(** ** Histories of a manager *)

(** The calls that reach a manager and the events of its devices. *)
Inductive Op : Type :=
| OpGetConnection (channelId : string)
| OpConnect (channelId : string) (cfg : Config) (openError : option string) (now : Z)
| OpDisconnect (channelId : string)
| OpPortData (channelId : string) (chunk : string) (now : nat -> Z)
| OpPortError (channelId message : string)
| OpSend (channelId data mode : string) (writeError : option string) (now : Z)
| OpGetBuffer (channelId : string) (start count : option Z)
| OpClearBuffer (channelId : string)
| OpGetStatus (channelId : option string)
| OpRemoveChannel (channelId : string).

Module History.

Definition step (m : SerialManager) (op : Op) : SerialManager * list Effect :=
  match op with
  | OpGetConnection channelId => (snd (Manager.getConnection channelId m), [])
  | OpConnect channelId cfg openError now =>
      let '(_, m, effects) := Manager.connect channelId cfg openError now m in
      (m, effects)
  | OpDisconnect channelId => Manager.disconnect channelId m
  | OpPortData channelId chunk now => Manager.portData channelId chunk now m
  | OpPortError channelId message => Manager.portError channelId message m
  | OpSend channelId data mode writeError now =>
      let '(_, m, effects) := Manager.send channelId data mode writeError now m in
      (m, effects)
  | OpGetBuffer channelId start count =>
      (snd (Manager.getBuffer channelId start count m), [])
  | OpClearBuffer channelId => Manager.clearBuffer channelId m
  | OpGetStatus channelId => (snd (Manager.getStatus channelId m), [])
  | OpRemoveChannel channelId => Manager.removeChannel channelId m
  end.

Fixpoint run (ops : list Op) (m : SerialManager) : SerialManager * list Effect :=
  match ops with
  | [] => (m, [])
  | op :: rest =>
      let '(m, e1) := step m op in
      let '(m, e2) := run rest m in
      (m, e1 ++ e2)
  end.

(** The chunks that the device of one channel delivers, one after the
    other. *)
Definition feed (channelId : string) (chunks : list string) (now : nat -> Z)
  : list Op :=
  map (fun chunk => OpPortData channelId chunk now) chunks.

(** The line entries among the events emitted. *)
Fixpoint lineEntries (effects : list Effect) : list LineEntry :=
  match effects with
  | [] => []
  | Emit (EvLine _ entry) :: rest => entry :: lineEntries rest
  | _ :: rest => lineEntries rest
  end.

(** The buffers handed to the device. *)
Fixpoint written (effects : list Effect) : list (list Z) :=
  match effects with
  | [] => []
  | PortWrite _ bytes :: rest => bytes :: written rest
  | _ :: rest => written rest
  end.

Fixpoint concatStrings (l : list string) : string :=
  match l with
  | [] => EmptyString
  | s :: rest => s +:+ concatStrings rest
  end.

(** The lines, each followed by its terminator. *)
Fixpoint terminated (lines : list string) : string :=
  match lines with
  | [] => EmptyString
  | l :: rest => l +:+ String Js.LF (terminated rest)
  end.

End History.

(** ** Numbers as text *)

Module Number.

Definition digitChar (d : Z) : ascii :=
  if d <? 10 then ascii_of_nat (Z.to_nat (48 + d))
  else ascii_of_nat (Z.to_nat (87 + d)).

(** The digits of [n] in front of [acc], lowest first; [fuel] bounds
    their number. *)
Fixpoint digitsOf (fuel : nat) (radix n : Z) (acc : string) : string :=
  match fuel with
  | O => acc
  | S fuel' =>
      let acc := String (digitChar (n mod radix)) acc in
      if n / radix =? 0 then acc else digitsOf fuel' radix (n / radix) acc
  end.

(** [n.toString(radix)] for an integer [n >= 0]. *)
Definition toString (radix n : Z) : string :=
  digitsOf (S (Z.to_nat (Z.log2 n))) radix n EmptyString.

Fixpoint zeros (k : nat) : string :=
  match k with
  | O => EmptyString
  | S k' => String "0" (zeros k')
  end.

(** [s.padStart(width, '0')] *)
Definition padStart (width : nat) (s : string) : string :=
  zeros (width - String.length s) +:+ s.

End Number.

(** ** The Modbus RTU decoder plugin *)

Module Modbus.

Definition crcBit (crc : Z) : Z :=
  if Z.land crc 1 =? 0 then Z.shiftr crc 1
  else Z.lxor (Z.shiftr crc 1) 40961.

Definition crcByte (crc byte : Z) : Z :=
  Nat.iter 8 crcBit (Z.lxor crc byte).

(** [_crc16(buffer)]: CRC-16/Modbus. *)
Definition _crc16 (buffer : list Z) : Z :=
  fold_left crcByte buffer 65535.

Definition functionNames (code : Z) : option string :=
  if code =? 1 then Some "Read Coils"
  else if code =? 2 then Some "Read Discrete Inputs"
  else if code =? 3 then Some "Read Holding Registers"
  else if code =? 4 then Some "Read Input Registers"
  else if code =? 5 then Some "Write Single Coil"
  else if code =? 6 then Some "Write Single Register"
  else if code =? 15 then Some "Write Multiple Coils"
  else if code =? 16 then Some "Write Multiple Registers"
  else if code =? 23 then Some "Read/Write Multiple Registers"
  else None.

(** [buffer.toString('hex')] *)
Fixpoint toHex (bytes : list Z) : string :=
  match bytes with
  | [] => EmptyString
  | b :: rest =>
      String (Number.digitChar (b / 16))
        (String (Number.digitChar (b mod 16)) (toHex rest))
  end.

Definition decodeFrame (data : list Z) : option DecodedFrame :=
  let len := length data in
  if (len <? 4)%nat then None
  else
    let slaveAddr := nth 0 data 0 in
    let funcCode := nth 1 data 0 in
    let crcReceived := nth (len - 2) data 0 + 256 * nth (len - 1) data 0 in
    let crcCalculated := _crc16 (take (len - 2) data) in
    let crcValid := crcReceived =? crcCalculated in
    let isException := negb (Z.land funcCode 128 =? 0) in
    let baseFuncCode := if isException then Z.land funcCode 127 else funcCode in
    if negb (bool_decide (is_Some (functionNames baseFuncCode))) && negb isException
    then None
    else
      let payload := drop 2 (take (len - 2) data) in
      Some
        {| protocol := "Modbus RTU";
           fields :=
             [ ("slaveAddress", FNumber slaveAddr);
               ("functionCode",
                FString ("0x" +:+ Number.padStart 2 (Number.toString 16 funcCode)));
               ("functionName",
                FString
                  (if isException
                   then "Exception ("
                        +:+ default "Unknown" (functionNames baseFuncCode) +:+ ")"
                   else default "Unknown" (functionNames funcCode)));
               ("isException", FBoolean isException);
               ("payload", FString (toHex payload));
               ("payloadLength", FNumber (Z.of_nat (length payload)));
               ("crcReceived",
                FString ("0x" +:+ Number.padStart 4 (Number.toString 16 crcReceived)));
               ("crcValid", FBoolean crcValid) ];
           display :=
             "[Modbus] Slave:" +:+ Number.toString 10 slaveAddr
             +:+ " Func:"
             +:+ default ("0x" +:+ Number.toString 16 baseFuncCode)
                   (functionNames baseFuncCode)
             +:+ " " +:+ (if isException then "EXCEPTION" else "")
             +:+ " CRC:" +:+ (if crcValid then "OK" else "FAIL") |}.

Definition plugin : Plugin :=
  {| name := "Modbus RTU";
     description :=
       Some "Decodes Modbus RTU protocol frames (function codes, addresses, CRC)";
     decode := fun data => Returned (decodeFrame data) |}.

End Modbus.

(** ** The invariant of the ring buffers *)

(** The cap that the constructor sets, and a buffer within it. *)
Definition withinCap (c : SerialConnection) : Prop :=
  MAX_BUFFER_LINES c = 10000000
  /\ Z.of_nat (length (buffer c)) <= MAX_BUFFER_LINES c.

Definition allWithinCap (m : SerialManager) : Prop :=
  map_Forall (fun _ c => withinCap c) (connections m).

(** The operations that go through [getConnection]. *)
Definition callsGetConnection (op : Op) : bool :=
  match op with
  | OpGetConnection _ | OpConnect _ _ _ _ => true
  | _ => false
  end.

(** ** Payloads as the specification describes them *)

Module Payload.

(** A string of hexadecimal byte pairs and the bytes that it denotes;
    [None] for a string that is not one (a character that is not a
    hexadecimal digit, or an odd number of digits). *)
Fixpoint hexPairs (s : string) : option (list Z) :=
  match s with
  | EmptyString => Some []
  | String a (String b rest) =>
      match Buffer.unhex a, Buffer.unhex b, hexPairs rest with
      | Some hi, Some lo, Some bytes => Some ((16 * hi + lo) :: bytes)
      | _, _, _ => None
      end
  | String _ EmptyString => None
  end.

Definition bit (c : ascii) : Z :=
  if Ascii.eqb c "1" then 1 else 0.

Fixpoint isBitString (s : string) : bool :=
  match s with
  | EmptyString => true
  | String c rest => (Ascii.eqb c "0" || Ascii.eqb c "1") && isBitString rest
  end.

(** The number that a bit string denotes when its first character is
    the most significant bit. *)
Fixpoint msbFirst (s : string) : Z :=
  match s with
  | EmptyString => 0
  | String c rest => bit c * 2 ^ Z.of_nat (String.length rest) + msbFirst rest
  end.

End Payload.

(** ** What a run of a macro does, command by command *)

Module Trace.

(** The actions of one command: the call of [send] with the injected
    data and the mode, then the suspension if the command has a delay
    above 0. *)
Definition ofCommand (entries : list (string * string)) (channelId : string)
    (cmd : Command) : list Action :=
  Sent channelId
    (MacroEngine.inject entries (Manager.orDefaultString (cmdData cmd) ""))
    (Manager.orDefaultString (cmdMode cmd) "ascii")
  :: match delayMs cmd with
     | Some d => if 0 <? d then [Slept d] else []
     | None => []
     end.

(** The actions of one pass over the commands. *)
Definition ofCommands (entries : list (string * string)) (channelId : string)
    (cmds : list Command) : list Action :=
  concat (map (ofCommand entries channelId) cmds).

(** [pat] occurs in [s]. *)
Fixpoint occurs (pat s : string) : bool :=
  match s with
  | EmptyString => String.prefix pat EmptyString
  | String _ rest => String.prefix pat s || occurs pat rest
  end.

(** The channel is connected. *)
Definition linked (channelId : string) (m : SerialManager) : Prop :=
  exists c, connections m !! channelId = Some c
    /\ is_Some (port c) /\ connected c = true.

(** A computation of [run] that, from a state in which the channel is
    connected, goes through, leaves the channel connected, does the
    actions [done] and makes [k] calls of [send]. *)
Definition goesThrough (channelId : string) (c : MacroEngine.Run unit)
    (done : list Action) (k : nat) : Prop :=
  forall s, linked channelId (MacroEngine.mgr s) ->
    exists s', c s = (Ok (), s')
      /\ linked channelId (MacroEngine.mgr s')
      /\ MacroEngine.actions s' = MacroEngine.actions s ++ done
      /\ MacroEngine.sends s' = (MacroEngine.sends s + k)%nat.

End Trace.

(** ** Example inputs *)

Module Examples.

Definition ttyUSB0 : Config :=
  {| cfgPath := "/dev/ttyUSB0"; cfgBaudRate := Some 115200;
     cfgDataBits := Some 8; cfgStopBits := None; cfgParity := None;
     cfgFlowControl := None |}.

(** A manager whose channel [a] has just been opened. *)
Definition opened : SerialManager :=
  snd (fst (Manager.connect "a" ttyUSB0 None 1000 (Manager.new true))).

Definition clock (k : nat) : Z := 2000 + Z.of_nat k.

(** The device writes [foo CR] and then [LF bar LF]. *)
Definition splitTerminator : list string :=
  [ "foo" +:+ String Js.CR EmptyString;
    String Js.LF ("bar" +:+ String Js.LF EmptyString) ].

(** The device writes [a LF LF b LF]: three terminators, the second
    line empty. *)
Definition emptyLine : list string :=
  [ String "a" (String Js.LF (String Js.LF (String "b" (String Js.LF EmptyString)))) ].

Definition entry (i : Z) (line : string) : LineEntry :=
  {| timestamp := 2000 + i; direction := Rx; data := line; mode := None;
     index := i; entryChannelId := "a" |}.

(** A connection whose buffer has reached its cap (a cap of two entries,
    to have the buffer at hand). *)
Definition full : SerialConnection :=
  {| channelId := "a"; port := None; parser := None; config := None;
     connected := false; stats := Connection.emptyStats;
     MAX_BUFFER_LINES := 2;
     buffer := [entry 5 "x"; entry 6 "y"]; bufferIndex := 7 |}.

(** Channel [a] after it has read two lines. *)
Definition afterTwoLines : SerialManager :=
  fst (History.run (History.feed "a" splitTerminator clock) opened).

(** A hexadecimal payload with a pair that is not one. *)
Definition malformedHex : string := "41zz".

(** A macro whose only command has a delay. *)
Definition goMacro : Macro :=
  {| id := "m1"; macroName := "go";
     commands := [ {| cmdData := Some "GO"; cmdMode := Some "ascii";
                      delayMs := Some 10 |} ];
     repeatCount := Some 1; params := []; createdAt := 0; updatedAt := 0 |}.

(** The macro of the scenario: [SET {{x}}] with a delay of 10, [GO]
    without delay, twice. *)
Definition setGoMacro : Macro :=
  {| id := "m2"; macroName := "set-go";
     commands := [ {| cmdData := Some "SET {{x}}"; cmdMode := Some "ascii";
                      delayMs := Some 10 |};
                   {| cmdData := Some "GO"; cmdMode := Some "ascii";
                      delayMs := Some 0 |} ];
     repeatCount := Some 2; params := ["x"]; createdAt := 0; updatedAt := 0 |}.

(** A decoder that always throws. *)
Definition faulty : Plugin :=
  {| name := "Faulty"; description := None; decode := fun _ => Threw |}.

(** A decoder that never recognises its input. *)
Definition silent : Plugin :=
  {| name := "Silent"; description := None; decode := fun _ => Returned None |}.

Definition registry : list Plugin := [faulty; Modbus.plugin; silent].

(** The response of the scenario, with the CRC of its first five bytes
    (0x4338, low byte first). *)
Definition holdingRegisters : list Z := [1; 3; 2; 0; 10; 56; 67].

(** The text [ete] with acute accents on both [e] (code unit 233): in
    UTF-8 the bytes C3 A9 74 C3 A9. *)
Definition accented : string :=
  String (ascii_of_nat 233) (String "t" (String (ascii_of_nat 233) EmptyString)).

Definition calm (k : nat) : World :=
  {| openError := None; writeError := None; now := 3000 + Z.of_nat k |}.

End Examples.

(** ** Well-formed channels *)

Module Channel.

(** What the manager keeps true of the channel stored under the id [k]. *)
Record wellFormed (k : string) (c : SerialConnection) : Prop := {
  wf_id : channelId c = k;
  wf_entries : Forall (fun e => entryChannelId e = k) (buffer c);
  wf_mode :
    Forall (fun e => match direction e with
                     | Tx => is_Some (mode e)
                     | Rx => mode e = None
                     end) (buffer c);
  wf_index :
    forall i e, buffer c !! i = Some e ->
      index e = bufferIndex c - Z.of_nat (length (buffer c)) + Z.of_nat i;
  wf_count : Z.of_nat (length (buffer c)) <= bufferIndex c;
  wf_open :
    connected c = true ->
    port c = Some {| isOpen := true |} /\ is_Some (config c)
    /\ exists q, parser c = Some q /\ Js.contains Js.LF (kept q) = false;
  wf_closed :
    connected c = false ->
    config c = None /\ parser c = None /\ port c <> Some {| isOpen := true |}
}.

Definition allWellFormed (m : SerialManager) : Prop :=
  map_Forall wellFormed (connections m).

(** The channel that an operation is about. *)
Definition ofOp (op : Op) : option string :=
  match op with
  | OpGetConnection k | OpConnect k _ _ _ | OpDisconnect k | OpPortData k _ _
  | OpPortError k _ | OpSend k _ _ _ _ | OpGetBuffer k _ _ | OpClearBuffer k
  | OpRemoveChannel k => Some k
  | OpGetStatus k => k
  end.

(** The channel that an effect names. *)
Definition ofEffect (e : Effect) : string :=
  match e with
  | Emit (EvLine k _) | Emit (EvRawData k _) | Emit (EvConnected k _)
  | Emit (EvDisconnected k) | Emit (EvError k _) | PortWrite k _ => k
  end.

End Channel.

(** ** What is seen of a history *)

Module Observed.

(** The chunks of the [raw-data] events emitted. *)
Fixpoint rawData (effects : list Effect) : list string :=
  match effects with
  | [] => []
  | Emit (EvRawData _ bytes) :: rest => bytes :: rawData rest
  | _ :: rest => rawData rest
  end.

(** The bytes of a chunk: the code of each character. *)
Fixpoint bytesOf (chunk : string) : list Z :=
  match chunk with
  | EmptyString => []
  | String c rest => Z.of_nat (nat_of_ascii c) :: bytesOf rest
  end.

Definition isByte (b : Z) : Prop := 0 <= b < 256.

(** The text has characters below 128 only. *)
Fixpoint isAscii (s : string) : bool :=
  match s with
  | EmptyString => true
  | String c rest => (nat_of_ascii c <? 128)%nat && isAscii rest
  end.

End Observed.

(** ** More example inputs *)

Module Samples.

(** A history of channel [a]: it is opened, reads two lines, sends [AT],
    the write of [?] fails, and it sends [OK]. *)
Definition session : list Op :=
  OpConnect "a" Examples.ttyUSB0 None 1000
  :: History.feed "a" Examples.splitTerminator Examples.clock
  ++ [ OpSend "a" "AT" "ascii" None 3000;
       OpSend "a" "?" "ascii" (Some "EIO") 3001;
       OpSend "a" "OK" "ascii" None 3002 ].

Definition afterSession : SerialManager :=
  fst (History.run session (Manager.new true)).

End Samples.

(** ** The fields of a frame *)

Module Frame.

(** [frame.fields[key]] *)
Fixpoint lookup (key : string) (fields : list (string * FieldValue))
  : option FieldValue :=
  match fields with
  | [] => None
  | (k, v) :: rest => if String.eqb k key then Some v else lookup key rest
  end.

Definition field (key : string) (frame : DecodedFrame) : option FieldValue :=
  lookup key (fields frame).

End Frame.

(** ** The SLIP decoder plugin *)

Module Slip.

Definition END : Z := 192.
Definition ESC : Z := 219.
Definition ESC_END : Z := 220.
Definition ESC_ESC : Z := 221.

(** What follows the first [x] of [l] ([l.indexOf(x)] and the slice behind
    it); [None] when [l] has no [x]. *)
Fixpoint afterFirst (x : Z) (l : list Z) : option (list Z) :=
  match l with
  | [] => None
  | b :: rest => if b =? x then Some rest else afterFirst x rest
  end.

(** What precedes the first [x] of [l]; all of [l] when it has no [x]. *)
Fixpoint upTo (x : Z) (l : list Z) : list Z :=
  match l with
  | [] => []
  | b :: rest => if b =? x then [] else b :: upTo x rest
  end.

(** The loop that undoes the escapes; an [ESC] at the very end is
    dropped. *)
Fixpoint unescape (encoded : list Z) : list Z :=
  match encoded with
  | [] => []
  | b :: rest =>
      if b =? ESC then
        match rest with
        | [] => []
        | x :: rest' =>
            (if x =? ESC_END then END
             else if x =? ESC_ESC then ESC
             else x) :: unescape rest'
        end
      else b :: unescape rest
  end.

(** [buffer.toString('ascii').replace(/[^\x20-\x7E]/g, '.')]: the high bit
    of each byte is dropped, and what is not printable becomes a dot. *)
Fixpoint printable (bytes : list Z) : string :=
  match bytes with
  | [] => EmptyString
  | b :: rest =>
      let a := Z.land b 127 in
      String (if (32 <=? a) && (a <=? 126) then ascii_of_nat (Z.to_nat a) else ".")
        (printable rest)
  end.

Definition decodeFrame (data : list Z) : option DecodedFrame :=
  match afterFirst END data with
  | None => None
  | Some rest =>
      let encoded := upTo END rest in
      if (length encoded =? 0)%nat then None
      else
        let decoded := unescape encoded in
        Some
          {| protocol := "SLIP";
             fields :=
               [ ("encodedLength", FNumber (Z.of_nat (length encoded)));
                 ("decodedLength", FNumber (Z.of_nat (length decoded)));
                 ("decodedHex", FString (Modbus.toHex decoded));
                 ("decodedAscii", FString (printable decoded));
                 ("escapedBytes",
                  FNumber (Z.of_nat (length encoded) - Z.of_nat (length decoded))) ];
             display :=
               "[SLIP] " +:+ Number.toString 10 (Z.of_nat (length decoded))
               +:+ " bytes decoded ("
               +:+ Number.toString 10 (Z.of_nat (length encoded))
               +:+ " encoded)" |}
  end.

Definition plugin : Plugin :=
  {| name := "SLIP";
     description :=
       Some "Decodes SLIP (Serial Line Internet Protocol, RFC 1055) frames";
     decode := fun data => Returned (decodeFrame data) |}.

(** The escapes of RFC 1055: what a sender puts on the line for the bytes
    of a packet. *)
Fixpoint escape (packet : list Z) : list Z :=
  match packet with
  | [] => []
  | b :: rest =>
      if b =? END then ESC :: ESC_END :: escape rest
      else if b =? ESC then ESC :: ESC_ESC :: escape rest
      else b :: escape rest
  end.

(** The number of bytes of a packet that need an escape. *)
Fixpoint escapes (packet : list Z) : Z :=
  match packet with
  | [] => 0
  | b :: rest => (if (b =? END) || (b =? ESC) then 1 else 0) + escapes rest
  end.

End Slip.

(** ** The example decoder plugin *)

Module ExampleDecoder.

Definition decodeFrame (data : list Z) : option DecodedFrame :=
  if (length data <? 3)%nat || negb (nth 0 data 0 =? 170) then None
  else
    let len := nth 1 data 0 in
    let payload := Js.slice 2 (Some (2 + len)) data in
    Some
      {| protocol := "Custom";
         fields :=
           [ ("header", FString "0xAA");
             ("length", FNumber len);
             ("payload", FString (Modbus.toHex payload)) ];
         display :=
           "[Custom] Len:" +:+ Number.toString 10 len
           +:+ " Data:" +:+ Modbus.toHex payload |}.

Definition plugin : Plugin :=
  {| name := "Example Decoder";
     description :=
       Some "Template protocol decoder — customize this for your own protocol";
     decode := fun data => Returned (decodeFrame data) |}.

End ExampleDecoder.

(** ** Loading the decoders (src/plugin-loader.js, [loadAll]) *)

(** What [require] gives for a file of the plugin directory: it throws, or
    it gives the exports of the file, of which [loadAll] looks at [name]
    (a text, [None] when absent) and [decode] ([None] when it is not a
    function). *)
Inductive Required : Type :=
| RequireThrows (message : string)
| Exports (name : option string) (description : option string)
          (decode : option (list Z -> DecodeOutcome)).

Module Loader.

(** [s.endsWith(suffix)] *)
Definition endsWith (suffix s : string) : bool :=
  let n := String.length s in
  let k := String.length suffix in
  if (n <? k)%nat then false
  else String.eqb (String.substring (n - k) k s) suffix.

(** The body of the loop over the files: what the file adds to
    [this.plugins]. *)
Definition load (required : Required) : list Plugin :=
  match required with
  | RequireThrows _ => []
  | Exports exportedName exportedDescription exportedDecode =>
      match exportedName, exportedDecode with
      | Some n, Some f =>
          if negb (String.eqb n "")
          then [ {| name := n; description := exportedDescription; decode := f |} ]
          else []
      | _, _ => []
      end
  end.

(** What [loadAll] passes over: [require] throws, or the exports have no
    name, an empty one, or no [decode] function. *)
Definition unusable (required : Required) : Prop :=
  match required with
  | RequireThrows _ => True
  | Exports exportedName _ exportedDecode =>
      exportedName = None \/ exportedName = Some EmptyString
      \/ exportedDecode = None
  end.

Fixpoint loadFiles (files : list (string * Required)) : list Plugin :=
  match files with
  | [] => []
  | (_, required) :: rest => load required ++ loadFiles rest
  end.

(** [loadAll()].  [directory] is [None] when the plugin directory does not
    exist, and else the names that [readdirSync] lists, each with what
    [require] gives for it.  Returns the new [this.plugins] and whether the
    directory has been made. *)
Definition loadAll (directory : option (list (string * Required)))
  : list Plugin * bool :=
  match directory with
  | None => ([], true)
  | Some listed =>
      let files := List.filter (fun f => endsWith ".js" (fst f)) listed in
      (loadFiles files, false)
  end.

(** [reload()] *)
Definition reload (directory : option (list (string * Required)))
  : list Plugin * bool :=
  loadAll directory.

End Loader.

(** ** The serial ports of the machine (src/serial-manager.js) *)

(** A port as [SerialPort.list()] reports it; [None] is an absent field. *)
Record OsPort : Type := {
  osPath : string;
  osManufacturer : option string;
  osSerialNumber : option string;
  osVendorId : option string;
  osProductId : option string;
  osFriendlyName : option string
}.

Record PortInfo : Type := {
  portPath : string;
  manufacturer : string;
  serialNumber : string;
  vendorId : string;
  productId : string;
  friendlyName : string
}.

(** The part of the manager that watches the ports: [_lastPortPaths] and
    [_portPollInterval] (the timer, if one runs). *)
Record Poller : Type := {
  _lastPortPaths : list string;
  _portPollInterval : option Z
}.

Module Ports.

(** [listPorts()].  [listed] is [None] when [SerialPort.list()] fails. *)
Definition listPorts (available : bool) (listed : option (list OsPort))
  : list PortInfo :=
  if negb available then []
  else
    match listed with
    | None => []
    | Some ports =>
        map (fun p =>
               {| portPath := osPath p;
                  manufacturer := Manager.orDefaultString (osManufacturer p) "";
                  serialNumber := Manager.orDefaultString (osSerialNumber p) "";
                  vendorId := Manager.orDefaultString (osVendorId p) "";
                  productId := Manager.orDefaultString (osProductId p) "";
                  friendlyName :=
                    Manager.orDefaultString (osFriendlyName p) (osPath p) |})
            ports
    end.

(** [array.sort()] on texts: the order of the code units. *)
Definition sort (l : list string) : list string :=
  merge_sort String.le l.

(** [array.join(',')] *)
Fixpoint join (l : list string) : string :=
  match l with
  | [] => EmptyString
  | [s] => s
  | s :: rest => s +:+ "," +:+ join rest
  end.

Definition new : Poller :=
  {| _lastPortPaths := []; _portPollInterval := None |}.

(** One round of the timer of [startPortPolling].  [sort] sorts
    [_lastPortPaths] in place.  Returns the ports of the [ports-changed]
    event, if one is emitted. *)
Definition poll (available : bool) (listed : option (list OsPort)) (p : Poller)
  : Poller * option (list PortInfo) :=
  let ports := listPorts available listed in
  let currentPaths := join (sort (map portPath ports)) in
  let sortedLast := sort (_lastPortPaths p) in
  let prevPaths := join sortedLast in
  if negb (String.eqb currentPaths prevPaths)
  then ({| _lastPortPaths := map portPath ports;
           _portPollInterval := _portPollInterval p |}, Some ports)
  else ({| _lastPortPaths := sortedLast;
           _portPollInterval := _portPollInterval p |}, None).

(** [startPortPolling(intervalMs)]; [timer] is what [setInterval] returns. *)
Definition startPortPolling (timer : Z) (p : Poller) : Poller :=
  match _portPollInterval p with
  | Some _ => p
  | None => {| _lastPortPaths := _lastPortPaths p; _portPollInterval := Some timer |}
  end.

(** [stopPortPolling()] *)
Definition stopPortPolling (p : Poller) : Poller :=
  match _portPollInterval p with
  | Some _ => {| _lastPortPaths := _lastPortPaths p; _portPollInterval := None |}
  | None => p
  end.

(** A path that [join] keeps apart from its neighbours: not empty, and
    without a comma. *)
Definition plain (s : string) : Prop :=
  s <> EmptyString /\ Js.contains "," s = false.

End Ports.

(** Example ports and pollers. *)
Module Hardware.

Definition port (path : string) : OsPort :=
  {| osPath := path; osManufacturer := None; osSerialNumber := None;
     osVendorId := None; osProductId := None; osFriendlyName := None |}.

Definition watching (paths : list string) : Poller :=
  {| _lastPortPaths := paths; _portPollInterval := Some 1 |}.

End Hardware.

(** ** What a run of a macro hands to the device *)

(** The keys and values for which the injection of [run] is a replacement
    of text by text.  [run] makes a RegExp of the key as it is and gives the
    value to [replace] as a replacement pattern: a key without a character
    that means something in a RegExp matches its own text only, and a value
    without [$] is put in as it is. *)
Module Injection.

(** The characters with a meaning of their own in the source of a RegExp. *)
Definition isMeta (c : ascii) : bool :=
  Js.contains c "\^$.*+?()[]{}|".

Fixpoint literalKey (key : string) : bool :=
  match key with
  | EmptyString => true
  | String c rest => negb (isMeta c) && literalKey rest
  end.

Definition plainValue (value : string) : bool :=
  negb (Js.contains "$" value).

Definition plain (entries : list (string * string)) : Prop :=
  Forall (fun entry => literalKey (fst entry) = true
                       /\ plainValue (snd entry) = true) entries.

(** An occurrence of [pat] in [pre] followed by [rest] starts in [pre]. *)
Fixpoint startsIn (pat pre rest : string) : bool :=
  match pre with
  | EmptyString => false
  | String _ pre' =>
      String.prefix pat (pre +:+ rest) || startsIn pat pre' rest
  end.

End Injection.

Module Account.

(** [stats.linesTx] of the channel. *)
Definition written (channelId : string) (m : SerialManager) : Z :=
  match connections m !! channelId with
  | Some c => linesTx (stats c)
  | None => 0
  end.

(** A computation of [run] that, from a state in which the channel is
    connected, goes through, leaves the channel connected and moves
    [measure] up by [k]. *)
Definition advances (channelId : string) (measure : SerialManager -> Z)
    (c : MacroEngine.Run unit) (k : nat) : Prop :=
  forall s, Trace.linked channelId (MacroEngine.mgr s) ->
    exists s', c s = (Ok (), s')
      /\ Trace.linked channelId (MacroEngine.mgr s')
      /\ measure (MacroEngine.mgr s') = measure (MacroEngine.mgr s) + Z.of_nat k.

(** A computation of [run] that, from a state in which the channel is
    connected, goes through, leaves the channel connected and hands the
    buffers [bytes] to the device, in this order. *)
Definition delivers (channelId : string) (c : MacroEngine.Run unit)
    (bytes : list (list Z)) : Prop :=
  forall s, Trace.linked channelId (MacroEngine.mgr s) ->
    exists s', c s = (Ok (), s')
      /\ Trace.linked channelId (MacroEngine.mgr s')
      /\ History.written (MacroEngine.effects s')
         = History.written (MacroEngine.effects s) ++ bytes.

(** The bytes of one command: its text after the injection, in its mode. *)
Definition payload (entries : list (string * string)) (cmd : Command) : list Z :=
  Encoding.encode (Manager.orDefaultString (cmdMode cmd) "ascii")
    (MacroEngine.inject entries (Manager.orDefaultString (cmdData cmd) "")).

(** The number of passes over the commands. *)
Definition passes (macro : Macro) : nat :=
  Z.to_nat (Manager.orDefaultZ (repeatCount macro) 1).

(** The number of calls of [send] in a run of the macro. *)
Definition sendsOf (macro : Macro) : nat :=
  (passes macro * length (commands macro))%nat.

End Account.

(** ** The store of the macros (src/macro-engine.js) *)

(** The body of a request that creates a macro: [None] is a field that is
    absent or [null]. *)
Record MacroData : Type := {
  dataName : option string;
  dataCommands : option (list Command);
  dataRepeatCount : option Z;
  dataParams : option (list string)
}.

(** The body of a request that updates a macro, as far as it names fields
    of a macro; [None] is a field that the body does not have.  An
    [updatedAt] of the body is overwritten in any case. *)
Record MacroPatch : Type := {
  patchId : option string;
  patchName : option string;
  patchCommands : option (list Command);
  patchRepeatCount : option (option Z);
  patchParams : option (list string);
  patchCreatedAt : option Z
}.

(** The data file: absent, not readable as JSON, or the text that
    [JSON.stringify] has made of a list of macros, which [JSON.parse] reads
    back as that list. *)
Inductive DataFile : Type :=
| Missing
| Unreadable
| Holds (saved : list Macro).

Module MacroStore.

Record State : Type := {
  macros : list Macro;
  dataFile : DataFile
}.

Definition NOT_FOUND : string := "Macro not found".

(** The constructor: [this.macros = []; this._load()]. *)
Definition _load (file : DataFile) : State :=
  {| macros :=
       match file with
       | Holds saved => saved
       | Missing => []
       | Unreadable => []
       end;
     dataFile := file |}.

(** [_save()].  [writeError] is the error that [mkdirSync] or
    [writeFileSync] throws, if any. *)
Definition _save (writeError : option string) (s : State) : Result unit * State :=
  match writeError with
  | Some message => (Throw message, s)
  | None => (Ok (), {| macros := macros s; dataFile := Holds (macros s) |})
  end.

(** [create(data)].  [uuid] is what [uuidv4()] returns, [now1] and [now2]
    the two readings of [Date.now()]. *)
Definition create (data : MacroData) (uuid : string) (now1 now2 : Z)
    (writeError : option string) (s : State) : Result Macro * State :=
  let macro :=
    {| id := uuid;
       macroName := Manager.orDefaultString (dataName data) "Untitled Macro";
       commands := default [] (dataCommands data);
       repeatCount := Some (Manager.orDefaultZ (dataRepeatCount data) 1);
       params := default [] (dataParams data);
       createdAt := now1;
       updatedAt := now2 |} in
  let s := {| macros := macros s ++ [macro]; dataFile := dataFile s |} in
  match _save writeError s with
  | (Ok _, s) => (Ok macro, s)
  | (Throw message, s) => (Throw message, s)
  end.

(** [{ ...macro, ...data, updatedAt: Date.now() }] *)
Definition merge (macro : Macro) (patch : MacroPatch) (now : Z) : Macro :=
  {| id := default (id macro) (patchId patch);
     macroName := default (macroName macro) (patchName patch);
     commands := default (commands macro) (patchCommands patch);
     repeatCount := default (repeatCount macro) (patchRepeatCount patch);
     params := default (params macro) (patchParams patch);
     createdAt := default (createdAt macro) (patchCreatedAt patch);
     updatedAt := now |}.

(** [this.macros.findIndex(m => m.id === id)], with the macro found. *)
Definition findIndex (macroId : string) (l : list Macro) : option (nat * Macro) :=
  list_find (fun m => id m = macroId) l.

(** [update(id, data)] *)
Definition update (macroId : string) (patch : MacroPatch) (now : Z)
    (writeError : option string) (s : State) : Result Macro * State :=
  match findIndex macroId (macros s) with
  | None => (Throw NOT_FOUND, s)
  | Some (idx, old) =>
      let new := merge old patch now in
      let s := {| macros := <[idx := new]> (macros s); dataFile := dataFile s |} in
      match _save writeError s with
      | (Ok _, s) => (Ok new, s)
      | (Throw message, s) => (Throw message, s)
      end
  end.

(** [remove(id)] *)
Definition remove (macroId : string) (writeError : option string) (s : State)
  : Result unit * State :=
  match findIndex macroId (macros s) with
  | None => (Throw NOT_FOUND, s)
  | Some (idx, _) =>
      let s := {| macros := delete idx (macros s); dataFile := dataFile s |} in
      _save writeError s
  end.

(** No macro of the list has the id. *)
Definition unknown (macroId : string) (l : list Macro) : Prop :=
  Forall (fun m => id m <> macroId) l.

(** [list()] *)
Definition list (s : State) : Datatypes.list Macro := macros s.

End MacroStore.

(** Example macros in the store. *)
Module Shelf.

Definition stocked : MacroStore.State :=
  MacroStore._load (Holds [Examples.goMacro; Examples.setGoMacro]).

Definition ping : MacroData :=
  {| dataName := Some "ping";
     dataCommands := None; dataRepeatCount := Some 0; dataParams := None |}.

Definition rename (newId : string) : MacroPatch :=
  {| patchId := Some newId; patchName := None; patchCommands := None;
     patchRepeatCount := None; patchParams := None; patchCreatedAt := None |}.

End Shelf.

(** ** Shutting the server down (server.js, [gracefulShutdown]) *)

Module Server.

(** The loop over [serialManager.connections]: a [disconnect] for every
    channel, one after the other. *)
Fixpoint disconnectAll (channels : list string) (m : SerialManager)
  : SerialManager * list Effect :=
  match channels with
  | [] => (m, [])
  | channelId :: rest =>
      let '(m, e1) := Manager.disconnect channelId m in
      let '(m, e2) := disconnectAll rest m in
      (m, e1 ++ e2)
  end.

(** [gracefulShutdown(signal)], up to the exit of the process.
    [channels] are the keys of [serialManager.connections], in the order in
    which the Map gives them. *)
Definition gracefulShutdown (channels : list string) (p : Poller)
    (m : SerialManager) : Poller * SerialManager * list Effect :=
  let p := Ports.stopPortPolling p in
  let '(m, effects) := disconnectAll channels m in
  (p, m, effects).

(** [channels] are the keys of the connections, each once. *)
Definition keysOf (channels : list string) (m : SerialManager) : Prop :=
  NoDup channels
  /\ forall k, k ∈ channels <-> is_Some (connections m !! k).

End Server.

(** ** The counters of a channel over a history *)

Module Counters.

(** No counter of [s'] is below the one of [s]. *)
Definition le (s s' : Stats) : Prop :=
  bytesRx s <= bytesRx s' /\ bytesTx s <= bytesTx s'
  /\ linesRx s <= linesRx s' /\ linesTx s <= linesTx s'
  /\ errors s <= errors s'.

(** The operations that may take a counter down: a [connect] whose port
    opens, and the removal of a channel (a later [getConnection] makes a new
    one). *)
Definition resets (op : Op) : bool :=
  match op with
  | OpConnect _ _ None _ => true
  | OpRemoveChannel _ => true
  | _ => false
  end.

(** Every channel of [m] is a channel of [m'], with counters that are not
    below those that it has in [m]. *)
Definition grown (m m' : SerialManager) : Prop :=
  forall k c, connections m !! k = Some c ->
    exists c', connections m' !! k = Some c' /\ le (stats c) (stats c').

End Counters.

(** * Properties *)

(** ** The line framer *)

Section Framer.

Import ReadlineParser.

Lemma append_cons (c : ascii) (s t : string) :
  String c s +:+ t = String c (s +:+ t).
Proof. reflexivity. Qed.

Lemma append_nil_l (s : string) : EmptyString +:+ s = s.
Proof. reflexivity. Qed.

Lemma append_nil_r (s : string) : s +:+ EmptyString = s.
Proof. induction s as [|c s IH]; [done | by rewrite append_cons, IH]. Qed.

Lemma append_assoc' (a b c : string) : (a +:+ b) +:+ c = a +:+ (b +:+ c).
Proof. induction a as [|x a IH]; [done | by rewrite !append_cons, IH]. Qed.

Lemma contains_app (c : ascii) (a b : string) :
  Js.contains c (a +:+ b) = Js.contains c a || Js.contains c b.
Proof.
  induction a as [|x a IH]; [done|].
  rewrite append_cons. simpl. rewrite IH. by destruct (Ascii.eqb x c).
Qed.

(** One line is pushed for every terminator scanned. *)
Lemma frame_length (data cur : string) :
  length (fst (frame cur data)) = Js.count Js.LF data.
Proof.
  revert cur. induction data as [|c rest IH]; intros cur; simpl; [done|].
  destruct (Ascii.eqb c Js.LF).
  - specialize (IH EmptyString). destruct (frame EmptyString rest). simpl in *. by rewrite IH.
  - apply IH.
Qed.

(** The lines pushed and the bytes kept hold no terminator. *)
Lemma frame_no_LF (data cur : string) :
  Js.contains Js.LF cur = false ->
  Forall (fun l => Js.contains Js.LF l = false) (fst (frame cur data))
  /\ Js.contains Js.LF (snd (frame cur data)) = false.
Proof.
  revert cur. induction data as [|c rest IH]; intros cur Hcur; simpl; [by split|].
  destruct (Ascii.eqb c Js.LF) eqn:Hc.
  - destruct (IH EmptyString eq_refl) as [H1 H2].
    destruct (frame EmptyString rest). simpl in *. split; [by constructor | done].
  - apply IH. rewrite contains_app, Hcur. simpl.
    rewrite Hc. done.
Qed.

(** The bytes scanned are the lines pushed, each with its terminator,
    and then the bytes kept: nothing else is dropped or changed. *)
Lemma frame_join (data cur : string) :
  History.terminated (fst (frame cur data)) +:+ snd (frame cur data)
  = cur +:+ data.
Proof.
  revert cur. induction data as [|c rest IH]; intros cur; simpl.
  - by rewrite append_nil_r.
  - destruct (Ascii.eqb c Js.LF) eqn:Hc.
    + apply Ascii.eqb_eq in Hc. subst c.
      specialize (IH EmptyString). destruct (frame EmptyString rest). simpl in *.
      rewrite append_nil_l in IH. by rewrite append_assoc', append_cons, IH.
    + rewrite IH, append_assoc'. done.
Qed.

(** Scanning in two pieces is scanning the whole. *)
Lemma frame_app (a b cur : string) :
  frame cur (a +:+ b)
  = (fst (frame cur a) ++ fst (frame (snd (frame cur a)) b),
     snd (frame (snd (frame cur a)) b)).
Proof.
  revert cur. induction a as [|c rest IH]; intros cur.
  - rewrite append_nil_l. simpl. by destruct (frame cur b).
  - rewrite append_cons. simpl. destruct (Ascii.eqb c Js.LF).
    + rewrite IH. destruct (frame EmptyString rest). done.
    + apply IH.
Qed.

Lemma frame_kept (k cur : string) :
  Js.contains Js.LF k = false -> frame cur k = ([], cur +:+ k).
Proof.
  revert cur. induction k as [|c rest IH]; intros cur H; simpl in *.
  - by rewrite append_nil_r.
  - destruct (Ascii.eqb c Js.LF); [done|].
    simpl in H. rewrite IH by done. by rewrite append_assoc'.
Qed.

(** With the bytes kept from before, a chunk is framed as the
    continuation of the stream. *)
Lemma frame_continues (k chunk : string) :
  Js.contains Js.LF k = false -> frame EmptyString (k +:+ chunk) = frame k chunk.
Proof.
  intros H. rewrite frame_app, frame_kept by done. simpl.
  rewrite append_nil_l. by destruct (frame k chunk).
Qed.

Lemma transform_frame (k chunk : string) :
  Js.contains Js.LF k = false ->
  transform k chunk
  = (List.filter nonEmpty (fst (frame k chunk)), snd (frame k chunk)).
Proof.
  intros H. unfold transform. rewrite frame_continues by done.
  by destruct (frame k chunk).
Qed.

End Framer.

(** ** Reading from an open channel *)

Section Reading.

Import ReadlineParser.

Lemma lineEntries_app (e1 e2 : list Effect) :
  History.lineEntries (e1 ++ e2) = History.lineEntries e1 ++ History.lineEntries e2.
Proof.
  induction e1 as [|[[]|] e1 IH]; simpl; try done. by rewrite IH.
Qed.

(** The line listener touches the statistics, the buffer and the next
    index only. *)
Lemma onLines_link channelId now k lines c :
  let c' := fst (Manager.onLines channelId now k lines c) in
  port c' = port c /\ parser c' = parser c /\ connected c' = connected c
  /\ config c' = config c /\ MAX_BUFFER_LINES c' = MAX_BUFFER_LINES c.
Proof.
  revert k c. induction lines as [|l lines IH]; intros k c; simpl; [done|].
  specialize (IH (S k)
    (Connection._addToBuffer
       {| timestamp := now k; direction := Rx; data := l; mode := None;
          index := bufferIndex c; entryChannelId := channelId |}
       (Connection.setBufferIndex (bufferIndex c + 1)
          (Connection.setStats (Connection.addRxLines 1 (stats c)) c)))).
  destruct (Manager.onLines _ _ _ _ _) as [c' e]. simpl in *. exact IH.
Qed.

Lemma onLines_entries channelId now k lines c :
  let entries := History.lineEntries (snd (Manager.onLines channelId now k lines c)) in
  map data entries = lines /\ Forall (fun e => direction e = Rx) entries.
Proof.
  revert k c. induction lines as [|l lines IH]; intros k c; simpl; [done|].
  specialize (IH (S k)
    (Connection._addToBuffer
       {| timestamp := now k; direction := Rx; data := l; mode := None;
          index := bufferIndex c; entryChannelId := channelId |}
       (Connection.setBufferIndex (bufferIndex c + 1)
          (Connection.setStats (Connection.addRxLines 1 (stats c)) c)))).
  destruct (Manager.onLines _ _ _ _ _) as [c' e]. simpl in *.
  destruct IH as [IH1 IH2]. split; [by rewrite IH1 | by constructor].
Qed.

(** One chunk on an open channel. *)
Lemma portData_open m channelId c p k chunk now :
  connections m !! channelId = Some c ->
  port c = Some p -> isOpen p = true ->
  parser c = Some {| kept := k |} ->
  Js.contains Js.LF k = false ->
  let '(m', e) := Manager.portData channelId chunk now m in
  map data (History.lineEntries e) = List.filter nonEmpty (fst (frame k chunk))
  /\ Forall (fun e => direction e = Rx) (History.lineEntries e)
  /\ exists c', connections m' !! channelId = Some c'
       /\ port c' = Some p
       /\ parser c' = Some {| kept := snd (frame k chunk) |}.
Proof.
  intros Hc Hp Hopen Hparser Hk.
  unfold Manager.portData, Manager.onPortData. rewrite Hc, Hp, Hopen. simpl.
  rewrite Hparser. simpl. rewrite transform_frame by done.
  destruct (frame k chunk) as [pushed rest] eqn:Hframe. simpl.
  set (lines := List.filter nonEmpty pushed).
  set (c1 := Connection.setParser _ _).
  pose proof (onLines_link channelId now 0 lines c1) as Hlink.
  pose proof (onLines_entries channelId now 0 lines c1) as Hentries.
  destruct (Manager.onLines channelId now 0 lines c1) as [c' e]. simpl in *.
  destruct Hlink as (Hp' & Hparser' & _). destruct Hentries as [He1 He2].
  split; [done|]. split; [done|].
  exists c'. rewrite lookup_insert_eq. split; [done|].
  split; [by rewrite Hp' | by rewrite Hparser'].
Qed.

(** A sequence of chunks is framed as the stream that they make. *)
Lemma feed_open chunks : forall m channelId c p k now,
  connections m !! channelId = Some c ->
  port c = Some p -> isOpen p = true ->
  parser c = Some {| kept := k |} ->
  Js.contains Js.LF k = false ->
  let e := snd (History.run (History.feed channelId chunks now) m) in
  map data (History.lineEntries e)
  = List.filter nonEmpty (fst (frame k (History.concatStrings chunks)))
  /\ Forall (fun e => direction e = Rx) (History.lineEntries e).
Proof.
  induction chunks as [|chunk chunks IH]; intros m channelId c p k now Hc Hp Hopen Hparser Hk.
  - simpl. done.
  - simpl.
    pose proof (portData_open m channelId c p k chunk now Hc Hp Hopen Hparser Hk) as H1.
    destruct (Manager.portData channelId chunk now m) as [m1 e1].
    destruct H1 as (Hd1 & Hr1 & c1 & Hc1 & Hp1 & Hparser1).
    pose proof (frame_no_LF chunk k Hk) as [_ Hk1].
    specialize (IH m1 channelId c1 p _ now Hc1 Hp1 Hopen Hparser1 Hk1).
    destruct (History.run (History.feed channelId chunks now) m1) as [m2 e2].
    simpl in *. destruct IH as [Hd2 Hr2].
    rewrite lineEntries_app, map_app, frame_app, Hd1, Hd2. simpl.
    rewrite List.filter_app.
    split; [done | by apply Forall_app].
Qed.

End Reading.

Section ReadingClaims.

Import ReadlineParser.

Lemma filter_nonEmpty_Forall (lines : list string) :
  Forall (fun l => l <> EmptyString) (List.filter nonEmpty lines).
Proof.
  induction lines as [|l lines IH]; simpl; [done|].
  destruct (nonEmpty l) eqn:Hl; [|done]. constructor; [|done].
  intros ->. discriminate.
Qed.

Lemma filter_Forall {A : Type} (P : A -> Prop) (f : A -> bool) (l : list A) :
  Forall P l -> Forall P (List.filter f l).
Proof.
  induction 1 as [|x l Hx Hl IH]; simpl; [done|].
  destruct (f x); [by constructor | done].
Qed.

Lemma isAscii_app (a b : string) :
  Observed.isAscii (a +:+ b) = Observed.isAscii a && Observed.isAscii b.
Proof.
  induction a as [|c a IH]; [done|].
  rewrite append_cons. simpl. rewrite IH. by rewrite andb_assoc.
Qed.

Lemma isAscii_concatStrings (chunks : list string) :
  Forall (fun chunk => Observed.isAscii chunk = true) chunks ->
  Observed.isAscii (History.concatStrings chunks) = true.
Proof.
  induction 1 as [|chunk chunks Hc _ IH]; [done|].
  simpl. by rewrite isAscii_app, Hc, IH.
Qed.

Lemma isAscii_terminated (lines : list string) (rest : string) :
  Observed.isAscii (History.terminated lines +:+ rest) = true ->
  Forall (fun l => Observed.isAscii l = true) lines.
Proof.
  induction lines as [|l lines IH]; intros H; [constructor|].
  simpl in H. rewrite !isAscii_app in H. rewrite isAscii_app in IH.
  change (Observed.isAscii (String Js.LF (History.terminated lines)))
    with (Observed.isAscii (History.terminated lines)) in H.
  apply andb_true_iff in H as [H Hr]. apply andb_true_iff in H as [Hl Ht].
  constructor; [done|]. apply IH. by rewrite Ht, Hr.
Qed.




End ReadingClaims.

(** ** The ring buffer *)

Section RingBuffer.

Lemma new_withinCap channelId : withinCap (Connection.new channelId).
Proof. split; simpl; [done | lia]. Qed.

Lemma addToBuffer_full entry c :
  MAX_BUFFER_LINES c <= Z.of_nat (length (buffer c)) ->
  buffer (Connection._addToBuffer entry c) = tail (buffer c) ++ [entry].
Proof.
  intros H. unfold Connection._addToBuffer. simpl.
  destruct (Z.geb_spec (Z.of_nat (length (buffer c))) (MAX_BUFFER_LINES c)); [done | lia].
Qed.

Lemma addToBuffer_room entry c :
  Z.of_nat (length (buffer c)) < MAX_BUFFER_LINES c ->
  buffer (Connection._addToBuffer entry c) = buffer c ++ [entry].
Proof.
  intros H. unfold Connection._addToBuffer. simpl.
  destruct (Z.geb_spec (Z.of_nat (length (buffer c))) (MAX_BUFFER_LINES c)); [lia | done].
Qed.

Lemma addToBuffer_withinCap entry c :
  withinCap c -> withinCap (Connection._addToBuffer entry c).
Proof.
  intros [Hmax Hlen]. split; [done|].
  destruct (Z.lt_ge_cases (Z.of_nat (length (buffer c))) (MAX_BUFFER_LINES c)) as [Hlt|Hge].
  - rewrite addToBuffer_room by done. rewrite length_app. simpl in *. lia.
  - rewrite addToBuffer_full by done. rewrite length_app. simpl.
    destruct (buffer c) as [|x l]; simpl in *; lia.
Qed.

Lemma store_allWithinCap channelId c m :
  withinCap c -> allWithinCap m -> allWithinCap (Manager.store channelId c m).
Proof. intros Hc Hm. unfold allWithinCap, Manager.store. simpl. by apply map_Forall_insert_2. Qed.

Lemma lookup_withinCap m channelId c :
  allWithinCap m -> connections m !! channelId = Some c -> withinCap c.
Proof. intros Hm Hc. exact (map_Forall_lookup_1 _ _ _ _ Hm Hc). Qed.

Lemma onLines_withinCap channelId now lines : forall k c,
  withinCap c -> withinCap (fst (Manager.onLines channelId now k lines c)).
Proof.
  induction lines as [|l lines IH]; intros k c Hc; simpl; [done|].
  match goal with |- context [Manager.onLines _ _ _ _ ?c1] =>
    specialize (IH (S k) c1); destruct (Manager.onLines channelId now (S k) lines c1)
  end.
  simpl in *. apply IH. apply addToBuffer_withinCap.
  destruct Hc as [H1 H2]. by split.
Qed.

Lemma getConnection_allWithinCap channelId m :
  allWithinCap m ->
  allWithinCap (snd (Manager.getConnection channelId m))
  /\ withinCap (fst (Manager.getConnection channelId m))
  /\ connections (snd (Manager.getConnection channelId m)) !! channelId
     = Some (fst (Manager.getConnection channelId m)).
Proof.
  intros Hm. unfold Manager.getConnection.
  destruct (connections m !! channelId) as [c|] eqn:Hc; simpl.
  - split; [done|]. split; [by eapply lookup_withinCap | done].
  - split; [apply store_allWithinCap; [apply new_withinCap | done]|].
    split; [apply new_withinCap | by rewrite lookup_insert_eq].
Qed.

Lemma disconnect_allWithinCap channelId m :
  allWithinCap m -> allWithinCap (fst (Manager.disconnect channelId m)).
Proof.
  intros Hm. unfold Manager.disconnect.
  destruct (connections m !! channelId) as [c|] eqn:Hc; [|done].
  pose proof (lookup_withinCap _ _ _ Hm Hc) as [H1 H2].
  destruct (_ || _); simpl; apply store_allWithinCap; try done; by split.
Qed.

Lemma step_allWithinCap m op :
  allWithinCap m -> allWithinCap (fst (History.step m op)).
Proof.
  intros Hm.
  destruct op as [ch | ch cfg oe t | ch | ch chunk t | ch msg | ch d md we t
                 | ch st cnt | ch | och | ch]; simpl.
  - by apply getConnection_allWithinCap.
  - unfold Manager.connect. destruct (serialportAvailable m); simpl; [|done].
    destruct (getConnection_allWithinCap ch m Hm) as (Hm1 & Hc1 & _).
    destruct (Manager.getConnection ch m) as [c1 m1]. simpl in *.
    assert (exists m2 e2, (if connected c1 then Manager.disconnect ch m1
                           else (m1, [])) = (m2, e2) /\ allWithinCap m2)
      as (m2 & e2 & -> & Hm2).
    { destruct (connected c1).
      - pose proof (disconnect_allWithinCap ch m1 Hm1).
        destruct (Manager.disconnect ch m1); eauto.
      - eauto. }
    assert (withinCap (default c1 (connections m2 !! ch))) as [H1 H2].
    { destruct (connections m2 !! ch) eqn:E; simpl; [|done].
      by eapply lookup_withinCap. }
    destruct oe; simpl; apply store_allWithinCap; try done; by split.
  - by apply disconnect_allWithinCap.
  - unfold Manager.portData.
    destruct (connections m !! ch) as [c|] eqn:Hc; [|done].
    destruct (port c) as [p|]; [|done]. destruct (isOpen p); [|done].
    pose proof (lookup_withinCap _ _ _ Hm Hc) as [H1 H2].
    unfold Manager.onPortData. simpl. destruct (parser c) as [q|]; simpl.
    + destruct (ReadlineParser.transform (kept q) chunk) as [lines rest].
      match goal with |- context [Manager.onLines _ _ _ _ ?c1] =>
        pose proof (onLines_withinCap ch t lines 0%nat c1) as Hl;
        destruct (Manager.onLines ch t 0 lines c1)
      end.
      simpl in *. apply store_allWithinCap; [|done]. apply Hl. by split.
    + apply store_allWithinCap; [|done]. by split.
  - unfold Manager.portError.
    destruct (connections m !! ch) as [c|] eqn:Hc; [|done].
    destruct (port c); [|done]. simpl.
    pose proof (lookup_withinCap _ _ _ Hm Hc) as [H1 H2].
    apply store_allWithinCap; [|done]. by split.
  - unfold Manager.send.
    destruct (connections m !! ch) as [c|] eqn:Hc; [|done].
    destruct (_ || _); [done|].
    pose proof (lookup_withinCap _ _ _ Hm Hc) as [H1 H2].
    unfold Manager.onWritten. destruct we; simpl.
    + apply store_allWithinCap; [|done]. by split.
    + apply store_allWithinCap; [|done]. apply addToBuffer_withinCap. by split.
  - unfold Manager.getBuffer.
    destruct (connections m !! ch); [|done]. by destruct cnt.
  - unfold Manager.clearBuffer.
    destruct (connections m !! ch) as [c|] eqn:Hc; [|done]. simpl.
    pose proof (lookup_withinCap _ _ _ Hm Hc) as [H1 H2].
    apply store_allWithinCap; [|done]. split; simpl; [done | lia].
  - unfold Manager.getStatus. destruct och as [i|]; [|done].
    destruct (negb _); [|done]. by destruct (connections m !! i).
  - unfold Manager.removeChannel.
    pose proof (disconnect_allWithinCap ch m Hm) as Hd.
    destruct (Manager.disconnect ch m) as [m1 e1]. simpl in *.
    unfold allWithinCap in *. simpl. by apply map_Forall_delete.
Qed.

Lemma run_allWithinCap ops : forall m,
  allWithinCap m -> allWithinCap (fst (History.run ops m)).
Proof.
  induction ops as [|op ops IH]; intros m Hm; simpl; [done|].
  pose proof (step_allWithinCap m op Hm) as H1.
  destruct (History.step m op) as [m1 e1]. specialize (IH m1 H1).
  destruct (History.run ops m1). done.
Qed.

End RingBuffer.

Section RingBufferClaims.

(** C8.  In every manager reached from a new one by any sequence of
    operations, every channel has the cap of 10,000,000 entries and a
    buffer within it.  An append to a buffer that has reached its cap
    drops exactly the first entry and puts the new one last; the entries
    that stay, and so their [index] fields, are the ones that were there.
    An append to a buffer below its cap drops nothing. *)
Theorem ring_buffer_is_capped_and_evicts_the_oldest :
  (forall (available : bool) (ops : list Op) (channelId : string)
          (c : SerialConnection),
      connections (fst (History.run ops (Manager.new available))) !! channelId
      = Some c ->
      MAX_BUFFER_LINES c = 10000000
      /\ Z.of_nat (length (buffer c)) <= 10000000)
  /\ (forall (c : SerialConnection) (entry oldest : LineEntry)
             (rest : list LineEntry),
      buffer c = oldest :: rest ->
      MAX_BUFFER_LINES c <= Z.of_nat (length (buffer c)) ->
      buffer (Connection._addToBuffer entry c) = rest ++ [entry]
      /\ map index (take (length rest) (buffer (Connection._addToBuffer entry c)))
         = map index rest)
  /\ (forall (c : SerialConnection) (entry : LineEntry),
      Z.of_nat (length (buffer c)) < MAX_BUFFER_LINES c ->
      buffer (Connection._addToBuffer entry c) = buffer c ++ [entry]).
Proof.
  split; [|split].
  - intros available ops channelId c Hc.
    assert (allWithinCap (Manager.new available)) as H0 by apply map_Forall_empty.
    pose proof (run_allWithinCap ops _ H0) as H.
    destruct (lookup_withinCap _ _ _ H Hc) as [H1 H2]. split; [done | lia].
  - intros c entry oldest rest Hb Hfull.
    rewrite addToBuffer_full by done. rewrite Hb. simpl. split; [done|].
    by rewrite take_app_length.
  - intros c entry Hroom. by apply addToBuffer_room.
Qed.

Lemma ring_buffer_is_capped_and_evicts_the_oldest_witness :
  (exists c, connections Examples.afterTwoLines !! "a" = Some c
     /\ MAX_BUFFER_LINES c = 10000000
     /\ Z.of_nat (length (buffer c)) <= 10000000)
  /\ buffer (Connection._addToBuffer (Examples.entry 7 "z") Examples.full)
     = [Examples.entry 6 "y"; Examples.entry 7 "z"].
Proof.
  destruct ring_buffer_is_capped_and_evicts_the_oldest as (H1 & H2 & _).
  split.
  - eexists. split; [vm_compute; reflexivity|].
    apply (H1 true
      (OpConnect "a" Examples.ttyUSB0 None 1000
         :: History.feed "a" Examples.splitTerminator Examples.clock) "a").
    vm_compute. reflexivity.
  - apply (H2 Examples.full (Examples.entry 7 "z") (Examples.entry 5 "x")
             [Examples.entry 6 "y"]); [reflexivity | simpl; lia].
Defined.

End RingBufferClaims.

(** ** Clearing, and channels that do not exist *)

Section Channels.

(** C7 (as amended).  [clearBuffer] on a channel empties its buffer and
    sets the next index to 0; the statistics, and the rest of the
    channel, stay; the other channels stay.  A second call changes
    nothing more.  [clearBuffer] emits no event: the [serial:cleared]
    broadcast is made by the handler of the WebSocket message
    [serial:clear], after its call of [clearBuffer]. *)
Theorem clearBuffer_empties_and_the_ws_handler_announces
    (m : SerialManager) (channelId : string) (c : SerialConnection) :
  connections m !! channelId = Some c ->
  let m' := fst (Manager.clearBuffer channelId m) in
  (exists c', connections m' !! channelId = Some c'
      /\ buffer c' = [] /\ bufferIndex c' = 0
      /\ bufferSize (Connection.getStatus c') = 0
      /\ stats c' = stats c
      /\ connected c' = connected c /\ config c' = config c
      /\ port c' = port c /\ parser c' = parser c)
  /\ (forall other, other <> channelId ->
        connections m' !! other = connections m !! other)
  /\ snd (Manager.clearBuffer channelId m) = []
  /\ Manager.clearBuffer channelId m' = (m', [])
  /\ (forall plugins w msgChannelId,
        Manager.orDefaultString msgChannelId "default" = channelId ->
        WsHandler.handleMessage plugins w msgChannelId SerialClear m
        = {| WsHandler.manager := m'; WsHandler.toSender := [];
             WsHandler.toAll := [SerialCleared channelId] |}).
Proof.
  intros Hc m'. subst m'. unfold Manager.clearBuffer. rewrite Hc. simpl.
  repeat split.
  - eexists. rewrite lookup_insert_eq. split; [done|]. by simpl.
  - intros other Hne. by rewrite lookup_insert_ne.
  - rewrite lookup_insert_eq. unfold Manager.store, Manager.setConnections.
    simpl. by rewrite insert_insert_eq.
  - intros plugins w msgChannelId Hid. unfold WsHandler.handleMessage.
    rewrite Hid. unfold Manager.clearBuffer. rewrite Hc. done.
Qed.

Lemma clearBuffer_empties_and_the_ws_handler_announces_witness :
  exists c', connections (fst (Manager.clearBuffer "a" Examples.afterTwoLines)) !! "a"
             = Some c'
    /\ buffer c' = [] /\ bufferIndex c' = 0.
Proof.
  destruct (clearBuffer_empties_and_the_ws_handler_announces
              Examples.afterTwoLines "a"
              (default (Connection.new "a")
                 (connections Examples.afterTwoLines !! "a")))
    as [(c' & H1 & H2 & H3 & _) _].
  - vm_compute. reflexivity.
  - exists c'. split; [exact H1 | split; [exact H2 | exact H3]].
Defined.

(** C7, the claim that [clearBuffer] publishes: on a channel with two
    buffered lines it emits nothing, and the REST route [POST /clear],
    which calls it, broadcasts nothing. *)
Lemma clearBuffer_publishes_nothing :
  snd (Manager.clearBuffer "a" Examples.afterTwoLines) = []
  /\ snd (ApiRoutes.postClear (Some "a") Examples.afterTwoLines) = []
  /\ ~ In (SerialCleared "a")
         (snd (ApiRoutes.postClear (Some "a") Examples.afterTwoLines)).
Proof. vm_compute. repeat split. intros []. Qed.

Lemma store_dom channelId c c' (cs : gmap string SerialConnection) :
  cs !! channelId = Some c ->
  dom (<[channelId := c']> cs) = dom cs.
Proof.
  intros Hc. rewrite dom_insert_L.
  apply subseteq_union_1_L, singleton_subseteq_l, elem_of_dom. eauto.
Qed.

Lemma disconnect_dom channelId m :
  dom (connections (fst (Manager.disconnect channelId m))) = dom (connections m).
Proof.
  unfold Manager.disconnect.
  destruct (connections m !! channelId) as [c|] eqn:Hc; [|done].
  destruct (_ || _); simpl; by rewrite (store_dom _ c).
Qed.

(** The operations that do not go through [getConnection] add no
    channel. *)
Lemma step_dom m op :
  callsGetConnection op = false ->
  dom (connections (fst (History.step m op))) ⊆ dom (connections m).
Proof.
  intros Hop.
  destruct op as [ch | ch cfg oe t | ch | ch chunk t | ch msg | ch d md we t
                 | ch st cnt | ch | och | ch]; try discriminate; simpl.
  - by rewrite disconnect_dom.
  - unfold Manager.portData.
    destruct (connections m !! ch) as [c|] eqn:Hc; [|done].
    destruct (port c) as [p|]; [|done]. destruct (isOpen p); [|done].
    destruct (Manager.onPortData ch chunk t c) as [c' e]. simpl.
    by rewrite (store_dom _ c).
  - unfold Manager.portError.
    destruct (connections m !! ch) as [c|] eqn:Hc; [|done].
    destruct (port c) as [p|]; [|done]. simpl. by rewrite (store_dom _ c).
  - unfold Manager.send.
    destruct (connections m !! ch) as [c|] eqn:Hc; [|done].
    destruct (_ || _); [done|].
    destruct (Manager.onWritten ch d md _ we t c) as [c' e]. simpl.
    by rewrite (store_dom _ c).
  - unfold Manager.getBuffer.
    destruct (connections m !! ch); [|done]. by destruct cnt.
  - unfold Manager.clearBuffer.
    destruct (connections m !! ch) as [c|] eqn:Hc; [|done]. simpl.
    by rewrite (store_dom _ c).
  - unfold Manager.getStatus. destruct och as [i|]; [|done].
    destruct (negb _); [|done]. by destruct (connections m !! i).
  - unfold Manager.removeChannel.
    pose proof (disconnect_dom ch m) as Hd.
    destruct (Manager.disconnect ch m) as [m1 e1]. simpl in *.
    rewrite dom_delete_L, Hd. by apply subseteq_difference_l.
Qed.

Lemma connect_creates m ch cfg oe t :
  serialportAvailable m = true ->
  is_Some (connections (snd (fst (Manager.connect ch cfg oe t m))) !! ch).
Proof.
  intros Havailable. unfold Manager.connect. rewrite Havailable. simpl.
  destruct (Manager.getConnection ch m) as [c1 m1].
  destruct (if connected c1 then Manager.disconnect ch m1 else (m1, []))
    as [m2 e2].
  destruct oe; simpl; rewrite lookup_insert_eq; eauto.
Qed.

(** C10.  For a channel id under which the manager has no channel:
    [getBuffer] returns the empty list, [getStatus] the default snapshot
    (not connected, no configuration, all statistics zero, buffer size 0),
    [clearBuffer] does nothing, and each leaves the manager as it was.
    No operation that does not go through [getConnection] adds a channel;
    [getConnection] adds a new closed channel under the id, and so does
    [connect], which calls it (when the serialport package is there). *)
Theorem absent_channel_is_created_by_getConnection_only
    (m : SerialManager) (channelId : string) :
  connections m !! channelId = None ->
  (forall start count, Manager.getBuffer channelId start count m = ([], m))
  /\ (channelId <> "" ->
      Manager.getStatus (Some channelId) m
      = (Manager.OneChannel
           {| statusChannelId := channelId; statusConnected := false;
              statusConfig := None;
              statusStats :=
                {| bytesRx := 0; bytesTx := 0; linesRx := 0; linesTx := 0;
                   errors := 0; connectedAt := None |};
              bufferSize := 0 |}, m))
  /\ Manager.clearBuffer channelId m = (m, [])
  /\ (forall op m0, callsGetConnection op = false ->
        dom (connections (fst (History.step m0 op))) ⊆ dom (connections m0))
  /\ connections (snd (Manager.getConnection channelId m))
     = <[channelId := Connection.new channelId]> (connections m)
  /\ (forall cfg oe t, serialportAvailable m = true ->
        is_Some (connections (snd (fst (Manager.connect channelId cfg oe t m)))
                   !! channelId)).
Proof.
  intros Hc. repeat split.
  - intros start count. unfold Manager.getBuffer. by rewrite Hc.
  - intros Hne. unfold Manager.getStatus.
    apply String.eqb_neq in Hne. rewrite Hne. simpl. by rewrite Hc.
  - unfold Manager.clearBuffer. by rewrite Hc.
  - intros op m0. apply step_dom.
  - unfold Manager.getConnection. by rewrite Hc.
  - intros cfg oe t. apply connect_creates.
Qed.

Lemma absent_channel_is_created_by_getConnection_only_witness :
  Manager.getBuffer "b" None None Examples.afterTwoLines
  = ([], Examples.afterTwoLines)
  /\ Manager.clearBuffer "b" Examples.afterTwoLines = (Examples.afterTwoLines, []).
Proof.
  destruct (absent_channel_is_created_by_getConnection_only
              Examples.afterTwoLines "b") as (H1 & _ & H3 & _).
  - vm_compute. reflexivity.
  - split; [apply H1 | exact H3].
Defined.

End Channels.

(** ** Sending *)

Section Sending.

Lemma send_closed channelId data mode we now m :
  (connections m !! channelId = None
   \/ exists c, connections m !! channelId = Some c
        /\ (port c = None \/ connected c = false)) ->
  Manager.send channelId data mode we now m = (Throw Manager.NOT_CONNECTED, m, []).
Proof.
  unfold Manager.send. intros [Hnone | (c & Hc & Hclosed)].
  - by rewrite Hnone.
  - rewrite Hc. destruct Hclosed as [Hp | Hconn].
    + rewrite Hp. done.
    + rewrite Hconn. by rewrite orb_true_r.
Qed.

Lemma send_open channelId data mode we now m c :
  connections m !! channelId = Some c ->
  is_Some (port c) -> connected c = true ->
  Manager.send channelId data mode we now m
  = (Ok (),
     Manager.store channelId
       (fst (Manager.onWritten channelId data mode (Encoding.encode mode data) we now c)) m,
     PortWrite channelId (Encoding.encode mode data)
       :: snd (Manager.onWritten channelId data mode (Encoding.encode mode data) we now c)).
Proof.
  intros Hc Hp Hconn. unfold Manager.send. rewrite Hc, Hconn.
  rewrite bool_decide_true by done. simpl.
  by destruct (Manager.onWritten _ _ _ _ _ _ _).
Qed.

(** C6.  [send] on a channel that does not exist, has no port or is not
    connected throws the not-connected error and changes nothing.  On a
    connected channel whose device write fails, [send] returns normally;
    the channel differs from the one before in [stats.errors] only, which
    is one more; the events emitted are the one [error] event: no line
    entry is made, the buffer, the next index, [bytesTx] and [linesTx]
    are as before. *)
Theorem send_throws_when_closed_and_reports_a_failed_write
    (m : SerialManager) (ch data mode : string) (now : Z) :
  (forall we,
      (connections m !! ch = None
       \/ exists c, connections m !! ch = Some c
            /\ (port c = None \/ connected c = false)) ->
      Manager.send ch data mode we now m
      = (Throw Manager.NOT_CONNECTED, m, []))
  /\ (forall c message,
      connections m !! ch = Some c ->
      is_Some (port c) -> connected c = true ->
      exists c',
        Manager.send ch data mode (Some message) now m
        = (Ok (), Manager.store ch c' m,
           [PortWrite ch (Encoding.encode mode data);
            Emit (EvError ch ("Send error: " +:+ message))])
        /\ errors (stats c') = errors (stats c) + 1
        /\ bytesTx (stats c') = bytesTx (stats c)
        /\ linesTx (stats c') = linesTx (stats c)
        /\ bytesRx (stats c') = bytesRx (stats c)
        /\ linesRx (stats c') = linesRx (stats c)
        /\ connectedAt (stats c') = connectedAt (stats c)
        /\ buffer c' = buffer c /\ bufferIndex c' = bufferIndex c
        /\ connected c' = connected c /\ config c' = config c
        /\ port c' = port c /\ parser c' = parser c
        /\ MAX_BUFFER_LINES c' = MAX_BUFFER_LINES c
        /\ channelId c' = channelId c).
Proof.
  split.
  - intros we. apply send_closed.
  - intros c message Hc Hp Hconn.
    exists (Connection.setStats (Connection.addErrors 1 (stats c)) c).
    rewrite (send_open _ _ _ _ _ _ c) by done. simpl. done.
Qed.

Lemma send_throws_when_closed_and_reports_a_failed_write_witness :
  Manager.send "a" "AT" "ascii" None 3000 (Manager.new true)
  = (Throw Manager.NOT_CONNECTED, Manager.new true, [])
  /\ exists c',
       Manager.send "a" "AT" "ascii" (Some "EIO") 3000 Examples.opened
       = (Ok (), Manager.store "a" c' Examples.opened,
          [PortWrite "a" (Encoding.encode "ascii" "AT");
           Emit (EvError "a" ("Send error: " +:+ "EIO"))])
       /\ errors (stats c') = 1.
Proof.
  destruct (send_throws_when_closed_and_reports_a_failed_write
              (Manager.new true) "a" "AT" "ascii" 3000) as [H1 _].
  destruct (send_throws_when_closed_and_reports_a_failed_write
              Examples.opened "a" "AT" "ascii" 3000) as [_ H2].
  split.
  - apply H1. left. vm_compute. reflexivity.
  - destruct (H2 (default (Connection.new "a") (connections Examples.opened !! "a"))
                "EIO") as (c' & Hs & He & _).
    + vm_compute. reflexivity.
    + vm_compute. eauto.
    + vm_compute. reflexivity.
    + exists c'. split; [exact Hs|]. rewrite He. vm_compute. reflexivity.
Defined.

End Sending.

(** ** Payload encodings *)

Section Encodings.

(** Induction on a string two characters at a time. *)
Lemma string_pair_ind (P : string -> Prop) :
  P EmptyString ->
  (forall a, P (String a EmptyString)) ->
  (forall a b rest, P rest -> P (String a (String b rest))) ->
  forall s, P s.
Proof.
  intros H0 H1 H2 s.
  assert (P s /\ forall a, P (String a s)) as [H _]; [|exact H].
  induction s as [|c s [IH1 IH2]]; [by split|].
  split; [apply IH2|]. intros a. by apply H2.
Qed.

Lemma hexPairs_fromHex (s : string) (bytes : list Z) :
  Payload.hexPairs s = Some bytes -> Buffer.fromHex s = bytes.
Proof.
  revert bytes. induction s as [| a | a b rest IH] using string_pair_ind;
    intros bytes H; simpl in *.
  - by injection H.
  - done.
  - destruct (Buffer.unhex a), (Buffer.unhex b); try done.
    destruct (Payload.hexPairs rest) as [bs|]; [|done].
    injection H as <-. by rewrite (IH bs).
Qed.

Lemma fromHex_prefix (s : string) :
  exists pre post, s = pre +:+ post
    /\ Payload.hexPairs pre = Some (Buffer.fromHex s)
    /\ Buffer.fromHex post = [].
Proof.
  induction s as [| a | a b rest (pre & post & Hs & Hpre & Hpost)]
    using string_pair_ind.
  - by exists EmptyString, EmptyString.
  - by exists EmptyString, (String a EmptyString).
  - simpl. destruct (Buffer.unhex a) as [hi|] eqn:Ha;
      [destruct (Buffer.unhex b) as [lo|] eqn:Hb|].
    + exists (String a (String b pre)), post. simpl.
      rewrite Ha, Hb, Hpre. split; [by rewrite Hs | done].
    + exists EmptyString, (String a (String b rest)). simpl.
      by rewrite Ha, Hb.
    + exists EmptyString, (String a (String b rest)). simpl.
      by rewrite Ha.
Qed.

Lemma stripWhiteSpace_clean (s : string) :
  Js.filterChars Js.isWhiteSpace (Js.stripWhiteSpace s) = EmptyString.
Proof.
  induction s as [|c s IH]; [done|]. unfold Js.stripWhiteSpace in *. simpl.
  destruct (Js.isWhiteSpace c) eqn:Hc; simpl; [done|]. by rewrite Hc.
Qed.




End Encodings.

Section Binary.

Lemma length_append (a b : string) :
  String.length (a +:+ b) = (String.length a + String.length b)%nat.
Proof.
  induction a as [|c a IH]; [done|]. rewrite append_cons. simpl. by rewrite IH.
Qed.

Lemma substring_skip (g rest : string) (n k : nat) :
  String.substring (String.length g + n) k (g +:+ rest) = String.substring n k rest.
Proof.
  induction g as [|c g IH]; [done|]. rewrite append_cons. simpl. exact IH.
Qed.

Lemma substring_prefix (g rest : string) :
  String.substring 0 (String.length g) (g +:+ rest) = g.
Proof.
  induction g as [|c g IH]; [by destruct rest|].
  rewrite append_cons. simpl. by rewrite IH.
Qed.

Lemma substring_all (s : string) (k : nat) :
  (String.length s <= k)%nat -> String.substring 0 k s = s.
Proof.
  revert k. induction s as [|c s IH]; intros k Hk; [by destruct k|].
  destruct k as [|k]; simpl in *; [lia|]. rewrite IH; [done | lia].
Qed.

(** Rounds beyond the end of the string push nothing: any two bounds
    that reach the end give the same bytes. *)
Lemma binaryLoop_fuel (bits : string) (fuel : nat) : forall (fuel' i : nat),
  (String.length bits <= i + 8 * fuel)%nat ->
  (String.length bits <= i + 8 * fuel')%nat ->
  Encoding.binaryLoop fuel i bits = Encoding.binaryLoop fuel' i bits.
Proof.
  induction fuel as [|fuel IH]; intros fuel' i H1 H2.
  - simpl. destruct fuel' as [|fuel']; [done|]. simpl.
    destruct (Nat.ltb_spec i (String.length bits)); [lia | done].
  - simpl. destruct (Nat.ltb_spec i (String.length bits)) as [Hlt|Hge].
    + destruct fuel' as [|fuel']; [lia|]. simpl.
      destruct (Nat.ltb_spec i (String.length bits)); [|lia].
      f_equal. apply IH; lia.
    + destruct fuel' as [|fuel']; [done|]. simpl.
      destruct (Nat.ltb_spec i (String.length bits)); [lia | done].
Qed.

(** The rounds after a group are the rounds on what follows it. *)
Lemma binaryLoop_skip (g rest : string) (fuel : nat) : forall i,
  Encoding.binaryLoop fuel (String.length g + i) (g +:+ rest)
  = Encoding.binaryLoop fuel i rest.
Proof.
  induction fuel as [|fuel IH]; intros i; [done|]. simpl.
  rewrite length_append.
  replace (String.length g + i <? String.length g + String.length rest)%nat
    with (i <? String.length rest)%nat
    by (destruct (Nat.ltb_spec i (String.length rest));
        destruct (Nat.ltb_spec (String.length g + i)
                    (String.length g + String.length rest)); lia).
  destruct (i <? String.length rest)%nat; [|done].
  unfold Js.substring.
  replace (String.length g + i + 8 - (String.length g + i))%nat with 8%nat by lia.
  replace (i + 8 - i)%nat with 8%nat by lia.
  rewrite substring_skip. f_equal.
  replace (String.length g + i + 8)%nat with (String.length g + (i + 8))%nat by lia.
  apply IH.
Qed.

Lemma bit_cases (c : ascii) :
  Ascii.eqb c "0" || Ascii.eqb c "1" = true -> c = "0"%char \/ c = "1"%char.
Proof.
  intros H. apply orb_true_iff in H as [H|H]; apply Ascii.eqb_eq in H; auto.
Qed.

Lemma msbFirst_bounds (s : string) :
  0 <= Payload.msbFirst s < 2 ^ Z.of_nat (String.length s).
Proof.
  induction s as [|c s IH]; simpl String.length; simpl Payload.msbFirst; [simpl; lia|].
  rewrite Nat2Z.inj_succ, Z.pow_succ_r by lia.
  unfold Payload.bit. destruct (Ascii.eqb c "1"); lia.
Qed.

Lemma digits_bits (s : string) : forall acc seen,
  Payload.isBitString s = true ->
  ParseInt.digits acc seen s
  = if seen || negb (String.eqb s "")
    then Some (acc * 2 ^ Z.of_nat (String.length s) + Payload.msbFirst s)
    else None.
Proof.
  induction s as [|c s IH]; intros acc seen Hs.
  - simpl. destruct seen; simpl; [f_equal; lia | done].
  - simpl in Hs. apply andb_true_iff in Hs as [Hc Hs].
    rewrite orb_true_r.
    simpl String.length. simpl Payload.msbFirst.
    rewrite Nat2Z.inj_succ, Z.pow_succ_r by lia.
    destruct (bit_cases c Hc) as [-> | ->].
    + change (ParseInt.digits acc seen (String "0" s))
        with (ParseInt.digits (2 * acc + 0) true s).
      rewrite (IH _ true Hs). simpl orb. cbv iota.
      change (Payload.bit "0") with 0. f_equal. lia.
    + change (ParseInt.digits acc seen (String "1" s))
        with (ParseInt.digits (2 * acc + 1) true s).
      rewrite (IH _ true Hs). simpl orb. cbv iota.
      change (Payload.bit "1") with 1. f_equal. lia.
Qed.

Lemma parseInt2_bits (s : string) :
  Payload.isBitString s = true -> s <> EmptyString ->
  ParseInt.parseInt2 s = Some (Payload.msbFirst s).
Proof.
  intros Hs Hne. destruct s as [|c s]; [done|].
  pose proof Hs as Hs'. simpl in Hs'. apply andb_true_iff in Hs' as [Hc _].
  assert (ParseInt.parseInt2 (String c s) = ParseInt.digits 0 false (String c s))
    as -> by (destruct (bit_cases c Hc) as [-> | ->]; reflexivity).
  rewrite digits_bits by done.
  change (false || negb (String.eqb (String c s) "")) with true. cbv iota.
  reflexivity.
Qed.

Lemma isBitString_app (a b : string) :
  Payload.isBitString (a +:+ b) = Payload.isBitString a && Payload.isBitString b.
Proof.
  induction a as [|c a IH]; [done|]. rewrite append_cons. simpl. rewrite IH.
  by rewrite andb_assoc.
Qed.

Lemma stripWhiteSpace_bits (s : string) :
  Payload.isBitString s = true -> Js.stripWhiteSpace s = s.
Proof.
  induction s as [|c s IH]; intros Hs; [done|].
  simpl in Hs. apply andb_true_iff in Hs as [Hc Hs].
  unfold Js.stripWhiteSpace in *. simpl.
  destruct (bit_cases c Hc) as [-> | ->]; simpl; by rewrite IH.
Qed.

Lemma toUint8_group (g : string) :
  (String.length g <= 8)%nat ->
  Buffer.toUint8 (Some (Payload.msbFirst g)) = Payload.msbFirst g.
Proof.
  intros Hg. simpl. apply Z.mod_small.
  pose proof (msbFirst_bounds g) as [H1 H2]. split; [done|].
  eapply Z.lt_le_trans; [exact H2|].
  change 256 with (2 ^ 8). apply Z.pow_le_mono_r; lia.
Qed.

End Binary.

Section BinaryClaims.

Lemma binaryLoop_first (bits : string) (fuel : nat) :
  bits <> EmptyString ->
  Encoding.binaryLoop (S fuel) 0 bits
  = ParseInt.parseInt2 (String.substring 0 8 bits) :: Encoding.binaryLoop fuel 8 bits.
Proof.
  intros Hne. destruct bits as [|c bits]; [done|]. reflexivity.
Qed.

(** C4 (as amended).  For a payload that, white space removed, is a
    string of the characters 0 and 1, mode [binary] gives one byte per
    group of eight characters, the first character of a group being the
    most significant bit.  A last group of fewer than eight characters
    gives the number that these characters denote: they are the low
    bits of the byte, and the missing high bits are zero.  These are the
    bytes that [send] hands to the device. *)
Theorem binary_send_packs_groups_of_eight_and_right_aligns_the_last
    (data : string) :
  let bits := Js.stripWhiteSpace data in
  Payload.isBitString bits = true ->
  (bits = EmptyString -> Encoding.binaryBytes data = [])
  /\ (forall g rest, bits = g +:+ rest -> String.length g = 8%nat ->
        Encoding.binaryBytes data = Payload.msbFirst g :: Encoding.binaryBytes rest)
  /\ ((0 < String.length bits < 8)%nat ->
        Encoding.binaryBytes data = [Payload.msbFirst bits]
        /\ 0 <= Payload.msbFirst bits < 2 ^ Z.of_nat (String.length bits))
  /\ (forall m ch c we now,
        connections m !! ch = Some c -> is_Some (port c) -> connected c = true ->
        History.written (snd (Manager.send ch data "binary" we now m))
        = [Encoding.binaryBytes data]).
Proof.
  intros bits Hbits. unfold Encoding.binaryBytes. fold bits.
  split; [|split; [|split]].
  - intros ->. done.
  - intros g rest Hsplit Hg.
    rewrite Hsplit in Hbits. rewrite isBitString_app in Hbits.
    apply andb_true_iff in Hbits as [Hbg Hbrest].
    rewrite (stripWhiteSpace_bits rest Hbrest).
    rewrite Hsplit, length_append, Hg. simpl Nat.add.
    rewrite binaryLoop_first by (destruct g; [done | by rewrite append_cons]).
    rewrite <- Hg at 1. rewrite substring_prefix.
    change 8%nat with (8 + 0)%nat at 1. rewrite <- Hg at 1.
    rewrite binaryLoop_skip.
    rewrite (binaryLoop_fuel rest _ (String.length rest) 0) by lia.
    simpl Buffer.fromArray.
    rewrite parseInt2_bits by (try done; by destruct g).
    rewrite toUint8_group by lia. done.
  - intros Hlen. split; [|apply msbFirst_bounds].
    destruct (String.length bits) as [|n] eqn:Hn; [lia|].
    rewrite binaryLoop_first by (by destruct bits).
    rewrite substring_all by lia.
    rewrite (binaryLoop_fuel bits n 0 8) by lia.
    simpl Buffer.fromArray.
    rewrite parseInt2_bits by (try done; by destruct bits).
    rewrite toUint8_group by lia. done.
  - intros m ch c we now Hc Hp Hconn.
    rewrite (send_open _ _ _ _ _ _ c) by done. simpl.
    unfold Manager.onWritten. by destruct we.
Qed.

Lemma binary_send_packs_groups_of_eight_and_right_aligns_the_last_witness :
  Encoding.binaryBytes "1000 0001 101" = 129 :: Encoding.binaryBytes "101"
  /\ Encoding.binaryBytes "101" = [5].
Proof.
  destruct (binary_send_packs_groups_of_eight_and_right_aligns_the_last
              "1000 0001 101") as (_ & H2 & _); [reflexivity|].
  destruct (binary_send_packs_groups_of_eight_and_right_aligns_the_last
              "101") as (_ & _ & H3 & _); [reflexivity|].
  split.
  - apply (H2 "10000001" "101"); reflexivity.
  - apply H3. simpl. lia.
Defined.

(** C4, the claim on the padding: the one-bit payload [1] is sent as the
    byte 0x01, not 0x80. *)
Lemma one_bit_is_sent_as_0x01 :
  Encoding.binaryBytes "1" = [1]
  /\ History.written (snd (Manager.send "a" "1" "binary" None 3000 Examples.opened))
     = [[1]]
  /\ Encoding.binaryBytes "1" <> [128].
Proof. vm_compute. repeat split. discriminate. Qed.

End BinaryClaims.

(** ** Decoders *)

Section Decoders.

Lemma decodeAll_app (before after : list Plugin) (data : list Z) :
  PluginLoader.decodeAll (before ++ after) data
  = (fst (PluginLoader.decodeAll before data) ++ fst (PluginLoader.decodeAll after data),
     snd (PluginLoader.decodeAll before data) ++ snd (PluginLoader.decodeAll after data)).
Proof.
  induction before as [|p before IH]; simpl.
  - by destruct (PluginLoader.decodeAll after data).
  - rewrite IH. destruct (PluginLoader.decodeAll before data) as [r c].
    by destruct (decode p data) as [[f|]|].
Qed.

Lemma decodeAll_calls (plugins : list Plugin) (data : list Z) :
  snd (PluginLoader.decodeAll plugins data) = map (fun p => (name p, data)) plugins.
Proof.
  induction plugins as [|p plugins IH]; simpl; [done|].
  destruct (PluginLoader.decodeAll plugins data) as [r c]. simpl in IH.
  destruct (decode p data) as [[f|]|]; simpl; by rewrite IH.
Qed.

Lemma decodeAll_nonempty (plugins : list Plugin) (data : list Z) :
  fst (PluginLoader.decodeAll plugins data) <> []
  <-> exists p r, p ∈ plugins /\ decode p data = Returned (Some r).
Proof.
  induction plugins as [|p plugins IH]; simpl.
  - split; [done|]. intros (p & r & Hp & _). by apply elem_of_nil in Hp.
  - destruct (PluginLoader.decodeAll plugins data) as [rs cs]. simpl in IH.
    destruct (decode p data) as [[f|]|] eqn:Hd; simpl.
    + split; [|done]. intros _. exists p, f. split; [apply elem_of_cons; by left | done].
    + rewrite IH. split.
      * intros (q & r & Hq & Hr). exists q, r. split; [apply elem_of_cons; by right | done].
      * intros (q & r & Hq & Hr). apply elem_of_cons in Hq as [-> | Hq];
          [congruence | by exists q, r].
    + rewrite IH. split.
      * intros (q & r & Hq & Hr). exists q, r. split; [apply elem_of_cons; by right | done].
      * intros (q & r & Hq & Hr). apply elem_of_cons in Hq as [-> | Hq];
          [congruence | by exists q, r].
Qed.

(** C9.  [decodeAll] calls every registered decoder, in registration
    order, each with the same bytes.  A decoder that returns a frame
    contributes that frame, with its name under [plugin], at its place
    between the results of the decoders before it and after it.  A
    decoder that throws or returns [null] contributes nothing, and the
    result is what the other decoders give without it. *)
Theorem decodeAll_collects_the_frames_in_registration_order
    (plugins : list Plugin) (data : list Z) :
  snd (PluginLoader.decodeAll plugins data) = map (fun p => (name p, data)) plugins
  /\ (forall before p after r,
        plugins = before ++ p :: after ->
        decode p data = Returned (Some r) ->
        fst (PluginLoader.decodeAll plugins data)
        = fst (PluginLoader.decodeAll before data)
            ++ {| plugin := name p; frame := r |}
            :: fst (PluginLoader.decodeAll after data))
  /\ (forall before p after,
        plugins = before ++ p :: after ->
        decode p data = Threw \/ decode p data = Returned None ->
        fst (PluginLoader.decodeAll plugins data)
        = fst (PluginLoader.decodeAll (before ++ after) data))
  /\ (forall d, d ∈ fst (PluginLoader.decodeAll plugins data) ->
        exists p, p ∈ plugins /\ plugin d = name p
                  /\ decode p data = Returned (Some (frame d))).
Proof.
  split; [apply decodeAll_calls|]. split; [|split].
  - intros before p after r -> Hd. rewrite decodeAll_app. simpl.
    destruct (PluginLoader.decodeAll after data). by rewrite Hd.
  - intros before p after -> Hd. rewrite !decodeAll_app. simpl.
    destruct (PluginLoader.decodeAll after data).
    by destruct Hd as [-> | ->].
  - induction plugins as [|p plugins IH]; simpl.
    + intros d Hd. by apply elem_of_nil in Hd.
    + destruct (PluginLoader.decodeAll plugins data) as [rs cs]. simpl in IH.
      assert (forall d, d ∈ rs -> exists q, q ∈ p :: plugins /\ plugin d = name q
                /\ decode q data = Returned (Some (frame d))) as Hrest.
      { intros d Hd. destruct (IH d Hd) as (q & Hq & H1 & H2).
        exists q. split; [apply elem_of_cons; by right | done]. }
      destruct (decode p data) as [[f|]|] eqn:Hd; simpl; [|done..].
      intros d Hin. apply elem_of_cons in Hin as [-> | Hin]; [|by apply Hrest].
      exists p. split; [apply elem_of_cons; by left | done].
Qed.

Lemma decodeAll_collects_the_frames_in_registration_order_witness :
  map plugin (fst (PluginLoader.decodeAll Examples.registry Examples.holdingRegisters))
  = ["Modbus RTU"]
  /\ fst (PluginLoader.decodeAll Examples.registry Examples.holdingRegisters)
     = fst (PluginLoader.decodeAll [Modbus.plugin; Examples.silent]
              Examples.holdingRegisters).
Proof.
  destruct (decodeAll_collects_the_frames_in_registration_order
              Examples.registry Examples.holdingRegisters) as (_ & H2 & H3 & _).
  split.
  - rewrite (H2 [Examples.faulty] Modbus.plugin [Examples.silent]
               (default {| protocol := ""; fields := []; display := "" |}
                  (Modbus.decodeFrame Examples.holdingRegisters)));
      [reflexivity | reflexivity | vm_compute; reflexivity].
  - apply (H3 [] Examples.faulty [Modbus.plugin; Examples.silent]);
      [reflexivity | left; reflexivity].
Defined.

(** C2 (as amended).  The [serial:data] message for a line entry carries
    [decoded] exactly when at least one registered decoder returns a
    frame for the bytes of the entry's text, and then [decoded] is the
    result of [decodeAll]; this is so for every entry, rx or tx.  The
    entry that a successful [send] records is a tx entry, and it is
    broadcast through the same listener. *)
Theorem line_broadcast_carries_decoded_when_a_decoder_returns_a_frame
    (plugins : list Plugin) (ch : string) (entry : LineEntry) :
  let bytes := Buffer.fromUtf8 (data entry) in
  let frames := fst (PluginLoader.decodeAll plugins bytes) in
  (frames <> [] <-> exists p r, p ∈ plugins /\ decode p bytes = Returned (Some r))
  /\ (frames = [] -> WsHandler.onLine plugins ch entry = SerialData ch entry None)
  /\ (frames <> [] ->
      WsHandler.onLine plugins ch entry = SerialData ch entry (Some frames))
  /\ (forall m c w text msgMode mode,
        connections m !! ch = Some c -> is_Some (port c) -> connected c = true ->
        ch <> "" -> Manager.orDefaultString msgMode "ascii" = mode ->
        writeError w = None ->
        WsHandler.toAll
          (WsHandler.handleMessage plugins w (Some ch) (SerialSend text msgMode) m)
        = [WsHandler.onLine plugins ch
             {| timestamp := now w; direction := Tx; data := text;
                mode := Some mode; index := bufferIndex c;
                entryChannelId := ch |}]).
Proof.
  intros bytes frames. split; [apply decodeAll_nonempty|]. split; [|split].
  - intros H. unfold WsHandler.onLine. fold bytes. fold frames. by rewrite H.
  - intros H. unfold WsHandler.onLine. fold bytes. fold frames.
    by destruct frames.
  - intros m c w text msgMode md Hc Hp Hconn Hne Hmode Hw.
    unfold WsHandler.handleMessage. simpl Manager.orDefaultString at 1.
    apply String.eqb_neq in Hne. rewrite Hne, Hmode.
    rewrite (send_open _ _ _ _ _ _ c) by done.
    rewrite Hw. reflexivity.
Qed.

Lemma line_broadcast_carries_decoded_when_a_decoder_returns_a_frame_witness :
  exists decoded,
    WsHandler.onLine Examples.registry "a"
      {| timestamp := 0; direction := Rx;
         data := String (ascii_of_nat 1) (String (ascii_of_nat 3) "rest");
         mode := None; index := 0; entryChannelId := "a" |}
    = SerialData "a"
        {| timestamp := 0; direction := Rx;
           data := String (ascii_of_nat 1) (String (ascii_of_nat 3) "rest");
           mode := None; index := 0; entryChannelId := "a" |}
        (Some decoded).
Proof.
  destruct (line_broadcast_carries_decoded_when_a_decoder_returns_a_frame
              Examples.registry "a"
              {| timestamp := 0; direction := Rx;
                 data := String (ascii_of_nat 1) (String (ascii_of_nat 3) "rest");
                 mode := None; index := 0; entryChannelId := "a" |})
    as (_ & _ & H & _).
  eexists. apply H. vm_compute. discriminate.
Defined.

(** C2, the claim on tx entries: the text sent on channel [a] is
    broadcast as a tx entry with the frame that the Modbus decoder makes
    of its bytes. *)
Lemma tx_entry_is_broadcast_with_decoded :
  exists entry frames,
    WsHandler.toAll
      (WsHandler.handleMessage Examples.registry (Examples.calm 0) (Some "a")
         (SerialSend Examples.accented (Some "ascii")) Examples.opened)
    = [SerialData "a" entry (Some frames)]
    /\ direction entry = Tx
    /\ map plugin frames = ["Modbus RTU"].
Proof. vm_compute. eexists _, _. repeat split. Qed.

End Decoders.

(** ** Macros *)

Section Macros.

Import MacroEngine.

Lemma prefix_app (pat rest : string) : String.prefix pat (pat +:+ rest) = true.
Proof.
  induction pat as [|c pat IH]; [by destruct rest|].
  rewrite append_cons. simpl. by destruct (ascii_dec c c).
Qed.

(** The characters of a match are passed over. *)
Lemma replaceAll_skip (t pat value rest : string) :
  replaceAll (String.length t) pat value (t +:+ rest) = replaceAll 0 pat value rest.
Proof.
  induction t as [|c t IH]; [done|]. rewrite append_cons. simpl. exact IH.
Qed.

Lemma replaceAll_absent (pat value s : string) :
  Trace.occurs pat s = false -> replaceAll 0 pat value s = s.
Proof.
  induction s as [|c s IH]; intros H; [done|].
  change (Trace.occurs pat (String c s))
    with (String.prefix pat (String c s) || Trace.occurs pat s) in H.
  apply orb_false_iff in H as [H1 H2].
  change (replaceAll 0 pat value (String c s))
    with (if String.prefix pat (String c s)
          then value +:+ replaceAll (String.length pat - 1) pat value s
          else String c (replaceAll 0 pat value s)).
  rewrite H1, IH; done.
Qed.

Lemma replaceAll_placeholder (key value pre post : string) :
  Js.contains "{" pre = false ->
  replaceAll 0 (placeholder key) value (pre +:+ placeholder key +:+ post)
  = pre +:+ value +:+ replaceAll 0 (placeholder key) value post.
Proof.
  intros Hpre. induction pre as [|c pre IH].
  - rewrite !append_nil_l.
    change (placeholder key) with (String "{" (String "{" (key +:+ "}}"))) at 2.
    rewrite append_cons.
    change (replaceAll 0 ?p value (String ?a ?s))
      with (if String.prefix p (String a s)
            then value +:+ replaceAll (String.length p - 1) p value s
            else String a (replaceAll 0 p value s)).
    rewrite <- append_cons.
    change (String "{" (String "{" (key +:+ "}}"))) with (placeholder key).
    rewrite prefix_app.
    change (String.length (placeholder key) - 1)%nat
      with (String.length (String "{" (key +:+ "}}"))).
    by rewrite replaceAll_skip.
  - simpl in Hpre. apply orb_false_iff in Hpre as [Hc Hpre].
    rewrite !append_cons.
    change (replaceAll 0 ?p value (String ?a ?s))
      with (if String.prefix p (String a s)
            then value +:+ replaceAll (String.length p - 1) p value s
            else String a (replaceAll 0 p value s)).
    assert (String.prefix (placeholder key)
              (String c (pre +:+ placeholder key +:+ post)) = false) as ->.
    { change (placeholder key) with (String "{" (String "{" (key +:+ "}}"))) at 1.
      change (String.prefix (String "{" ?p) (String c ?s))
        with (match ascii_dec "{" c with
              | left _ => String.prefix p s
              | right _ => false
              end).
      destruct (ascii_dec "{" c) as [<-|]; [|done].
      rewrite Ascii.eqb_refl in Hc. discriminate. }
    by rewrite IH.
Qed.

Lemma send_linked channelId data mode we now m :
  Trace.linked channelId m ->
  exists m' e,
    Manager.send channelId data mode we now m = (Ok (), m', e)
    /\ Trace.linked channelId m'.
Proof.
  intros (c & Hc & Hp & Hconn).
  rewrite (send_open _ _ _ _ _ _ c) by done.
  eexists _, _. split; [reflexivity|].
  eexists. simpl. rewrite lookup_insert_eq. split; [reflexivity|].
  unfold Manager.onWritten. by destruct we.
Qed.

Lemma goesThrough_ret channelId : Trace.goesThrough channelId (ret ()) [] 0.
Proof.
  intros s Hs. exists s. split; [done|]. split; [done|].
  split; [by rewrite app_nil_r | lia].
Qed.

Lemma goesThrough_bind channelId c1 c2 a1 a2 k1 k2 :
  Trace.goesThrough channelId c1 a1 k1 -> Trace.goesThrough channelId c2 a2 k2 ->
  Trace.goesThrough channelId (c1 >>> c2) (a1 ++ a2) (k1 + k2).
Proof.
  intros H1 H2 s Hs. destruct (H1 s Hs) as (s1 & E1 & L1 & A1 & N1).
  destruct (H2 s1 L1) as (s2 & E2 & L2 & A2 & N2).
  exists s2. unfold bind. rewrite E1, E2. split; [done|]. split; [done|].
  split; [by rewrite A2, A1, app_assoc | lia].
Qed.

Lemma goesThrough_callSend world channelId data mode :
  Trace.goesThrough channelId (callSend world channelId data mode)
    [Sent channelId data mode] 1.
Proof.
  intros s Hs. unfold callSend.
  destruct (send_linked channelId data mode (writeError (world (sends s)))
              (now (world (sends s))) (mgr s) Hs) as (m' & e & -> & Hl).
  eexists. split; [reflexivity|]. simpl. split; [done|]. split; [done | lia].
Qed.

Lemma goesThrough_sleep channelId ms : Trace.goesThrough channelId (sleep ms) [Slept ms] 0.
Proof.
  intros s Hs. eexists. split; [reflexivity|]. simpl.
  split; [done|]. split; [done | lia].
Qed.

Lemma goesThrough_runCommand world entries channelId cmd :
  Trace.goesThrough channelId (runCommand world entries channelId cmd)
    (Trace.ofCommand entries channelId cmd) 1.
Proof.
  unfold runCommand, Trace.ofCommand.
  change (Sent channelId ?d ?m :: ?rest) with ([Sent channelId d m] ++ rest).
  change 1%nat with (1 + 0)%nat.
  apply goesThrough_bind; [apply goesThrough_callSend|].
  destruct (delayMs cmd) as [d|]; [|apply goesThrough_ret].
  destruct (0 <? d); [apply goesThrough_sleep | apply goesThrough_ret].
Qed.

Lemma goesThrough_runCommands world entries channelId cmds :
  Trace.goesThrough channelId (runCommands world entries channelId cmds)
    (Trace.ofCommands entries channelId cmds) (length cmds).
Proof.
  induction cmds as [|cmd cmds IH]; [apply goesThrough_ret|].
  change (length (cmd :: cmds)) with (1 + length cmds)%nat.
  apply goesThrough_bind; [apply goesThrough_runCommand | exact IH].
Qed.

Lemma goesThrough_iterate channelId body once k n :
  Trace.goesThrough channelId body once k ->
  Trace.goesThrough channelId (iterate n body) (concat (replicate n once)) (n * k).
Proof.
  intros Hbody. induction n as [|n IH]; [apply goesThrough_ret|].
  apply goesThrough_bind; [exact Hbody | exact IH].
Qed.

End Macros.

Section MacroClaims.

Import MacroEngine.

Lemma ofCommands_snoc entries channelId init cmd :
  Trace.ofCommands entries channelId (init ++ [cmd])
  = Trace.ofCommands entries channelId init ++ Trace.ofCommand entries channelId cmd.
Proof.
  unfold Trace.ofCommands. rewrite map_app, concat_app. simpl.
  by rewrite app_nil_r.
Qed.

Lemma last_of_passes (n : nat) (once : list Action) (a : Action) :
  (0 < n)%nat -> last once = Some a -> last (concat (replicate n once)) = Some a.
Proof.
  intros Hn Hlast. destruct n as [|n]; [lia|].
  rewrite replicate_S_end, concat_app. simpl. rewrite app_nil_r.
  destruct once as [|x once _] using rev_ind; [done|].
  rewrite app_assoc, last_snoc. by rewrite last_snoc in Hlast.
Qed.

Lemma replaceAll_first (key value pre post : string) :
  Injection.startsIn (placeholder key) pre (placeholder key +:+ post) = false ->
  replaceAll 0 (placeholder key) value (pre +:+ placeholder key +:+ post)
  = pre +:+ value +:+ replaceAll 0 (placeholder key) value post.
Proof.
  intros Hpre. induction pre as [|c pre IH].
  - apply replaceAll_placeholder. done.
  - change (Injection.startsIn ?p (String c pre) ?r)
      with (String.prefix p (String c pre +:+ r) || Injection.startsIn p pre r)
      in Hpre.
    apply orb_false_iff in Hpre as [Hc Hpre].
    rewrite !append_cons.
    change (replaceAll 0 ?p value (String ?a ?s))
      with (if String.prefix p (String a s)
            then value +:+ replaceAll (String.length p - 1) p value s
            else String a (replaceAll 0 p value s)).
    rewrite append_cons in Hc. rewrite Hc. by rewrite IH.
Qed.

Lemma inject_absent (entries : list (string * string)) (data : string) :
  Forall (fun entry => Trace.occurs (placeholder (fst entry)) data = false)
    entries ->
  inject entries data = data.
Proof.
  induction 1 as [|[key value] entries Hk _ IH]; [done|].
  simpl. simpl in Hk. by rewrite (replaceAll_absent _ _ _ Hk).
Qed.

Lemma inject_app (first second : list (string * string)) (data : string) :
  inject (first ++ second) data = inject second (inject first data).
Proof.
  revert data. induction first as [|[key value] first IH]; intros data; [done|].
  simpl. apply IH.
Qed.

(** X29.  On a connected channel, with keys that a RegExp takes literally
    and values without [$], [run] goes through [repeatCount] passes (one if
    the count is 0 or absent) over the commands in order.  For each command
    it calls [send] with the data, in which the entries of [paramValues]
    have been injected one after the other, and with the command's mode,
    and then, if the command has a delay above 0, suspends for that delay.
    Data in which the placeholder of no entry occurs is sent as it is;
    injecting one entry replaces the first occurrence of its placeholder,
    whatever stands before it, by the value, and goes on behind it; the
    entries are injected in their order, each into the result of the one
    before. *)
Theorem run_sends_each_command_and_then_sleeps
    (macros : list Macro) (world : nat -> World) (macroId : string)
    (macro : Macro) (entries : list (string * string)) (ch : string)
    (m : SerialManager) :
  findMacro macros macroId = Some macro ->
  Trace.linked ch m ->
  Injection.plain entries ->
  let n := Z.to_nat (Manager.orDefaultZ (repeatCount macro) 1) in
  (exists s',
      run macros world macroId (Some entries) (Some ch) (start m) = (Ok (), s')
      /\ actions s'
         = concat (replicate n (Trace.ofCommands entries ch (commands macro)))
      /\ sends s' = (n * length (commands macro))%nat)
  /\ (forall data,
        Forall (fun entry =>
                  Trace.occurs (placeholder (fst entry)) data = false) entries ->
        inject entries data = data)
  /\ (forall key value pre post,
        Injection.literalKey key = true -> Injection.plainValue value = true ->
        Injection.startsIn (placeholder key) pre (placeholder key +:+ post)
        = false ->
        inject [(key, value)] (pre +:+ placeholder key +:+ post)
        = pre +:+ value +:+ inject [(key, value)] post)
  /\ (forall first second data,
        entries = first ++ second ->
        inject entries data = inject second (inject first data)).
Proof.
  intros Hfind Hlinked Hplain n. split; [|split; [|split]].
  - unfold run. simpl. rewrite Hfind. fold n.
    destruct (goesThrough_iterate ch _ _ _ n
                (goesThrough_runCommands world entries ch (commands macro))
                (start m) Hlinked) as (s' & Hrun & _ & Hact & Hsends).
    exists s'. split; [exact Hrun|]. split; [exact Hact | exact Hsends].
  - intros data. apply inject_absent.
  - intros key value pre post _ _ Hpre. simpl. by apply replaceAll_first.
  - intros first second data ->. apply inject_app.
Qed.

Lemma run_sends_each_command_and_then_sleeps_witness :
  exists s',
    run [Examples.setGoMacro] Examples.calm "m2" (Some [("x", "42")]) (Some "a")
      (start Examples.opened) = (Ok (), s')
    /\ actions s'
       = [Sent "a" "SET 42" "ascii"; Slept 10; Sent "a" "GO" "ascii";
          Sent "a" "SET 42" "ascii"; Slept 10; Sent "a" "GO" "ascii"].
Proof.
  destruct (run_sends_each_command_and_then_sleeps
              [Examples.setGoMacro] Examples.calm "m2" Examples.setGoMacro
              [("x", "42")] "a" Examples.opened)
    as [(s' & Hrun & Hact & _) _].
  - reflexivity.
  - eexists. split; [vm_compute; reflexivity|]. split; [vm_compute; eauto | reflexivity].
  - constructor; [split; reflexivity | constructor].
  - exists s'. split; [exact Hrun|]. rewrite Hact. vm_compute. reflexivity.
Defined.

(** C5, at the failing input: a macro whose only command is [GO] with a
    delay of 10, run once on a connected channel.  The claim has no
    suspension after the final command of the final iteration, and the
    comment in [run] announces a delay between commands; [run] calls [send]
    and then suspends for 10, so that the suspension, not the [send], is
    the last thing it does. *)
Lemma run_sleeps_after_the_final_command :
  actions
    (snd (run [Examples.goMacro] Examples.calm "m1" None (Some "a")
            (start Examples.opened)))
  = [Sent "a" "GO" "ascii"; Slept 10]
  /\ last (actions
             (snd (run [Examples.goMacro] Examples.calm "m1" None (Some "a")
                     (start Examples.opened))))
     <> Some (Sent "a" "GO" "ascii").
Proof. vm_compute. split; [reflexivity | discriminate]. Qed.

End MacroClaims.

(** ** What the manager keeps true of every channel *)

Section WellFormed.

Import Channel.

Lemma new_wellFormed k : wellFormed k (Connection.new k).
Proof.
  by split.
Qed.

Lemma addToBuffer_Forall (P : LineEntry -> Prop) entry c :
  Forall P (buffer c) -> P entry ->
  Forall P (buffer (Connection._addToBuffer entry c)).
Proof.
  intros Hb He. unfold Connection._addToBuffer. simpl.
  apply Forall_app. split; [|by constructor].
  destruct (_ >=? _); [|done]. destruct (buffer c); [done|].
  by inversion Hb.
Qed.

(** The entry that takes the next index goes behind the entries with the
    indices before it, whether or not the oldest is dropped. *)
Lemma addToBuffer_indexed entry c :
  (forall i e, buffer c !! i = Some e ->
     index e = bufferIndex c - Z.of_nat (length (buffer c)) + Z.of_nat i) ->
  Z.of_nat (length (buffer c)) <= bufferIndex c ->
  index entry = bufferIndex c ->
  let c' := Connection._addToBuffer entry
              (Connection.setBufferIndex (bufferIndex c + 1) c) in
  (forall i e, buffer c' !! i = Some e ->
     index e = bufferIndex c' - Z.of_nat (length (buffer c')) + Z.of_nat i)
  /\ Z.of_nat (length (buffer c')) <= bufferIndex c'.
Proof.
  intros Hidx Hcount Hentry c'. subst c'.
  unfold Connection._addToBuffer. simpl.
  destruct (_ >=? _).
  - destruct (buffer c) as [|x l] eqn:Hb; simpl in *.
    + split; [|lia]. intros [|i] e H; simpl in H; [|done].
      injection H as <-. lia.
    + rewrite length_app. simpl. split; [|lia].
      intros i e H. apply lookup_app_Some in H as [H | [Hge H]].
      * specialize (Hidx (S i) e H). lia.
      * destruct (i - length l)%nat as [|j] eqn:Hj; simpl in H; [|done].
        injection H as <-. lia.
  - rewrite length_app. simpl. split; [|lia].
    intros i e H. apply lookup_app_Some in H as [H | [Hge H]].
    + specialize (Hidx i e H). lia.
    + destruct (i - length (buffer c))%nat as [|j] eqn:Hj; simpl in H; [|done].
      injection H as <-. lia.
Qed.

Lemma onLine_wellFormed k now line c :
  wellFormed k c -> wellFormed k (fst (Manager.onLine k now line c)).
Proof.
  intros [H1 H2 H3 H4 H5 H6 H7]. unfold Manager.onLine.
  set (entry := {| timestamp := now; direction := Rx; data := line; mode := None;
                   index := bufferIndex c; entryChannelId := k |}).
  destruct (addToBuffer_indexed entry c H4 H5 eq_refl) as [H4' H5'].
  split; try done.
  - by apply (addToBuffer_Forall (fun e => entryChannelId e = k)).
  - by apply (addToBuffer_Forall
                (fun e => match direction e with
                          | Tx => is_Some (mode e) | Rx => mode e = None end)).
Qed.

Lemma onLines_wellFormed k now lines : forall n c,
  wellFormed k c -> wellFormed k (fst (Manager.onLines k now n lines c)).
Proof.
  induction lines as [|l lines IH]; intros n c Hc; simpl; [done|].
  pose proof (onLine_wellFormed k (now n) l c Hc) as H1.
  unfold Manager.onLine in H1. simpl in H1.
  match goal with |- context [Manager.onLines _ _ _ _ ?c1] =>
    specialize (IH (S n) c1 H1); destruct (Manager.onLines k now (S n) lines c1)
  end.
  done.
Qed.

Lemma onPortData_wellFormed k chunk now c :
  wellFormed k c -> connected c = true ->
  wellFormed k (fst (Manager.onPortData k chunk now c)).
Proof.
  intros Hc Hconn. pose proof Hc as [H1 H2 H3 H4 H5 H6 H7].
  destruct (H6 Hconn) as (Hp & Hcfg & q & Hq & Hkept).
  unfold Manager.onPortData. simpl. rewrite Hq.
  unfold ReadlineParser.transform.
  pose proof (frame_no_LF (kept q +:+ chunk) EmptyString eq_refl) as [_ Hrest].
  destruct (ReadlineParser.frame EmptyString (kept q +:+ chunk)) as [pushed rest].
  simpl in Hrest.
  match goal with |- context [Manager.onLines _ _ _ _ ?c1] =>
    pose proof (onLines_wellFormed k now (List.filter ReadlineParser.nonEmpty pushed)
                  0%nat c1) as Hl;
    destruct (Manager.onLines k now 0 (List.filter ReadlineParser.nonEmpty pushed) c1)
  end.
  simpl in *. apply Hl. split; simpl; try done.
  - intros _. split; [done|]. split; [done|]. by eexists.
  - intros Hf. congruence.
Qed.

Lemma onWritten_wellFormed k text md bytes we now c :
  wellFormed k c -> wellFormed k (fst (Manager.onWritten k text md bytes we now c)).
Proof.
  intros [H1 H2 H3 H4 H5 H6 H7]. unfold Manager.onWritten.
  destruct we as [msg|]; simpl; [by split|].
  set (entry := {| timestamp := now; direction := Tx; data := text; mode := Some md;
                   index := bufferIndex c; entryChannelId := k |}).
  destruct (addToBuffer_indexed entry c H4 H5 eq_refl) as [H4' H5'].
  split; try done.
  - by apply (addToBuffer_Forall (fun e => entryChannelId e = k)).
  - apply (addToBuffer_Forall
             (fun e => match direction e with
                       | Tx => is_Some (mode e) | Rx => mode e = None end));
      [done | by eexists].
Qed.

Lemma store_allWellFormed k c m :
  wellFormed k c -> allWellFormed m -> allWellFormed (Manager.store k c m).
Proof.
  intros Hc Hm. unfold allWellFormed, Manager.store. simpl.
  by apply map_Forall_insert_2.
Qed.

Lemma lookup_wellFormed m k c :
  allWellFormed m -> connections m !! k = Some c -> wellFormed k c.
Proof. intros Hm Hc. exact (map_Forall_lookup_1 _ _ _ _ Hm Hc). Qed.

Lemma closed_wellFormed k c :
  wellFormed k c ->
  wellFormed k
    (Connection.setConfig None
       (Connection.setParser None
          (Connection.setPort None (Connection.setConnected false c)))).
Proof.
  intros [H1 H2 H3 H4 H5 H6 H7]. split; simpl; try done.
Qed.

Lemma disconnect_allWellFormed k m :
  allWellFormed m -> allWellFormed (fst (Manager.disconnect k m)).
Proof.
  intros Hm. unfold Manager.disconnect.
  destruct (connections m !! k) as [c|] eqn:Hc; [|done].
  pose proof (lookup_wellFormed _ _ _ Hm Hc) as Hwf.
  destruct (negb (bool_decide (is_Some (port c))) || negb (connected c)) eqn:Hb; simpl.
  - apply store_allWellFormed; [|done].
    destruct Hwf as [H1 H2 H3 H4 H5 H6 H7].
    destruct (connected c) eqn:Hconn.
    + destruct (H6 eq_refl) as (Hp & _). rewrite Hp in Hb. done.
    + split; simpl; try done.
  - apply store_allWellFormed; [|done]. by apply closed_wellFormed.
Qed.

Lemma getConnection_allWellFormed k m :
  allWellFormed m ->
  allWellFormed (snd (Manager.getConnection k m))
  /\ wellFormed k (fst (Manager.getConnection k m))
  /\ connections (snd (Manager.getConnection k m)) !! k
     = Some (fst (Manager.getConnection k m)).
Proof.
  intros Hm. unfold Manager.getConnection.
  destruct (connections m !! k) as [c|] eqn:Hc; simpl.
  - split; [done|]. split; [by eapply lookup_wellFormed | done].
  - split; [apply store_allWellFormed; [apply new_wellFormed | done]|].
    split; [apply new_wellFormed | by rewrite lookup_insert_eq].
Qed.

(** Before [connect] makes its port, the channel is closed. *)
Lemma connect_closes_first k c1 m1 :
  allWellFormed m1 -> connections m1 !! k = Some c1 ->
  exists m2 e2 c2,
    (if connected c1 then Manager.disconnect k m1 else (m1, [])) = (m2, e2)
    /\ default c1 (connections m2 !! k) = c2
    /\ allWellFormed m2 /\ wellFormed k c2 /\ connected c2 = false
    /\ buffer c2 = buffer c1 /\ bufferIndex c2 = bufferIndex c1
    /\ stats c2 = stats c1
    /\ e2 = (if connected c1 then [Emit (EvDisconnected k)] else [])
    /\ connections m2 = <[k := c2]> (connections m1).
Proof.
  intros Hm Hc. pose proof (lookup_wellFormed _ _ _ Hm Hc) as Hwf.
  destruct (connected c1) eqn:Hconn.
  - destruct (wf_open _ _ Hwf Hconn) as (Hp & _).
    unfold Manager.disconnect. rewrite Hc, Hp, Hconn. simpl.
    eexists _, _, _. split; [reflexivity|]. simpl. rewrite lookup_insert_eq. simpl.
    split; [reflexivity|].
    split; [apply store_allWellFormed; [by apply closed_wellFormed | done]|].
    split; [by apply closed_wellFormed|]. done.
  - exists m1, [], c1. rewrite Hc. simpl.
    split; [done|]. split; [done|]. split; [done|]. split; [done|].
    split; [done|]. split; [done|]. split; [done|]. split; [done|].
    split; [done|]. by rewrite insert_id.
Qed.

Lemma step_allWellFormed m op :
  allWellFormed m -> allWellFormed (fst (History.step m op)).
Proof.
  intros Hm.
  destruct op as [ch | ch cfg oe t | ch | ch chunk t | ch msg | ch d md we t
                 | ch st cnt | ch | och | ch]; simpl.
  - by apply getConnection_allWellFormed.
  - unfold Manager.connect. destruct (serialportAvailable m); simpl; [|done].
    destruct (getConnection_allWellFormed ch m Hm) as (Hm1 & Hc1 & Hl1).
    destruct (Manager.getConnection ch m) as [c1 m1]. simpl in *.
    destruct (connect_closes_first ch c1 m1 Hm1 Hl1)
      as (m2 & e2 & c2 & -> & -> & Hm2 & Hwf & Hclosed & _).
    destruct Hwf as [H1 H2 H3 H4 H5 H6 H7].
    destruct (H7 Hclosed) as (Hcfg & Hparser & Hport).
    destruct oe; simpl; (apply store_allWellFormed; [|done]);
      split; simpl; try done.
    intros _. split; [done|]. split; [by eexists | by eexists].
  - by apply disconnect_allWellFormed.
  - unfold Manager.portData.
    destruct (connections m !! ch) as [c|] eqn:Hc; [|done].
    destruct (port c) as [p|] eqn:Hp; [|done].
    destruct (isOpen p) eqn:Hopen; [|done].
    pose proof (lookup_wellFormed _ _ _ Hm Hc) as Hwf.
    assert (connected c = true) as Hconn.
    { destruct (connected c) eqn:E; [done|].
      destruct (wf_closed _ _ Hwf E) as (_ & _ & Hne).
      destruct p as [o]. simpl in Hopen. subst o. done. }
    pose proof (onPortData_wellFormed ch chunk t c Hwf Hconn) as Hd.
    destruct (Manager.onPortData ch chunk t c) as [c' e]. simpl in *.
    by apply store_allWellFormed.
  - unfold Manager.portError.
    destruct (connections m !! ch) as [c|] eqn:Hc; [|done].
    destruct (port c); [|done]. simpl.
    pose proof (lookup_wellFormed _ _ _ Hm Hc) as [H1 H2 H3 H4 H5 H6 H7].
    apply store_allWellFormed; [|done]. by split.
  - unfold Manager.send.
    destruct (connections m !! ch) as [c|] eqn:Hc; [|done].
    destruct (_ || _); [done|].
    pose proof (lookup_wellFormed _ _ _ Hm Hc) as Hwf.
    pose proof (onWritten_wellFormed ch d md (Encoding.encode md d) we t c Hwf) as Hw.
    destruct (Manager.onWritten ch d md (Encoding.encode md d) we t c) as [c' e].
    simpl in *. by apply store_allWellFormed.
  - unfold Manager.getBuffer.
    destruct (connections m !! ch); [|done]. by destruct cnt.
  - unfold Manager.clearBuffer.
    destruct (connections m !! ch) as [c|] eqn:Hc; [|done]. simpl.
    pose proof (lookup_wellFormed _ _ _ Hm Hc) as [H1 H2 H3 H4 H5 H6 H7].
    apply store_allWellFormed; [|done]. by split.
  - unfold Manager.getStatus. destruct och as [i|]; [|done].
    destruct (negb _); [|done]. by destruct (connections m !! i).
  - unfold Manager.removeChannel.
    pose proof (disconnect_allWellFormed ch m Hm) as Hd.
    destruct (Manager.disconnect ch m) as [m1 e1]. simpl in *.
    unfold allWellFormed in *. simpl. by apply map_Forall_delete.
Qed.

Lemma run_allWellFormed ops : forall m,
  allWellFormed m -> allWellFormed (fst (History.run ops m)).
Proof.
  induction ops as [|op ops IH]; intros m Hm; simpl; [done|].
  pose proof (step_allWellFormed m op Hm) as H1.
  destruct (History.step m op) as [m1 e1]. specialize (IH m1 H1).
  destruct (History.run ops m1). done.
Qed.

Lemma reachable_wellFormed available ops k c :
  connections (fst (History.run ops (Manager.new available))) !! k = Some c ->
  wellFormed k c.
Proof.
  intros Hc. eapply lookup_wellFormed; [|exact Hc].
  apply run_allWellFormed. apply map_Forall_empty.
Qed.

End WellFormed.

Section ChannelInvariants.

Import Channel.

(** X1.  In every manager reached from a new one, the entries in the buffer
    of a channel carry consecutive indices that end just below the
    channel's next index: the entry at position [i] has the index
    [bufferIndex - length + i].  So the indices go up by one from each
    entry to the next, none is negative, and none is used twice. *)
Theorem buffered_indices_are_consecutive
    (available : bool) (ops : list Op) (k : string) (c : SerialConnection) :
  connections (fst (History.run ops (Manager.new available))) !! k = Some c ->
  (forall i e, buffer c !! i = Some e ->
     index e = bufferIndex c - Z.of_nat (length (buffer c)) + Z.of_nat i)
  /\ (forall i e1 e2, buffer c !! i = Some e1 -> buffer c !! S i = Some e2 ->
        index e2 = index e1 + 1)
  /\ (forall i e, buffer c !! i = Some e -> 0 <= index e < bufferIndex c)
  /\ (forall i j e1 e2, buffer c !! i = Some e1 -> buffer c !! j = Some e2 ->
        index e1 = index e2 -> i = j).
Proof.
  intros Hc. destruct (reachable_wellFormed _ _ _ _ Hc) as [_ _ _ Hidx Hcount _ _].
  split; [exact Hidx|]. split; [|split].
  - intros i e1 e2 H1 H2. rewrite (Hidx _ _ H1), (Hidx _ _ H2). lia.
  - intros i e H. rewrite (Hidx _ _ H).
    apply lookup_lt_Some in H. lia.
  - intros i j e1 e2 H1 H2. rewrite (Hidx _ _ H1), (Hidx _ _ H2). lia.
Qed.

Lemma buffered_indices_are_consecutive_witness :
  exists c, connections Samples.afterSession !! "a" = Some c
    /\ map index (buffer c) = [0; 1; 2; 3]
    /\ forall i e, buffer c !! i = Some e -> 0 <= index e < bufferIndex c.
Proof.
  eexists. split; [vm_compute; reflexivity|]. split; [reflexivity|].
  apply (buffered_indices_are_consecutive true Samples.session "a").
  vm_compute. reflexivity.
Defined.

(** X2.  In every manager reached from a new one, the fields that the
    manager keeps for a channel agree.  A channel that is marked connected
    has a port object, its configuration and its parser, and the parser
    keeps no LF; a channel that is not marked connected has neither
    configuration nor parser.  So a channel is marked connected exactly
    when it has a configuration, and exactly when it has a parser. *)
Theorem a_connected_channel_has_port_configuration_and_parser
    (available : bool) (ops : list Op) (k : string) (c : SerialConnection) :
  connections (fst (History.run ops (Manager.new available))) !! k = Some c ->
  (connected c = true ->
     is_Some (port c) /\ is_Some (config c)
     /\ exists q, parser c = Some q /\ Js.contains Js.LF (kept q) = false)
  /\ (connected c = false -> config c = None /\ parser c = None)
  /\ (connected c = true <-> is_Some (config c))
  /\ (connected c = true <-> is_Some (parser c)).
Proof.
  intros Hc. destruct (reachable_wellFormed _ _ _ _ Hc) as [_ _ _ _ _ Hopen Hclosed].
  split; [|split; [|split]].
  - intros H. destruct (Hopen H) as (H0 & H1 & H2). rewrite H0.
    by split; [eexists|].
  - intros H. by destruct (Hclosed H) as (H1 & H2 & _).
  - split.
    + intros H. by destruct (Hopen H) as (_ & H1 & _).
    + intros [cfg Hcfg]. destruct (connected c) eqn:E; [done|].
      destruct (Hclosed eq_refl) as (H1 & _). congruence.
  - split.
    + intros H. destruct (Hopen H) as (_ & _ & q & Hq & _). by eexists.
    + intros [q Hq]. destruct (connected c) eqn:E; [done|].
      destruct (Hclosed eq_refl) as (_ & H2 & _). congruence.
Qed.

Lemma a_connected_channel_has_port_configuration_and_parser_witness :
  exists c, connections Samples.afterSession !! "a" = Some c
    /\ (connected c = true <-> is_Some (config c)).
Proof.
  eexists. split; [vm_compute; reflexivity|].
  apply (a_connected_channel_has_port_configuration_and_parser
           true Samples.session "a").
  vm_compute. reflexivity.
Defined.

(** X3.  In every manager reached from a new one, the channel stored under
    an id has that id, every entry of its buffer carries that id, and an
    entry has a [mode] exactly when it is a tx entry. *)
Theorem buffered_entries_belong_to_their_channel
    (available : bool) (ops : list Op) (k : string) (c : SerialConnection) :
  connections (fst (History.run ops (Manager.new available))) !! k = Some c ->
  channelId c = k
  /\ Forall (fun e => entryChannelId e = k
                      /\ (direction e = Tx <-> is_Some (mode e))) (buffer c).
Proof.
  intros Hc. destruct (reachable_wellFormed _ _ _ _ Hc) as [Hid He Hm _ _ _ _].
  split; [done|]. rewrite Forall_forall in He. rewrite Forall_forall in Hm.
  apply Forall_forall. intros e Hin. split; [by apply He|].
  specialize (Hm e Hin). destruct (direction e).
  - rewrite Hm. split; [done|]. by intros [? ?].
  - done.
Qed.

Lemma buffered_entries_belong_to_their_channel_witness :
  exists c, connections Samples.afterSession !! "a" = Some c
    /\ channelId c = "a"
    /\ map direction (buffer c) = [Rx; Rx; Tx; Tx].
Proof.
  eexists. split; [vm_compute; reflexivity|].
  split; [|reflexivity].
  apply (buffered_entries_belong_to_their_channel true Samples.session "a").
  vm_compute. reflexivity.
Defined.

End ChannelInvariants.

(** ** Channels do not interfere *)

Section Isolation.

Import Channel.

Lemma onLines_effects k now lines : forall n c,
  Forall (fun e => ofEffect e = k) (snd (Manager.onLines k now n lines c)).
Proof.
  induction lines as [|l lines IH]; intros n c; simpl; [done|].
  match goal with |- context [Manager.onLines _ _ _ _ ?c1] =>
    specialize (IH (S n) c1); destruct (Manager.onLines k now (S n) lines c1)
  end.
  simpl in *. by constructor.
Qed.

Lemma disconnect_touches_one k m :
  (forall j, j <> k ->
     connections (fst (Manager.disconnect k m)) !! j = connections m !! j)
  /\ Forall (fun e => ofEffect e = k) (snd (Manager.disconnect k m)).
Proof.
  unfold Manager.disconnect.
  destruct (connections m !! k) as [c|]; [|done].
  destruct (_ || _); simpl; (split; [intros j Hj; by rewrite lookup_insert_ne|]).
  - done.
  - by constructor.
Qed.

(** X4.  An operation changes no channel but its own, whether it succeeds
    or throws, and every event that it emits and every buffer that it hands
    to a device is for its own channel. *)
Theorem operations_touch_one_channel (m : SerialManager) (op : Op) :
  (forall j, ofOp op <> Some j ->
     connections (fst (History.step m op)) !! j = connections m !! j)
  /\ Forall (fun e => ofOp op = Some (ofEffect e)) (snd (History.step m op)).
Proof.
  destruct op as [k | k cfg oe t | k | k chunk t | k msg | k d md we t
                 | k st cnt | k | ok | k]; simpl.
  - split; [|done]. intros j Hj. unfold Manager.getConnection.
    destruct (connections m !! k); simpl; [done|].
    rewrite lookup_insert_ne; [done | congruence].
  - unfold Manager.connect. destruct (serialportAvailable m); simpl; [|done].
    assert (forall j, Some k <> Some j ->
              connections (snd (Manager.getConnection k m)) !! j = connections m !! j)
      as Hg.
    { intros j Hj. unfold Manager.getConnection.
      destruct (connections m !! k); simpl; [done|].
      rewrite lookup_insert_ne; [done | congruence]. }
    destruct (Manager.getConnection k m) as [c1 m1]. simpl in Hg.
    assert (forall j, Some k <> Some j ->
              connections (fst (if connected c1 then Manager.disconnect k m1
                                else (m1, []))) !! j = connections m !! j
            ) as Hd.
    { intros j Hj. rewrite <- (Hg j Hj). destruct (connected c1); [|done].
      apply disconnect_touches_one. congruence. }
    assert (Forall (fun e => Some k = Some (ofEffect e))
              (snd (if connected c1 then Manager.disconnect k m1 else (m1, []))))
      as He.
    { destruct (connected c1); [|done].
      eapply Forall_impl; [apply disconnect_touches_one|].
      simpl. intros e ->. done. }
    destruct (if connected c1 then Manager.disconnect k m1 else (m1, []))
      as [m2 e2]. simpl in *.
    destruct oe; simpl.
    + split; [|done]. intros j Hj. rewrite lookup_insert_ne; [by apply Hd | congruence].
    + split.
      * intros j Hj. rewrite lookup_insert_ne; [by apply Hd | congruence].
      * apply Forall_app. split; [done | by constructor].
  - destruct (disconnect_touches_one k m) as [H1 H2]. split.
    + intros j Hj. apply H1. congruence.
    + eapply Forall_impl; [exact H2|]. simpl. by intros e ->.
  - unfold Manager.portData.
    destruct (connections m !! k) as [c|]; [|done].
    destruct (port c) as [p|]; [|done]. destruct (isOpen p); [|done].
    unfold Manager.onPortData. simpl.
    destruct (parser c) as [q|].
    + destruct (ReadlineParser.transform (kept q) chunk) as [lines rest].
      match goal with |- context [Manager.onLines _ _ _ _ ?c1] =>
        pose proof (onLines_effects k t lines 0%nat c1) as Hl;
        destruct (Manager.onLines k t 0 lines c1)
      end.
      simpl in *. split.
      * intros j Hj. rewrite lookup_insert_ne; [done | congruence].
      * constructor; [done|]. eapply Forall_impl; [exact Hl|]. simpl. by intros e ->.
    + simpl. split; [|by constructor].
      intros j Hj. rewrite lookup_insert_ne; [done | congruence].
  - unfold Manager.portError.
    destruct (connections m !! k) as [c|]; [|done].
    destruct (port c); [|done]. simpl. split; [|by constructor].
    intros j Hj. rewrite lookup_insert_ne; [done | congruence].
  - unfold Manager.send.
    destruct (connections m !! k) as [c|]; [|done].
    destruct (_ || _); [done|].
    unfold Manager.onWritten. destruct we; simpl.
    + split; [|by repeat constructor].
      intros j Hj. rewrite lookup_insert_ne; [done | congruence].
    + split; [|by repeat constructor].
      intros j Hj. rewrite lookup_insert_ne; [done | congruence].
  - unfold Manager.getBuffer.
    destruct (connections m !! k); [|done]. by destruct cnt.
  - unfold Manager.clearBuffer.
    destruct (connections m !! k) as [c|]; [|done]. simpl. split; [|done].
    intros j Hj. rewrite lookup_insert_ne; [done | congruence].
  - unfold Manager.getStatus. destruct ok as [i|]; [|done].
    destruct (negb _); [|done]. by destruct (connections m !! i).
  - unfold Manager.removeChannel.
    destruct (disconnect_touches_one k m) as [H1 H2].
    destruct (Manager.disconnect k m) as [m1 e1]. simpl in *. split.
    + intros j Hj. rewrite lookup_delete_ne; [|congruence]. apply H1. congruence.
    + eapply Forall_impl; [exact H2|]. simpl. by intros e ->.
Qed.

Lemma operations_touch_one_channel_witness :
  connections
    (fst (History.step Samples.afterSession (OpSend "b" "x" "ascii" None 1))) !! "a"
  = connections Samples.afterSession !! "a"
  /\ connections
       (fst (History.step Samples.afterSession (OpClearBuffer "b"))) !! "a"
     = connections Samples.afterSession !! "a".
Proof.
  split.
  - apply (operations_touch_one_channel Samples.afterSession
             (OpSend "b" "x" "ascii" None 1)). discriminate.
  - apply (operations_touch_one_channel Samples.afterSession (OpClearBuffer "b")).
    discriminate.
Defined.

End Isolation.

(** ** Opening, closing and removing a channel *)

Section Lifecycle.

Import Channel.

Lemma store_store k c1 c2 m :
  Manager.store k c2 (Manager.store k c1 m) = Manager.store k c2 m.
Proof.
  unfold Manager.store, Manager.setConnections. simpl. by rewrite insert_insert_eq.
Qed.

Lemma store_same k c m :
  connections m !! k = Some c -> Manager.store k c m = m.
Proof.
  intros Hc. destruct m as [cs av]. unfold Manager.store, Manager.setConnections.
  simpl in *. by rewrite insert_id.
Qed.

(** X5.  [disconnect] leaves its channel not connected and keeps the
    buffer, the next index and the statistics.  It emits [disconnected]
    exactly when the channel had a port and was connected.  A second
    [disconnect] changes nothing and emits nothing; so does a [disconnect]
    of a channel that does not exist. *)
Theorem disconnect_is_idempotent (m : SerialManager) (k : string) :
  Manager.disconnect k (fst (Manager.disconnect k m))
  = (fst (Manager.disconnect k m), [])
  /\ (forall c, connections m !! k = Some c ->
        snd (Manager.disconnect k m)
        = (if bool_decide (is_Some (port c)) && connected c
           then [Emit (EvDisconnected k)] else [])
        /\ exists c', connections (fst (Manager.disconnect k m)) !! k = Some c'
             /\ connected c' = false
             /\ buffer c' = buffer c /\ bufferIndex c' = bufferIndex c
             /\ stats c' = stats c)
  /\ (connections m !! k = None -> Manager.disconnect k m = (m, [])).
Proof.
  split; [|split].
  - unfold Manager.disconnect at 2 3.
    destruct (connections m !! k) as [c|] eqn:Hc; simpl.
    + destruct (bool_decide (is_Some (port c))) eqn:Hp, (connected c) eqn:Hconn;
        simpl; unfold Manager.disconnect; simpl;
        rewrite lookup_insert_eq; simpl; rewrite ?orb_true_r;
        unfold Manager.store, Manager.setConnections; simpl;
        rewrite insert_insert_eq; done.
    + unfold Manager.disconnect. by rewrite Hc.
  - intros c Hc. unfold Manager.disconnect. rewrite Hc.
    destruct (bool_decide (is_Some (port c))), (connected c); simpl;
      (split; [done|]); eexists; rewrite lookup_insert_eq; done.
  - intros Hc. unfold Manager.disconnect. by rewrite Hc.
Qed.

Lemma disconnect_is_idempotent_witness :
  snd (Manager.disconnect "a" Samples.afterSession) = [Emit (EvDisconnected "a")]
  /\ Manager.disconnect "a" (fst (Manager.disconnect "a" Samples.afterSession))
     = (fst (Manager.disconnect "a" Samples.afterSession), []).
Proof.
  destruct (disconnect_is_idempotent Samples.afterSession "a") as (H1 & H2 & _).
  split; [|exact H1].
  destruct (H2 (default (Connection.new "a")
                  (connections Samples.afterSession !! "a"))) as [H _].
  - vm_compute. reflexivity.
  - rewrite H. vm_compute. reflexivity.
Defined.

End Lifecycle.

Section Connecting.

Import Channel.

Lemma disconnect_available k m :
  serialportAvailable (fst (Manager.disconnect k m)) = serialportAvailable m.
Proof.
  unfold Manager.disconnect. destruct (connections m !! k); [|done].
  by destruct (_ || _).
Qed.

Lemma step_available m op :
  serialportAvailable (fst (History.step m op)) = serialportAvailable m.
Proof.
  destruct op as [k | k cfg oe t | k | k chunk t | k msg | k d md we t
                 | k st cnt | k | ok | k]; simpl.
  - unfold Manager.getConnection. by destruct (connections m !! k).
  - unfold Manager.connect. destruct (serialportAvailable m) eqn:Hav; simpl; [|done].
    assert (serialportAvailable (snd (Manager.getConnection k m)) = true) as H1
      by (unfold Manager.getConnection; by destruct (connections m !! k)).
    destruct (Manager.getConnection k m) as [c1 m1]. simpl in H1.
    assert (serialportAvailable
              (fst (if connected c1 then Manager.disconnect k m1 else (m1, [])))
            = true) as H2
      by (destruct (connected c1); [by rewrite disconnect_available | done]).
    destruct (if connected c1 then Manager.disconnect k m1 else (m1, []))
      as [m2 e2]. simpl in H2.
    by destruct oe.
  - apply disconnect_available.
  - unfold Manager.portData. destruct (connections m !! k) as [c|]; [|done].
    destruct (port c) as [p|]; [|done]. destruct (isOpen p); [|done].
    by destruct (Manager.onPortData k chunk t c).
  - unfold Manager.portError. destruct (connections m !! k) as [c|]; [|done].
    by destruct (port c).
  - unfold Manager.send. destruct (connections m !! k) as [c|]; [|done].
    destruct (_ || _); [done|]. by destruct (Manager.onWritten _ _ _ _ _ _ _).
  - unfold Manager.getBuffer. destruct (connections m !! k); [|done].
    by destruct cnt.
  - unfold Manager.clearBuffer. by destruct (connections m !! k).
  - unfold Manager.getStatus. destruct ok as [i|]; [|done].
    destruct (negb _); [|done]. by destruct (connections m !! i).
  - unfold Manager.removeChannel.
    pose proof (disconnect_available k m) as H.
    by destruct (Manager.disconnect k m).
Qed.

Lemma run_available ops : forall m,
  serialportAvailable (fst (History.run ops m)) = serialportAvailable m.
Proof.
  induction ops as [|op ops IH]; intros m; simpl; [done|].
  pose proof (step_available m op) as H1.
  destruct (History.step m op) as [m1 e1]. specialize (IH m1).
  destruct (History.run ops m1). simpl in *. congruence.
Qed.

(** X6.  On a manager reached from a new one, with the serialport package
    there: a [connect] whose port opens leaves the channel connected with
    the configuration made from the caller's, all counters at 0 and
    [connectedAt] at the time of the call, a parser that keeps nothing, and
    the buffer and the next index that the channel had (those of a new
    channel if there was none); it emits [disconnected] first if the channel
    was connected, and then [connected].  A [connect] whose port does not
    open throws, and leaves the channel not connected with the buffer, the
    next index and the statistics that it had.  The other channels stay. *)
Theorem connect_resets_the_counters_and_keeps_the_buffer
    (ops : list Op) (k : string) (cfg : Config) (now : Z) :
  let m := fst (History.run ops (Manager.new true)) in
  let old := default (Connection.new k) (connections m !! k) in
  let closing := if connected old then [Emit (EvDisconnected k)] else [] in
  (exists c' m',
      Manager.connect k cfg None now m
      = (Ok (Manager.portConfigOf cfg), m',
         closing ++ [Emit (EvConnected k (Manager.portConfigOf cfg))])
      /\ connections m' = <[k := c']> (connections m)
      /\ connected c' = true
      /\ port c' = Some {| isOpen := true |}
      /\ config c' = Some (Manager.portConfigOf cfg)
      /\ parser c' = Some {| kept := EmptyString |}
      /\ stats c'
         = {| bytesRx := 0; bytesTx := 0; linesRx := 0; linesTx := 0;
              errors := 0; connectedAt := Some now |}
      /\ buffer c' = buffer old /\ bufferIndex c' = bufferIndex old)
  /\ (forall message, exists c' m',
      Manager.connect k cfg (Some message) now m
      = (Throw ("Failed to open port: " +:+ message), m', closing)
      /\ connections m' = <[k := c']> (connections m)
      /\ connected c' = false /\ config c' = None
      /\ stats c' = stats old
      /\ buffer c' = buffer old /\ bufferIndex c' = bufferIndex old).
Proof.
  intros m old closing.
  assert (allWellFormed m) as Hm
    by (apply run_allWellFormed; apply map_Forall_empty).
  assert (serialportAvailable m = true) as Hav by (subst m; by rewrite run_available).
  destruct (getConnection_allWellFormed k m Hm) as (Hm1 & Hc1 & Hl1).
  assert (fst (Manager.getConnection k m) = old
          /\ connections (snd (Manager.getConnection k m))
             = <[k := old]> (connections m)) as [Hold Hcs1].
  { subst old. unfold Manager.getConnection.
    destruct (connections m !! k) as [c|] eqn:Hc; simpl; [|done].
    split; [done | by rewrite insert_id]. }
  unfold Manager.connect. rewrite Hav. simpl.
  destruct (Manager.getConnection k m) as [c1 m1]. simpl in *. subst c1.
  destruct (connect_closes_first k old m1 Hm1 Hl1)
    as (m2 & e2 & c2 & -> & -> & Hm2 & Hwf & Hclosed & Hb & Hi & Hs & -> & Hcs2).
  destruct (wf_closed _ _ Hwf Hclosed) as (Hcfg & Hparser & _).
  fold closing. split.
  - eexists _, _. split; [reflexivity|]. simpl.
    rewrite Hcs2, Hcs1, !insert_insert_eq. done.
  - intros message. eexists _, _. split; [reflexivity|]. simpl.
    rewrite Hcs2, Hcs1, !insert_insert_eq. done.
Qed.

Lemma connect_resets_the_counters_and_keeps_the_buffer_witness :
  exists c' m',
    Manager.connect "a" Examples.ttyUSB0 None 5000 Samples.afterSession
    = (Ok (Manager.portConfigOf Examples.ttyUSB0), m',
       [Emit (EvDisconnected "a");
        Emit (EvConnected "a" (Manager.portConfigOf Examples.ttyUSB0))])
    /\ connections m' = <[ "a" := c' ]> (connections Samples.afterSession)
    /\ linesTx (stats c') = 0 /\ map index (buffer c') = [0; 1; 2; 3]
    /\ bufferIndex c' = 4.
Proof.
  destruct (connect_resets_the_counters_and_keeps_the_buffer
              Samples.session "a" Examples.ttyUSB0 5000)
    as [(c' & m' & H1 & H2 & _ & _ & _ & _ & H3 & H4 & H5) _].
  exists c', m'. split; [exact H1|]. split; [exact H2|].
  split; [by rewrite H3|]. split; [rewrite H4 | rewrite H5]; vm_compute; reflexivity.
Defined.

End Connecting.

(** ** Sending and reading, counted *)

Section Counting.

(** X7.  A [send] on a connected channel whose write succeeds hands the
    encoded bytes to the device, records a tx entry with the text as
    given, the mode, the time and the channel's next index, as the last
    entry of the buffer, and emits it as a [line] event.  [bytesTx] grows by
    the number of bytes written, [linesTx] and the next index by one; the
    other counters and the state of the connection stay.  Below the cap the
    entries that were in the buffer all stay. *)
Theorem send_records_a_tx_entry
    (m : SerialManager) (k text md : string) (now : Z) (c : SerialConnection) :
  connections m !! k = Some c ->
  is_Some (port c) -> connected c = true ->
  let sent :=
    {| timestamp := now; direction := Tx; data := text; mode := Some md;
       index := bufferIndex c; entryChannelId := k |} in
  exists c',
    Manager.send k text md None now m
    = (Ok (), Manager.store k c' m,
       [PortWrite k (Encoding.encode md text); Emit (EvLine k sent)])
    /\ last (buffer c') = Some sent
    /\ (Z.of_nat (length (buffer c)) < MAX_BUFFER_LINES c ->
        buffer c' = buffer c ++ [sent])
    /\ bufferIndex c' = bufferIndex c + 1
    /\ bytesTx (stats c')
       = bytesTx (stats c) + Z.of_nat (length (Encoding.encode md text))
    /\ linesTx (stats c') = linesTx (stats c) + 1
    /\ bytesRx (stats c') = bytesRx (stats c)
    /\ linesRx (stats c') = linesRx (stats c)
    /\ errors (stats c') = errors (stats c)
    /\ connectedAt (stats c') = connectedAt (stats c)
    /\ connected c' = true /\ port c' = port c
    /\ config c' = config c /\ parser c' = parser c.
Proof.
  intros Hc Hp Hconn sent.
  rewrite (send_open _ _ _ _ _ _ c) by done. simpl.
  eexists. split; [reflexivity|]. simpl.
  split; [by rewrite last_snoc|]. split; [|done].
  intros Hroom.
  destruct (Z.geb_spec (Z.of_nat (length (buffer c))) (MAX_BUFFER_LINES c));
    [lia | done].
Qed.

Lemma send_records_a_tx_entry_witness :
  exists c',
    Manager.send "a" "AT" "ascii" None 3000 Examples.opened
    = (Ok (), Manager.store "a" c' Examples.opened,
       [PortWrite "a" [65; 84; 10];
        Emit (EvLine "a"
                {| timestamp := 3000; direction := Tx; data := "AT";
                   mode := Some "ascii"; index := 0; entryChannelId := "a" |})])
    /\ bytesTx (stats c') = 3.
Proof.
  destruct (send_records_a_tx_entry Examples.opened "a" "AT" "ascii" 3000
              (default (Connection.new "a") (connections Examples.opened !! "a")))
    as (c' & H1 & _ & _ & _ & H2 & _).
  - vm_compute. reflexivity.
  - vm_compute. eauto.
  - vm_compute. reflexivity.
  - exists c'. split; [exact H1|]. rewrite H2. vm_compute. reflexivity.
Defined.

Lemma rawData_app (e1 e2 : list Effect) :
  Observed.rawData (e1 ++ e2) = Observed.rawData e1 ++ Observed.rawData e2.
Proof.
  induction e1 as [|[[]|] e1 IH]; simpl; try done. by rewrite IH.
Qed.

Lemma onLines_counts k now lines : forall n c,
  let c' := fst (Manager.onLines k now n lines c) in
  let e := snd (Manager.onLines k now n lines c) in
  length (History.lineEntries e) = length lines
  /\ Observed.rawData e = []
  /\ linesRx (stats c') = linesRx (stats c) + Z.of_nat (length lines)
  /\ bufferIndex c' = bufferIndex c + Z.of_nat (length lines)
  /\ bytesRx (stats c') = bytesRx (stats c)
  /\ bytesTx (stats c') = bytesTx (stats c)
  /\ linesTx (stats c') = linesTx (stats c)
  /\ errors (stats c') = errors (stats c)
  /\ connectedAt (stats c') = connectedAt (stats c).
Proof.
  induction lines as [|l lines IH]; intros n c; simpl; [repeat split; lia|].
  match goal with |- context [Manager.onLines _ _ _ _ ?c1] =>
    specialize (IH (S n) c1); destruct (Manager.onLines k now (S n) lines c1)
  end.
  simpl in *. destruct IH as (H1 & H2 & H3 & H4 & H5 & H6 & H7 & H8 & H9).
  repeat split; try done; lia.
Qed.

Lemma portData_counts m k c p chunk now :
  connections m !! k = Some c -> port c = Some p -> isOpen p = true ->
  let m' := fst (Manager.portData k chunk now m) in
  let e := snd (Manager.portData k chunk now m) in
  Observed.rawData e = [chunk]
  /\ exists c', connections m' !! k = Some c' /\ port c' = Some p
     /\ bytesRx (stats c') = bytesRx (stats c) + Z.of_nat (String.length chunk)
     /\ linesRx (stats c')
        = linesRx (stats c) + Z.of_nat (length (History.lineEntries e))
     /\ bufferIndex c'
        = bufferIndex c + Z.of_nat (length (History.lineEntries e))
     /\ bytesTx (stats c') = bytesTx (stats c)
     /\ linesTx (stats c') = linesTx (stats c)
     /\ errors (stats c') = errors (stats c)
     /\ connectedAt (stats c') = connectedAt (stats c).
Proof.
  intros Hc Hp Hopen. unfold Manager.portData, Manager.onPortData.
  rewrite Hc, Hp, Hopen. simpl. destruct (parser c) as [q|]; simpl.
  - destruct (ReadlineParser.transform (kept q) chunk) as [lines rest].
    match goal with |- context [Manager.onLines _ _ _ _ ?c1] =>
      pose proof (onLines_counts k now lines 0%nat c1) as Hl;
      pose proof (onLines_link k now 0%nat lines c1) as Hk;
      destruct (Manager.onLines k now 0 lines c1) as [c' e]
    end.
    simpl in *. destruct Hl as (H1 & H2 & H3 & H4 & H5 & H6 & H7 & H8 & H9).
    destruct Hk as (Hp' & _).
    split; [by rewrite H2|]. exists c'. rewrite lookup_insert_eq.
    split; [done|]. split; [congruence|]. rewrite H1. repeat split; try done; lia.
  - split; [done|]. eexists. rewrite lookup_insert_eq. split; [done|]. simpl.
    repeat split; try done; lia.
Qed.

(** X8.  While an open channel reads, [bytesRx] grows by the number of
    bytes that arrive, whatever their framing, and one [raw-data] event per
    chunk carries the chunk; [linesRx] and the next index grow by the number
    of line entries emitted; the tx counters, [errors] and [connectedAt]
    stay. *)
Theorem reading_counts_bytes_and_lines
    (chunks : list string) (m : SerialManager) (k : string)
    (c : SerialConnection) (p : Port) (now : nat -> Z) :
  connections m !! k = Some c -> port c = Some p -> isOpen p = true ->
  let m' := fst (History.run (History.feed k chunks now) m) in
  let e := snd (History.run (History.feed k chunks now) m) in
  Observed.rawData e = chunks
  /\ exists c', connections m' !! k = Some c'
     /\ bytesRx (stats c')
        = bytesRx (stats c)
          + Z.of_nat (String.length (History.concatStrings chunks))
     /\ linesRx (stats c')
        = linesRx (stats c) + Z.of_nat (length (History.lineEntries e))
     /\ bufferIndex c'
        = bufferIndex c + Z.of_nat (length (History.lineEntries e))
     /\ bytesTx (stats c') = bytesTx (stats c)
     /\ linesTx (stats c') = linesTx (stats c)
     /\ errors (stats c') = errors (stats c)
     /\ connectedAt (stats c') = connectedAt (stats c).
Proof.
  revert m c. induction chunks as [|chunk chunks IH]; intros m c Hc Hp Hopen.
  - simpl. split; [done|]. exists c. repeat split; try done; lia.
  - simpl.
    pose proof (portData_counts m k c p chunk now Hc Hp Hopen) as H1.
    destruct (Manager.portData k chunk now m) as [m1 e1]. simpl in H1.
    destruct H1 as (Hr1 & c1 & Hc1 & Hp1 & A1 & A2 & A3 & A4 & A5 & A6 & A7).
    specialize (IH m1 c1 Hc1 Hp1 Hopen).
    destruct (History.run (History.feed k chunks now) m1) as [m2 e2]. simpl in *.
    destruct IH as (Hr2 & c2 & Hc2 & B1 & B2 & B3 & B4 & B5 & B6 & B7).
    split; [by rewrite rawData_app, Hr1, Hr2|].
    exists c2. split; [done|].
    rewrite lineEntries_app, length_app, length_append.
    repeat split; try congruence; lia.
Qed.

Lemma reading_counts_bytes_and_lines_witness :
  exists c', connections Examples.afterTwoLines !! "a" = Some c'
    /\ bytesRx (stats c') = 9 /\ linesRx (stats c') = 2.
Proof.
  destruct (reading_counts_bytes_and_lines Examples.splitTerminator
              Examples.opened "a"
              (default (Connection.new "a") (connections Examples.opened !! "a"))
              {| isOpen := true |} Examples.clock)
    as (_ & c' & H1 & H2 & H3 & _); [vm_compute; reflexivity..|].
  exists c'. split; [exact H1|]. split; [rewrite H2 | rewrite H3];
    vm_compute; reflexivity.
Defined.

End Counting.

(** ** Reading the buffer back, and removing a channel *)

Section Buffers.

Lemma slice_window {A : Type} (l : list A) (start count : Z) :
  0 <= start -> 0 <= count ->
  Js.slice start (Some (start + count)) l
  = take (Z.to_nat count) (drop (Z.to_nat start) l).
Proof.
  intros Hs Hc. unfold Js.slice, Js.sliceIndex.
  destruct (Z.ltb_spec start 0); [lia|].
  destruct (Z.ltb_spec (start + count) 0); [lia|].
  destruct (Z.le_gt_cases (Z.of_nat (length l)) start) as [Hbig|Hsmall].
  - rewrite !(drop_ge l) by lia. by rewrite !take_nil.
  - rewrite (Z.min_l start) by lia.
    destruct (Z.le_gt_cases (start + count) (Z.of_nat (length l))) as [Hin|Hout].
    + rewrite (Z.min_l (start + count)) by lia. f_equal. lia.
    + rewrite (Z.min_r (start + count)) by lia.
      rewrite !take_ge; [done | rewrite length_drop; lia | rewrite length_drop; lia].
Qed.

Lemma slice_from {A : Type} (l : list A) (start : Z) :
  0 <= start -> Js.slice start None l = drop (Z.to_nat start) l.
Proof.
  intros Hs. unfold Js.slice, Js.sliceIndex.
  destruct (Z.ltb_spec start 0); [lia|].
  destruct (Z.le_gt_cases (Z.of_nat (length l)) start) as [Hbig|Hsmall].
  - rewrite !(drop_ge l) by lia. by rewrite take_nil.
  - rewrite Z.min_l by lia. apply take_ge. rewrite length_drop. lia.
Qed.

Lemma slice_tail {A : Type} (l : list A) (n : Z) :
  0 < n -> n <= Z.of_nat (length l) ->
  Js.slice (- n) None l = drop (length l - Z.to_nat n) l.
Proof.
  intros H1 H2. unfold Js.slice, Js.sliceIndex.
  destruct (Z.ltb_spec (- n) 0); [|lia].
  rewrite Z.max_l by lia.
  replace (Z.to_nat (Z.of_nat (length l) + - n)) with (length l - Z.to_nat n)%nat by lia.
  apply take_ge. rewrite length_drop. lia.
Qed.

(** X9.  [getBuffer] reads the buffer by position and changes nothing.
    Without arguments it gives the whole buffer; a window of [count]
    entries from [start] is the entries at the positions [start] to
    [start + count - 1] that exist, so that a window from 0 and the rest
    after it make the buffer again; a start at or behind the end gives the
    empty list; a negative start counts from the end. *)
Theorem getBuffer_reads_windows
    (m : SerialManager) (k : string) (c : SerialConnection) :
  connections m !! k = Some c ->
  (forall start count, snd (Manager.getBuffer k start count m) = m)
  /\ fst (Manager.getBuffer k None None m) = buffer c
  /\ (forall start count, 0 <= start -> 0 <= count ->
        fst (Manager.getBuffer k (Some start) (Some count) m)
        = take (Z.to_nat count) (drop (Z.to_nat start) (buffer c)))
  /\ (forall n, 0 <= n ->
        fst (Manager.getBuffer k (Some 0) (Some n) m)
          ++ fst (Manager.getBuffer k (Some n) None m)
        = buffer c)
  /\ (forall start count, Z.of_nat (length (buffer c)) <= start ->
        fst (Manager.getBuffer k (Some start) count m) = [])
  /\ (forall n, 0 < n -> n <= Z.of_nat (length (buffer c)) ->
        fst (Manager.getBuffer k (Some (- n)) None m)
        = drop (length (buffer c) - Z.to_nat n) (buffer c)).
Proof.
  intros Hc. unfold Manager.getBuffer. rewrite Hc.
  split; [by intros start []|]. split; [|split; [|split; [|split]]].
  - simpl. rewrite slice_from by lia. done.
  - intros start count Hs Hn. simpl. by apply slice_window.
  - intros n Hn. simpl.
    rewrite (slice_window (buffer c) 0 n) by lia. rewrite slice_from by lia.
    simpl. apply take_drop.
  - intros start count Hs. destruct count as [n|]; simpl.
    + unfold Js.slice, Js.sliceIndex.
      destruct (Z.ltb_spec start 0); [lia|].
      rewrite (drop_ge (buffer c)) by lia. apply take_nil.
    + rewrite slice_from by lia. apply drop_ge. lia.
  - intros n H1 H2. simpl. by apply slice_tail.
Qed.

Lemma getBuffer_reads_windows_witness :
  map data (fst (Manager.getBuffer "a" (Some 1) (Some 2) Samples.afterSession))
  = ["bar"; "AT"]
  /\ map data (fst (Manager.getBuffer "a" (Some (-1)) None Samples.afterSession))
     = ["OK"].
Proof.
  destruct (getBuffer_reads_windows Samples.afterSession "a"
              (default (Connection.new "a")
                 (connections Samples.afterSession !! "a")))
    as (_ & _ & H3 & _ & _ & H6); [vm_compute; reflexivity|].
  split.
  - rewrite H3 by lia. vm_compute. reflexivity.
  - pose proof (H6 1) as H. change (- (1)) with (-1) in H.
    rewrite H; [vm_compute; reflexivity | lia | vm_compute; discriminate].
Defined.

(** X10.  After [removeChannel] the manager has no channel under the id,
    and the next [getConnection] makes a new one: closed, with an empty
    buffer, the next index 0 and all counters 0.  [removeChannel] emits what
    the [disconnect] that it starts with emits; on an id without a channel
    it changes no channel and emits nothing. *)
Theorem removeChannel_forgets_the_channel (m : SerialManager) (k : string) :
  connections (fst (Manager.removeChannel k m)) !! k = None
  /\ fst (Manager.getConnection k (fst (Manager.removeChannel k m)))
     = Connection.new k
  /\ snd (Manager.removeChannel k m) = snd (Manager.disconnect k m)
  /\ (forall j, j <> k ->
        connections (fst (Manager.removeChannel k m)) !! j = connections m !! j)
  /\ (connections m !! k = None ->
        connections (fst (Manager.removeChannel k m)) = connections m
        /\ snd (Manager.removeChannel k m) = []).
Proof.
  unfold Manager.removeChannel.
  pose proof (disconnect_touches_one k m) as [Hother _].
  pose proof (disconnect_is_idempotent m k) as (_ & _ & Hnone).
  destruct (Manager.disconnect k m) as [m1 e1]. simpl in *.
  split; [apply lookup_delete_eq|]. split; [|split; [done|split]].
  - unfold Manager.getConnection. simpl. by rewrite lookup_delete_eq.
  - intros j Hj. rewrite lookup_delete_ne by done. by apply Hother.
  - intros Hk. specialize (Hnone Hk). injection Hnone as -> ->.
    split; [|done]. by apply delete_id.
Qed.

Lemma removeChannel_forgets_the_channel_witness :
  connections (fst (Manager.removeChannel "b" Samples.afterSession))
  = connections Samples.afterSession
  /\ connections (fst (Manager.removeChannel "a" Samples.afterSession)) !! "b"
     = connections Samples.afterSession !! "b".
Proof.
  destruct (removeChannel_forgets_the_channel Samples.afterSession "b")
    as (_ & _ & _ & _ & H5).
  destruct (removeChannel_forgets_the_channel Samples.afterSession "a")
    as (_ & _ & _ & H4 & _).
  split.
  - apply H5. vm_compute. reflexivity.
  - apply H4. discriminate.
Defined.

End Buffers.

(** ** The bytes of a payload *)

Section PayloadBytes.

Import Observed.

Lemma unhex_range (c : ascii) (v : Z) : Buffer.unhex c = Some v -> 0 <= v < 16.
Proof.
  unfold Buffer.unhex. generalize (Z.of_nat (nat_of_ascii c)). intros n.
  destruct (Z.leb_spec 48 n), (Z.leb_spec n 57); simpl;
    try (intros [= <-]; lia);
    destruct (Z.leb_spec 97 n), (Z.leb_spec n 102); simpl;
    try (intros [= <-]; lia);
    destruct (Z.leb_spec 65 n), (Z.leb_spec n 70); simpl;
    try (intros [= <-]; lia); done.
Qed.

Lemma fromHex_bytes (s : string) : Forall isByte (Buffer.fromHex s).
Proof.
  induction s as [| a | a b rest IH] using string_pair_ind; simpl; try done.
  destruct (Buffer.unhex a) as [hi|] eqn:Ha; [|done].
  destruct (Buffer.unhex b) as [lo|] eqn:Hb; [|done].
  constructor; [|done]. apply unhex_range in Ha. apply unhex_range in Hb.
  unfold isByte. lia.
Qed.

Lemma utf8_char_bytes (c : ascii) :
  Forall isByte (Buffer.fromUtf8 (String c EmptyString)).
Proof.
  destruct c as [[] [] [] [] [] [] [] []]; vm_compute;
    repeat constructor; discriminate.
Qed.

Lemma fromUtf8_cons (c : ascii) (s : string) :
  Buffer.fromUtf8 (String c s)
  = Buffer.fromUtf8 (String c EmptyString) ++ Buffer.fromUtf8 s.
Proof. simpl. by destruct (_ <? 128). Qed.

Lemma fromUtf8_app (a b : string) :
  Buffer.fromUtf8 (a +:+ b) = Buffer.fromUtf8 a ++ Buffer.fromUtf8 b.
Proof.
  induction a as [|c a IH]; [done|].
  rewrite append_cons, fromUtf8_cons, (fromUtf8_cons c a), IH.
  by rewrite app_assoc.
Qed.

Lemma fromUtf8_bytes (s : string) : Forall isByte (Buffer.fromUtf8 s).
Proof.
  induction s as [|c s IH]; [done|].
  rewrite fromUtf8_cons. apply Forall_app. split; [apply utf8_char_bytes | done].
Qed.

Lemma fromUtf8_ascii (s : string) :
  isAscii s = true -> Buffer.fromUtf8 s = bytesOf s.
Proof.
  induction s as [|c s IH]; intros H; [done|].
  simpl in H. apply andb_true_iff in H as [Hc Hs]. simpl.
  apply Nat.ltb_lt in Hc.
  destruct (Z.ltb_spec (Z.of_nat (nat_of_ascii c)) 128); [|lia].
  by rewrite IH.
Qed.

Lemma length_bytesOf (s : string) : length (bytesOf s) = String.length s.
Proof. induction s as [|c s IH]; simpl; [done | by rewrite IH]. Qed.

(** X11.  In every mode the payload that [send] hands to the device is a
    list of bytes (values from 0 to 255).  In mode [ascii], and in every
    mode other than [hex] and [binary], the bytes are those of the text in
    UTF-8 followed by one LF: for a text of characters below 128, one byte
    per character, the code of the character, and then the byte 10. *)
Theorem payload_is_bytes_and_ascii_appends_LF (md text : string) :
  Forall isByte (Encoding.encode md text)
  /\ (md <> "hex" -> md <> "binary" ->
      Encoding.encode md text = Buffer.fromUtf8 text ++ [10]
      /\ (isAscii text = true ->
          Encoding.encode md text = bytesOf text ++ [10]
          /\ length (Encoding.encode md text) = S (String.length text))).
Proof.
  unfold Encoding.encode. split.
  - destruct (String.eqb md "hex"); [apply fromHex_bytes|].
    destruct (String.eqb md "binary").
    + unfold Encoding.binaryBytes, Buffer.fromArray.
      apply Forall_forall. intros b Hb. apply list_elem_of_fmap in Hb as (v & -> & _).
      unfold isByte, Buffer.toUint8. destruct v; [|lia].
      apply Z.mod_pos_bound. lia.
    + apply fromUtf8_bytes.
  - intros H1 H2. apply String.eqb_neq in H1. apply String.eqb_neq in H2.
    rewrite H1, H2. unfold Encoding.asciiBytes. rewrite fromUtf8_app.
    split; [done|]. intros Hascii. rewrite fromUtf8_ascii by done.
    split; [done|]. rewrite length_app, length_bytesOf. simpl. lia.
Qed.

Lemma payload_is_bytes_and_ascii_appends_LF_witness :
  Encoding.encode "ascii" "AT" = [65; 84; 10]
  /\ length (Encoding.encode "ascii" "AT") = 3%nat.
Proof.
  destruct (payload_is_bytes_and_ascii_appends_LF "ascii" "AT") as [_ H].
  destruct H as [_ H]; [discriminate | discriminate |].
  destruct H as [H1 H2]; [reflexivity|]. split; [exact H1 | exact H2].
Defined.

Lemma unhex_hexDigit (d : Z) :
  0 <= d < 16 -> Buffer.unhex (WsHandler.hexDigit d) = Some d.
Proof.
  intros H.
  assert (d = 0 \/ d = 1 \/ d = 2 \/ d = 3 \/ d = 4 \/ d = 5 \/ d = 6 \/ d = 7
          \/ d = 8 \/ d = 9 \/ d = 10 \/ d = 11 \/ d = 12 \/ d = 13 \/ d = 14
          \/ d = 15) as Hd by lia.
  repeat (destruct Hd as [-> | Hd]; [reflexivity|]). by subst.
Qed.

Lemma hexDigit_not_space (d : Z) :
  0 <= d < 16 -> Js.isWhiteSpace (WsHandler.hexDigit d) = false.
Proof.
  intros H.
  assert (d = 0 \/ d = 1 \/ d = 2 \/ d = 3 \/ d = 4 \/ d = 5 \/ d = 6 \/ d = 7
          \/ d = 8 \/ d = 9 \/ d = 10 \/ d = 11 \/ d = 12 \/ d = 13 \/ d = 14
          \/ d = 15) as Hd by lia.
  repeat (destruct Hd as [-> | Hd]; [reflexivity|]). by subst.
Qed.

Lemma stripWhiteSpace_app (a b : string) :
  Js.stripWhiteSpace (a +:+ b) = Js.stripWhiteSpace a +:+ Js.stripWhiteSpace b.
Proof.
  unfold Js.stripWhiteSpace. induction a as [|c a IH]; [done|].
  rewrite append_cons. simpl. destruct (negb (Js.isWhiteSpace c)); [|done].
  by rewrite append_cons, IH.
Qed.

Lemma code_halves (c : ascii) :
  let n := Z.of_nat (nat_of_ascii c) in
  0 <= n / 16 < 16 /\ 0 <= n mod 16 < 16 /\ 16 * (n / 16) + n mod 16 = n.
Proof.
  intros n. pose proof (nat_ascii_bounded c) as Hc.
  assert (0 <= n < 256) as Hn by (subst n; lia).
  split; [|split].
  - split; [apply Z.div_pos; lia | apply Z.div_lt_upper_bound; lia].
  - apply Z.mod_pos_bound. lia.
  - symmetry. apply Z.div_mod. lia.
Qed.

(** X12.  The hex text that the server broadcasts for the raw bytes of a
    chunk ([serial:raw]) is read back by mode [hex] as exactly these bytes,
    also when white space is put between two of its parts. *)
Theorem raw_hex_is_read_back_by_hex_mode (chunk rest : string) (gap : string) :
  Js.stripWhiteSpace gap = EmptyString ->
  Encoding.hexBytes (WsHandler.toHex chunk) = bytesOf chunk
  /\ Encoding.hexBytes (WsHandler.toHex chunk +:+ gap +:+ WsHandler.toHex rest)
     = bytesOf chunk ++ bytesOf rest.
Proof.
  intros Hgap.
  assert (forall s, Js.stripWhiteSpace (WsHandler.toHex s) = WsHandler.toHex s) as Hstrip.
  { induction s as [|c s IH]; [done|]. simpl.
    destruct (code_halves c) as (H1 & H2 & _).
    unfold Js.stripWhiteSpace in *. simpl.
    rewrite !hexDigit_not_space by done. simpl. by rewrite IH. }
  assert (forall s t, Buffer.fromHex (WsHandler.toHex s +:+ t)
                      = bytesOf s ++ Buffer.fromHex t) as Hread.
  { induction s as [|c s IH]; intros t; [done|]. simpl.
    destruct (code_halves c) as (H1 & H2 & H3).
    rewrite !unhex_hexDigit by done. rewrite IH. by rewrite H3. }
  unfold Encoding.hexBytes. split.
  - rewrite Hstrip. rewrite <- (append_nil_r (WsHandler.toHex chunk)).
    rewrite Hread. simpl. by rewrite app_nil_r.
  - rewrite !stripWhiteSpace_app, Hgap, !Hstrip, append_nil_l.
    rewrite Hread. rewrite <- (append_nil_r (WsHandler.toHex rest)).
    rewrite Hread. simpl. by rewrite app_nil_r.
Qed.

Lemma raw_hex_is_read_back_by_hex_mode_witness :
  Encoding.hexBytes (WsHandler.toHex "AT" +:+ " " +:+ WsHandler.toHex "Z")
  = [65; 84; 90].
Proof.
  destruct (raw_hex_is_read_back_by_hex_mode "AT" "Z" " " eq_refl) as [_ H].
  exact H.
Defined.

End PayloadBytes.

(** ** The Modbus RTU decoder *)

Section ModbusFrames.

Import Observed.

Lemma lxor_bound (a b n : Z) :
  0 <= n -> 0 <= a < 2 ^ n -> 0 <= b < 2 ^ n -> 0 <= Z.lxor a b < 2 ^ n.
Proof.
  intros Hn Ha Hb.
  assert (0 <= Z.lxor a b) as Hpos by (apply Z.lxor_nonneg; lia).
  split; [done|].
  destruct (Z.eq_dec (Z.lxor a b) 0) as [->|Hne]; [lia|].
  assert (0 < n) as Hn'.
  { destruct (Z.eq_dec n 0) as [->|]; [|lia]. exfalso. apply Hne.
    assert (a = 0) as -> by (simpl in Ha; lia).
    assert (b = 0) as -> by (simpl in Hb; lia). done. }
  apply Z.log2_lt_pow2; [lia|].
  eapply Z.le_lt_trans; [apply Z.log2_lxor; lia|].
  apply Z.max_lub_lt.
  - destruct (Z.eq_dec a 0) as [->|]; [simpl; lia|]. apply Z.log2_lt_pow2; lia.
  - destruct (Z.eq_dec b 0) as [->|]; [simpl; lia|]. apply Z.log2_lt_pow2; lia.
Qed.

Lemma crcBit_bound (crc : Z) : 0 <= crc < 65536 -> 0 <= Modbus.crcBit crc < 65536.
Proof.
  intros H. unfold Modbus.crcBit.
  assert (0 <= Z.shiftr crc 1 < 65536) as Hs.
  { rewrite Z.shiftr_div_pow2 by lia. change (2 ^ 1) with 2.
    split; [apply Z.div_pos; lia | apply Z.div_lt_upper_bound; lia]. }
  destruct (_ =? 0); [done|].
  apply (lxor_bound _ _ 16); [lia | done | lia].
Qed.

Lemma crcByte_bound (crc byte : Z) :
  0 <= crc < 65536 -> isByte byte -> 0 <= Modbus.crcByte crc byte < 65536.
Proof.
  intros Hc Hb. unfold Modbus.crcByte, isByte in *.
  assert (0 <= Z.lxor crc byte < 65536) as H
    by (apply (lxor_bound _ _ 16); lia).
  simpl. repeat apply crcBit_bound. done.
Qed.

Lemma crc16_bound (buffer : list Z) :
  Forall isByte buffer -> 0 <= Modbus._crc16 buffer < 65536.
Proof.
  unfold Modbus._crc16. assert (0 <= 65535 < 65536) as H by lia.
  revert H. generalize 65535. intros crc H Hb. revert crc H.
  induction Hb as [|b bs Hb _ IH]; intros crc H; simpl; [done|].
  apply IH. by apply crcByte_bound.
Qed.

Lemma exception_bit (code : Z) :
  isByte code -> (Z.land code 128 =? 0) = (code <? 128).
Proof.
  intros H. unfold isByte in H.
  assert (forall c : ascii,
            (Z.land (Z.of_nat (nat_of_ascii c)) 128 =? 0)
            = (Z.of_nat (nat_of_ascii c) <? 128)) as Hall
    by (intros [[] [] [] [] [] [] [] []]; vm_compute; reflexivity).
  specialize (Hall (ascii_of_nat (Z.to_nat code))).
  rewrite nat_ascii_embedding in Hall by lia.
  by rewrite Z2Nat.id in Hall by lia.
Qed.

Lemma functionNames_range (code : Z) :
  is_Some (Modbus.functionNames code) -> 1 <= code <= 23.
Proof.
  unfold Modbus.functionNames. intros [v H].
  repeat (match type of H with
          | (if ?x =? ?y then _ else _) = _ =>
              destruct (Z.eqb_spec x y); [lia|]
          end).
  done.
Qed.

(** What [decodeFrame] reads of a frame made of a body and two more
    bytes. *)
Lemma decodeFrame_parts (body : list Z) (lo hi : Z) :
  (2 <= length body)%nat ->
  let frame := body ++ [lo; hi] in
  (length frame <? 4)%nat = false
  /\ nth 0 frame 0 = nth 0 body 0
  /\ nth 1 frame 0 = nth 1 body 0
  /\ nth (length frame - 2) frame 0 = lo
  /\ nth (length frame - 1) frame 0 = hi
  /\ take (length frame - 2) frame = body.
Proof.
  intros Hlen frame. subst frame. rewrite length_app. simpl.
  replace (length body + 2 - 2)%nat with (length body) by lia.
  replace (length body + 2 - 1)%nat with (S (length body)) by lia.
  split; [apply Nat.ltb_ge; lia|].
  split; [apply app_nth1; lia|]. split; [apply app_nth1; lia|].
  split; [rewrite app_nth2 by lia; by rewrite Nat.sub_diag|].
  split; [rewrite app_nth2 by lia;
          by replace (S (length body) - length body)%nat with 1%nat by lia|].
  by rewrite take_app_length.
Qed.

(** X13.  The CRC that the Modbus decoder computes has 16 bits.  A frame
    made of a body of two or more bytes and of the CRC of that body, low
    byte first, is decoded when the function code (the second byte) is a
    known one or has the exception bit, with [crcValid] true, the first
    byte as slave address and the bytes after the second as payload; with
    any other two last bytes it is decoded all the same, with [crcValid]
    false.  A frame with an unknown function code without the exception
    bit, and any data of fewer than four bytes, give [null]. *)
Theorem modbus_checks_the_crc_of_the_body (body : list Z) :
  Forall isByte body -> (2 <= length body)%nat ->
  let crc := Modbus._crc16 body in
  let code := nth 1 body 0 in
  0 <= crc < 65536
  /\ (forall lo hi,
        is_Some (Modbus.functionNames code) \/ 128 <= code ->
        exists f, Modbus.decodeFrame (body ++ [lo; hi]) = Some f
          /\ Frame.field "crcValid" f = Some (FBoolean (lo + 256 * hi =? crc))
          /\ Frame.field "slaveAddress" f = Some (FNumber (nth 0 body 0))
          /\ Frame.field "payload" f = Some (FString (Modbus.toHex (drop 2 body)))
          /\ Frame.field "payloadLength" f
             = Some (FNumber (Z.of_nat (length body - 2))))
  /\ (crc mod 256 + 256 * (crc / 256) =? crc) = true
  /\ (forall lo hi,
        Modbus.functionNames code = None -> code < 128 ->
        Modbus.decodeFrame (body ++ [lo; hi]) = None)
  /\ (forall data, (length data < 4)%nat -> Modbus.decodeFrame data = None).
Proof.
  intros Hbytes Hlen crc code.
  assert (isByte code) as Hcode.
  { subst code. rewrite Forall_forall in Hbytes. apply Hbytes.
    apply list_elem_of_In. apply nth_In. lia. }
  split; [by apply crc16_bound|]. split; [|split; [|split]].
  - intros lo hi Hknown.
    destruct (decodeFrame_parts body lo hi Hlen) as (H1 & H2 & H3 & H4 & H5 & H6).
    unfold Modbus.decodeFrame. cbv zeta. rewrite H1, H2, H3, H4, H5, H6.
    fold code. fold crc. rewrite (exception_bit code Hcode).
    assert ((negb (bool_decide
               (is_Some (Modbus.functionNames
                  (if negb (code <? 128) then Z.land code 127 else code))))
             && negb (negb (code <? 128))) = false) as ->.
    { destruct (Z.ltb_spec code 128); simpl; [|by rewrite andb_false_r].
      destruct Hknown as [Hk|]; [|lia].
      rewrite bool_decide_true by done. done. }
    eexists. split; [reflexivity|].
    split; [reflexivity|]. split; [reflexivity|]. split; [reflexivity|].
    unfold Frame.field. simpl. rewrite length_drop. do 3 f_equal.
  - apply Z.eqb_eq. rewrite Z.add_comm. symmetry.
    rewrite Z.mul_comm. rewrite (Z.mul_comm (crc / 256)). apply Z.div_mod. lia.
  - intros lo hi Hnone Hlow.
    destruct (decodeFrame_parts body lo hi Hlen) as (H1 & H2 & H3 & H4 & H5 & H6).
    unfold Modbus.decodeFrame. cbv zeta. rewrite H1, H3. fold code.
    rewrite (exception_bit code Hcode).
    destruct (Z.ltb_spec code 128); [|lia]. simpl. rewrite Hnone.
    rewrite bool_decide_false by (by intros [? ?]). done.
  - intros data Hshort. unfold Modbus.decodeFrame.
    apply Nat.ltb_lt in Hshort. by rewrite Hshort.
Qed.

Lemma modbus_checks_the_crc_of_the_body_witness :
  exists f, Modbus.decodeFrame Examples.holdingRegisters = Some f
    /\ Frame.field "crcValid" f = Some (FBoolean true).
Proof.
  destruct (modbus_checks_the_crc_of_the_body [1; 3; 2; 0; 10])
    as (_ & H & _).
  - repeat constructor; unfold isByte; lia.
  - simpl. lia.
  - destruct (H 56 67) as (f & H1 & H2 & _); [left; vm_compute; eauto|].
    exists f. split; [exact H1 | exact H2].
Defined.

End ModbusFrames.

(** ** The SLIP decoder and the example decoder *)

Section SlipFrames.

Lemma escape_no_END (packet : list Z) :
  Forall (fun b => b <> Slip.END) (Slip.escape packet).
Proof.
  induction packet as [|b packet IH]; simpl; [done|].
  destruct (Z.eqb_spec b Slip.END); [by repeat constructor|].
  destruct (Z.eqb_spec b Slip.ESC); by repeat constructor.
Qed.

Lemma afterFirst_app (a rest : list Z) :
  Forall (fun b => b <> Slip.END) a ->
  Slip.afterFirst Slip.END (a ++ Slip.END :: rest) = Some rest.
Proof.
  induction 1 as [|b a Hb _ IH]; simpl; [done|].
  by destruct (Z.eqb_spec b Slip.END).
Qed.

Lemma afterFirst_none (a : list Z) :
  Forall (fun b => b <> Slip.END) a -> Slip.afterFirst Slip.END a = None.
Proof.
  induction 1 as [|b a Hb _ IH]; simpl; [done|].
  by destruct (Z.eqb_spec b Slip.END).
Qed.

Lemma upTo_app (a rest : list Z) :
  Forall (fun b => b <> Slip.END) a ->
  Slip.upTo Slip.END (a ++ Slip.END :: rest) = a /\ Slip.upTo Slip.END a = a.
Proof.
  induction 1 as [|b a Hb _ [IH1 IH2]]; simpl; [done|].
  destruct (Z.eqb_spec b Slip.END); [done|]. by rewrite IH1, IH2.
Qed.

Lemma unescape_escape (packet : list Z) : Slip.unescape (Slip.escape packet) = packet.
Proof.
  induction packet as [|b packet IH]; simpl; [done|].
  destruct (Z.eqb_spec b Slip.END) as [->|]; [simpl; by rewrite IH|].
  destruct (Z.eqb_spec b Slip.ESC) as [->|Hesc]; [simpl; by rewrite IH|].
  simpl. destruct (Z.eqb_spec b Slip.ESC); [done|]. by rewrite IH.
Qed.

Lemma length_escape (packet : list Z) :
  Z.of_nat (length (Slip.escape packet))
  = Z.of_nat (length packet) + Slip.escapes packet.
Proof.
  induction packet as [|b packet IH]; simpl length; simpl Slip.escapes; [done|].
  simpl Slip.escape.
  destruct (Z.eqb_spec b Slip.END); simpl; [lia|].
  destruct (Z.eqb_spec b Slip.ESC); simpl; lia.
Qed.

(** X14.  The SLIP decoder looks at what stands between the first END byte
    of the data and the next END (or the end of the data).  When that is a
    packet with the escapes of RFC 1055, it gives the packet back: its hex,
    its length, the length on the line and the number of escaped bytes;
    what stands before the first END and after the second is ignored.  Data
    without an END byte gives [null], and so does a packet that is only
    followed by an END and not preceded by one. *)
Theorem slip_recovers_an_escaped_packet (junk packet tail : list Z) :
  Forall (fun b => b <> Slip.END) junk -> packet <> [] ->
  let line := junk ++ Slip.END :: Slip.escape packet in
  (exists f,
      Slip.decodeFrame (line ++ Slip.END :: tail) = Some f
      /\ Slip.decodeFrame line = Some f
      /\ Frame.field "decodedHex" f = Some (FString (Modbus.toHex packet))
      /\ Frame.field "decodedLength" f = Some (FNumber (Z.of_nat (length packet)))
      /\ Frame.field "encodedLength" f
         = Some (FNumber (Z.of_nat (length packet) + Slip.escapes packet))
      /\ Frame.field "escapedBytes" f = Some (FNumber (Slip.escapes packet)))
  /\ Slip.decodeFrame (junk ++ Slip.escape packet ++ [Slip.END]) = None
  /\ Slip.decodeFrame junk = None.
Proof.
  intros Hjunk Hpacket line. subst line.
  pose proof (escape_no_END packet) as Hesc.
  assert ((length (Slip.escape packet) =? 0)%nat = false) as Hlen.
  { destruct packet as [|b packet]; [done|]. simpl.
    destruct (_ =? Slip.END); [done|]. by destruct (_ =? Slip.ESC). }
  split; [|split].
  - unfold Slip.decodeFrame.
    rewrite <- !app_assoc. simpl. rewrite !afterFirst_app by done.
    destruct (upTo_app (Slip.escape packet) tail Hesc) as [-> ->].
    rewrite Hlen, unescape_escape.
    eexists. split; [reflexivity|]. split; [reflexivity|].
    unfold Frame.field. simpl. rewrite length_escape.
    split; [done|]. split; [done|]. split; [done|]. do 2 f_equal. lia.
  - unfold Slip.decodeFrame. rewrite app_assoc.
    rewrite afterFirst_app by (by apply Forall_app). done.
  - unfold Slip.decodeFrame. by rewrite afterFirst_none.
Qed.

Lemma slip_recovers_an_escaped_packet_witness :
  exists f,
    Slip.decodeFrame [1; 192; 65; 219; 220; 66; 192; 3] = Some f
    /\ Frame.field "decodedHex" f = Some (FString "41c042").
Proof.
  destruct (slip_recovers_an_escaped_packet [1] [65; 192; 66] [3])
    as [(f & H1 & _ & H2 & _) _].
  - repeat constructor. discriminate.
  - discriminate.
  - exists f. split; [exact H1 | exact H2].
Defined.

(** X15.  The example decoder gives a frame exactly for data of three or
    more bytes whose first byte is 0xAA.  The second byte is reported as
    the length, and the payload is the bytes that follow, at most as many
    as the second byte says: when fewer are there, the payload is what is
    there. *)
Theorem example_decoder_reads_what_is_there (data : list Z) :
  (ExampleDecoder.decodeFrame data = None
   <-> (length data < 3)%nat \/ nth 0 data 0 <> 170)
  /\ (forall len payload,
        data = 170 :: len :: payload -> payload <> [] -> 0 <= len ->
        exists f, ExampleDecoder.decodeFrame data = Some f
          /\ Frame.field "length" f = Some (FNumber len)
          /\ Frame.field "payload" f
             = Some (FString (Modbus.toHex (take (Z.to_nat len) payload)))).
Proof.
  split.
  - unfold ExampleDecoder.decodeFrame.
    destruct (Nat.ltb_spec (length data) 3), (Z.eqb_spec (nth 0 data 0) 170);
      simpl; split; try done; try (intros _; by left); try (intros _; by right).
    intros [?|?]; [lia | done].
  - intros len payload -> Hne Hlen. unfold ExampleDecoder.decodeFrame.
    destruct payload as [|b payload]; [done|]. simpl length. simpl nth.
    simpl orb. cbv iota.
    rewrite (slice_window (170 :: len :: b :: payload) 2 len) by lia.
    eexists. split; [reflexivity|]. done.
Qed.

Lemma example_decoder_reads_what_is_there_witness :
  exists f, ExampleDecoder.decodeFrame [170; 5; 1; 2] = Some f
    /\ Frame.field "payload" f = Some (FString "0102").
Proof.
  destruct (example_decoder_reads_what_is_there [170; 5; 1; 2]) as [_ H].
  destruct (H 5 [1; 2]) as (f & H1 & _ & H2); [reflexivity | discriminate | lia |].
  exists f. split; [exact H1 | exact H2].
Defined.

End SlipFrames.

(** ** Loading the decoders *)

Section Loading.

Lemma loadFiles_app (a b : list (string * Required)) :
  Loader.loadFiles (a ++ b) = Loader.loadFiles a ++ Loader.loadFiles b.
Proof.
  induction a as [|[file r] a IH]; [done|].
  simpl. by rewrite IH, app_assoc.
Qed.

Lemma load_named (r : Required) :
  Forall (fun p => name p <> EmptyString) (Loader.load r).
Proof.
  destruct r as [m|[n|] d [f|]]; simpl; try by constructor.
  destruct (String.eqb n "") eqn:E; simpl; [by constructor|].
  constructor; [|by constructor].
  simpl. intros ->. by rewrite String.eqb_refl in E.
Qed.

Lemma loadFiles_named (files : list (string * Required)) :
  Forall (fun p => name p <> EmptyString) (Loader.loadFiles files).
Proof.
  induction files as [|[file r] files IH]; [by constructor|].
  simpl. apply Forall_app. split; [apply load_named|done].
Qed.

Lemma load_unusable (r : Required) :
  Loader.unusable r -> Loader.load r = [].
Proof.
  destruct r as [m|n d f]; [done|].
  simpl. intros [-> | [-> | ->]]; [done | | by destruct n].
  by destruct f.
Qed.

Lemma loadAll_split (before after : list (string * Required))
    (file : string) (r : Required) :
  fst (Loader.loadAll (Some (before ++ (file, r) :: after)))
  = fst (Loader.loadAll (Some before))
    ++ (if Loader.endsWith ".js" file then Loader.load r else [])
    ++ fst (Loader.loadAll (Some after)).
Proof.
  unfold Loader.loadAll. simpl.
  rewrite List.filter_app, loadFiles_app. f_equal.
  simpl. by destruct (Loader.endsWith ".js" file).
Qed.

(** X16: [loadAll] registers the decoders of the plugin directory in the
    order of the listing.  Every registered decoder has a name that is not
    empty; a file whose name does not end in [.js], whose [require] throws
    or that exports no name or no [decode] function is passed over and
    changes nothing for the other files; a [.js] file that exports a name
    and a [decode] function is registered between the decoders of the files
    listed before it and those of the files listed after it. *)
Theorem loadAll_registers_the_decoders_and_skips_the_rest
    (before after : list (string * Required)) (file : string) (r : Required)
    (n : string) (d : option string) (f : list Z -> DecodeOutcome) :
  let plugins l := fst (Loader.loadAll (Some l)) in
  Forall (fun p => name p <> EmptyString) (plugins (before ++ (file, r) :: after))
  /\ (Loader.endsWith ".js" file = false \/ Loader.unusable r ->
      plugins (before ++ (file, r) :: after) = plugins (before ++ after))
  /\ (Loader.endsWith ".js" file = true -> n <> EmptyString ->
      r = Exports (Some n) d (Some f) ->
      plugins (before ++ (file, r) :: after)
      = plugins before
        ++ {| name := n; description := d; decode := f |} :: plugins after).
Proof.
  intros plugins. unfold plugins. split; [|split].
  - apply loadFiles_named.
  - intros H. rewrite loadAll_split.
    assert ((if Loader.endsWith ".js" file then Loader.load r else []) = [])
      as ->.
    { destruct H as [-> | H]; [done|].
      rewrite (load_unusable _ H). by destruct (Loader.endsWith ".js" file). }
    simpl. unfold Loader.loadAll. simpl.
    by rewrite List.filter_app, loadFiles_app.
  - intros Hjs Hn ->. rewrite loadAll_split, Hjs. simpl.
    destruct (String.eqb n "") eqn:E; [|done].
    by apply String.eqb_eq in E.
Qed.

Lemma loadAll_registers_the_decoders_and_skips_the_rest_witness :
  let plugins l := fst (Loader.loadAll (Some l)) in
  let listing :=
    [("modbus.js", Exports (Some "Modbus RTU") None (Some (decode Modbus.plugin)))]
    ++ ("broken.js", RequireThrows "Unexpected token")
    :: [("README.md", Exports None None None);
        ("slip.js", Exports (Some "SLIP") None (Some (decode Slip.plugin)))] in
  map name (plugins listing) = ["Modbus RTU"; "SLIP"]
  /\ Loader.unusable (RequireThrows "Unexpected token").
Proof.
  pose proof (loadAll_registers_the_decoders_and_skips_the_rest
    [("modbus.js", Exports (Some "Modbus RTU") None (Some (decode Modbus.plugin)))]
    [("README.md", Exports None None None);
     ("slip.js", Exports (Some "SLIP") None (Some (decode Slip.plugin)))]
    "broken.js" (RequireThrows "Unexpected token")
    "x" None (decode Modbus.plugin)) as H.
  cbv zeta in H. destruct H as [_ [H _]].
  cbv zeta. split; [|exact I].
  rewrite (H (or_intror I)). vm_compute. reflexivity.
Defined.

End Loading.

(** ** Watching the ports *)

Section Polling.

Lemma split_at_comma (s s' r r' : string) :
  Js.contains "," s = false -> Js.contains "," s' = false ->
  s +:+ String "," r = s' +:+ String "," r' -> s = s' /\ r = r'.
Proof.
  revert s'. induction s as [|x s IH]; intros [|y s'] Hs Hs' H.
  - rewrite !append_nil_l in H. by injection H as ->.
  - rewrite append_nil_l, append_cons in H. injection H as <- _.
    simpl in Hs'. done.
  - rewrite append_nil_l, append_cons in H. injection H as -> _.
    simpl in Hs. done.
  - rewrite !append_cons in H. injection H as -> H.
    simpl in Hs, Hs'.
    destruct (Ascii.eqb y ","); [done|].
    destruct (IH s' Hs Hs' H) as [-> ->]. done.
Qed.

Lemma join_cons (s x : string) (l : list string) :
  Ports.join (s :: x :: l) = s +:+ String "," (Ports.join (x :: l)).
Proof. done. Qed.

Lemma join_head (s : string) (l : list string) :
  exists t, Ports.join (s :: l) = s +:+ t.
Proof.
  destruct l as [|x l].
  - exists EmptyString. simpl. by rewrite append_nil_r.
  - eexists. apply join_cons.
Qed.

Lemma join_nonempty (s : string) (l : list string) :
  Ports.plain s -> Ports.join (s :: l) <> EmptyString.
Proof.
  intros [Hs _] H. destruct (join_head s l) as [t Ht].
  rewrite Ht in H. destruct s; [done|].
  by rewrite append_cons in H.
Qed.

Lemma join_inj (l1 l2 : list string) :
  Forall Ports.plain l1 -> Forall Ports.plain l2 ->
  Ports.join l1 = Ports.join l2 -> l1 = l2.
Proof.
  revert l2. induction l1 as [|s1 l1 IH]; intros [|s2 l2] H1 H2 H.
  - done.
  - apply Forall_cons in H2 as [H2 _]. symmetry in H.
    by apply join_nonempty in H.
  - apply Forall_cons in H1 as [H1 _]. by apply join_nonempty in H.
  - apply Forall_cons in H1 as [[_ Hc1] H1].
    apply Forall_cons in H2 as [[_ Hc2] H2].
    destruct l1 as [|x1 l1], l2 as [|x2 l2].
    + simpl in H. by subst.
    + rewrite join_cons in H. simpl in H. subst s1.
      rewrite contains_app in Hc1. simpl in Hc1.
      by rewrite orb_true_r in Hc1.
    + rewrite join_cons in H. simpl in H. subst s2.
      rewrite contains_app in Hc2. simpl in Hc2.
      by rewrite orb_true_r in Hc2.
    + rewrite !join_cons in H.
      destruct (split_at_comma _ _ _ _ Hc1 Hc2 H) as [-> H'].
      f_equal. by apply IH.
Qed.

Lemma sort_Permutation (l : list string) : Ports.sort l ≡ₚ l.
Proof. apply merge_sort_Permutation. Qed.

Lemma sort_eq (l1 l2 : list string) :
  Ports.sort l1 = Ports.sort l2 <-> l1 ≡ₚ l2.
Proof.
  split.
  - intros H. rewrite <- (sort_Permutation l1), H. apply sort_Permutation.
  - intros H. apply (Sorted_unique String.le).
    + apply Sorted_merge_sort, _.
    + apply Sorted_merge_sort, _.
    + by rewrite !sort_Permutation.
Qed.

Lemma sort_plain (l : list string) :
  Forall Ports.plain l -> Forall Ports.plain (Ports.sort l).
Proof. intros H. by rewrite sort_Permutation. Qed.

Lemma joined_eq (l1 l2 : list string) :
  Forall Ports.plain l1 -> Forall Ports.plain l2 ->
  Ports.join (Ports.sort l1) = Ports.join (Ports.sort l2) <-> l1 ≡ₚ l2.
Proof.
  intros H1 H2. rewrite <- sort_eq. split; [|by intros ->].
  apply join_inj; by apply sort_plain.
Qed.

Lemma poll_same (available : bool) (listed : option (list OsPort)) (p : Poller) :
  Forall Ports.plain (map portPath (Ports.listPorts available listed)) ->
  Forall Ports.plain (_lastPortPaths p) ->
  map portPath (Ports.listPorts available listed) ≡ₚ _lastPortPaths p ->
  Ports.poll available listed p
  = ({| _lastPortPaths := Ports.sort (_lastPortPaths p);
        _portPollInterval := _portPollInterval p |}, None).
Proof.
  intros H1 H2 H. unfold Ports.poll.
  apply (joined_eq _ _ H1 H2) in H. rewrite H.
  by rewrite String.eqb_refl.
Qed.

Lemma poll_changed (available : bool) (listed : option (list OsPort)) (p : Poller) :
  Forall Ports.plain (map portPath (Ports.listPorts available listed)) ->
  Forall Ports.plain (_lastPortPaths p) ->
  ~ map portPath (Ports.listPorts available listed) ≡ₚ _lastPortPaths p ->
  Ports.poll available listed p
  = ({| _lastPortPaths := map portPath (Ports.listPorts available listed);
        _portPollInterval := _portPollInterval p |},
     Some (Ports.listPorts available listed)).
Proof.
  intros H1 H2 H. unfold Ports.poll.
  destruct (String.eqb _ _) eqn:E; [|done].
  apply String.eqb_eq in E. by apply (joined_eq _ _ H1 H2) in E.
Qed.

(** X17: a round of the port polling tells whether the set of ports has
    changed, whatever the order in which the ports are listed.  For paths
    that are not empty and hold no comma: when the listed paths are the
    known ones in some order, no [ports-changed] event is emitted and the
    known paths stay the same up to their order; otherwise the event carries
    the listed ports and the listed paths become the known ones. *)
Theorem polling_reports_exactly_the_changes
    (available : bool) (listed : option (list OsPort)) (p : Poller) :
  let ports := Ports.listPorts available listed in
  let round := Ports.poll available listed p in
  Forall Ports.plain (map portPath ports) ->
  Forall Ports.plain (_lastPortPaths p) ->
  (map portPath ports ≡ₚ _lastPortPaths p ->
   snd round = None /\ _lastPortPaths (fst round) ≡ₚ _lastPortPaths p)
  /\ (~ map portPath ports ≡ₚ _lastPortPaths p ->
      snd round = Some ports /\ _lastPortPaths (fst round) = map portPath ports)
  /\ _portPollInterval (fst round) = _portPollInterval p.
Proof.
  intros ports round H1 H2. unfold round, ports.
  destruct (decide (map portPath (Ports.listPorts available listed)
                      ≡ₚ _lastPortPaths p)) as [H|H].
  - rewrite (poll_same _ _ _ H1 H2 H). simpl. split; [|split]; [|done..].
    intros _. split; [done|]. apply sort_Permutation.
  - rewrite (poll_changed _ _ _ H1 H2 H). simpl. by split; [|split].
Qed.

Lemma polling_reports_exactly_the_changes_witness :
  snd (Ports.poll true
         (Some [Hardware.port "/dev/ttyUSB1"; Hardware.port "/dev/ttyUSB0"])
         (Hardware.watching ["/dev/ttyUSB0"; "/dev/ttyUSB1"])) = None
  /\ snd (Ports.poll true
            (Some [Hardware.port "/dev/ttyUSB1"])
            (Hardware.watching ["/dev/ttyUSB0"]))
     = Some (Ports.listPorts true (Some [Hardware.port "/dev/ttyUSB1"])).
Proof.
  split.
  - refine (proj1 (proj1 (polling_reports_exactly_the_changes true
      (Some [Hardware.port "/dev/ttyUSB1"; Hardware.port "/dev/ttyUSB0"])
      (Hardware.watching ["/dev/ttyUSB0"; "/dev/ttyUSB1"]) _ _) _)).
    + repeat (constructor; [by split|]). constructor.
    + repeat (constructor; [by split|]). constructor.
    + apply perm_swap.
  - refine (proj1 (proj1 (proj2 (polling_reports_exactly_the_changes true
      (Some [Hardware.port "/dev/ttyUSB1"])
      (Hardware.watching ["/dev/ttyUSB0"]) _ _)) _)).
    + repeat (constructor; [by split|]). constructor.
    + repeat (constructor; [by split|]). constructor.
    + simpl. intros H. apply Permutation_singleton_l in H. done.
Defined.

(** X18: a listing that fails looks like an unplugging of every port.
    When ports are known (their paths not empty and without a comma) and
    [SerialPort.list] fails, or the package is missing, the round emits
    [ports-changed] with no port and forgets the known paths; a second
    failing round then emits nothing. *)
Theorem a_failed_listing_reports_every_port_gone
    (available : bool) (p : Poller) :
  let first := Ports.poll available None p in
  let second := Ports.poll available None (fst first) in
  _lastPortPaths p <> [] ->
  Forall Ports.plain (_lastPortPaths p) ->
  snd first = Some [] /\ _lastPortPaths (fst first) = []
  /\ snd second = None /\ _lastPortPaths (fst second) = [].
Proof.
  intros first second Hne Hp. unfold second, first.
  assert (Ports.listPorts available None = []) as Hl.
  { unfold Ports.listPorts. by destruct available. }
  assert (Forall Ports.plain (map portPath (Ports.listPorts available None)))
    as H1 by (rewrite Hl; constructor).
  rewrite (poll_changed _ _ _ H1 Hp).
  - simpl. rewrite Hl. simpl. split; [done|]. split; [done|].
    rewrite poll_same; simpl; rewrite ?Hl; simpl; try done.
  - rewrite Hl. simpl. intros H. symmetry in H.
    by apply Permutation_nil_r in H.
Qed.

Lemma a_failed_listing_reports_every_port_gone_witness :
  snd (Ports.poll true None (Hardware.watching ["/dev/ttyUSB0"])) = Some [].
Proof.
  refine (proj1 (a_failed_listing_reports_every_port_gone true
    (Hardware.watching ["/dev/ttyUSB0"]) _ _)).
  - done.
  - repeat (constructor; [by split|]). constructor.
Defined.

End Polling.

(** ** Running a macro: a closed channel, and what reaches the device *)

Section RunEdges.

Lemma not_linked (channelId : string) (m : SerialManager) :
  ~ Trace.linked channelId m ->
  connections m !! channelId = None
  \/ exists c, connections m !! channelId = Some c
       /\ (port c = None \/ connected c = false).
Proof.
  intros H. destruct (connections m !! channelId) as [c|] eqn:E; [|by left].
  right. exists c. split; [done|].
  destruct (port c) as [p|] eqn:Ep; [|by left].
  destruct (connected c) eqn:Ec; [|by right].
  exfalso. apply H. exists c. rewrite Ep, Ec. by split; [|split; [eexists|]].
Qed.

Lemma callSend_closed (world : nat -> World) (channelId data mode : string)
    (s : MacroEngine.RunState) :
  ~ Trace.linked channelId (MacroEngine.mgr s) ->
  MacroEngine.callSend world channelId data mode s
  = (Throw Manager.NOT_CONNECTED,
     {| MacroEngine.mgr := MacroEngine.mgr s;
        MacroEngine.effects := MacroEngine.effects s ++ [];
        MacroEngine.actions :=
          MacroEngine.actions s ++ [Sent channelId data mode];
        MacroEngine.sends := S (MacroEngine.sends s) |}).
Proof.
  intros H. unfold MacroEngine.callSend.
  by rewrite (send_closed _ _ _ _ _ _ (not_linked _ _ H)).
Qed.

Lemma repeats_once (macro : Macro) :
  (forall n, repeatCount macro = Some n -> 0 <= n) ->
  exists k, Z.to_nat (Manager.orDefaultZ (repeatCount macro) 1) = S k.
Proof.
  intros H. unfold Manager.orDefaultZ.
  destruct (repeatCount macro) as [n|]; [|by exists 0%nat].
  specialize (H n eq_refl).
  destruct (Z.eqb_spec n 0); [by exists 0%nat|].
  exists (Z.to_nat n - 1)%nat. lia.
Qed.

(** X19: on a channel that is not connected, [run] stops at the first
    command.  For a macro that has a command and a repeat count that is not
    negative, [run] makes one call of [send], which throws the error of a
    channel that is not connected; [run] throws it in turn, sleeps for no
    delay, sends no other command and leaves the manager as it was. *)
Theorem run_stops_at_the_first_send_on_a_closed_channel
    (macros : list Macro) (world : nat -> World) (macroId : string)
    (entries : option (list (string * string))) (channelId : option string)
    (macro : Macro) (cmd : Command) (rest : list Command)
    (s : MacroEngine.RunState) :
  let ch := default "default" channelId in
  MacroEngine.findMacro macros macroId = Some macro ->
  commands macro = cmd :: rest ->
  (forall n, repeatCount macro = Some n -> 0 <= n) ->
  ~ Trace.linked ch (MacroEngine.mgr s) ->
  exists s',
    MacroEngine.run macros world macroId entries channelId s
    = (Throw Manager.NOT_CONNECTED, s')
    /\ MacroEngine.mgr s' = MacroEngine.mgr s
    /\ MacroEngine.effects s' = MacroEngine.effects s
    /\ MacroEngine.actions s'
       = MacroEngine.actions s
         ++ [Sent ch
               (MacroEngine.inject (default [] entries)
                  (Manager.orDefaultString (cmdData cmd) ""))
               (Manager.orDefaultString (cmdMode cmd) "ascii")].
Proof.
  intros ch Hfind Hcmds Hrep Hclosed.
  unfold MacroEngine.run. rewrite Hfind, Hcmds.
  destruct (repeats_once macro Hrep) as [k ->].
  simpl. unfold MacroEngine.bind at 1. unfold MacroEngine.bind at 1.
  unfold MacroEngine.runCommand, MacroEngine.bind at 1.
  fold ch. rewrite (callSend_closed _ _ _ _ _ Hclosed).
  eexists. split; [reflexivity|]. simpl.
  by rewrite app_nil_r.
Qed.

Lemma run_stops_at_the_first_send_on_a_closed_channel_witness :
  exists s',
    MacroEngine.run [Examples.setGoMacro] Examples.calm "m2"
      (Some [("x", "5")]) (Some "a") (MacroEngine.start (Manager.new true))
    = (Throw Manager.NOT_CONNECTED, s')
    /\ MacroEngine.actions s' = [Sent "a" "SET 5" "ascii"].
Proof.
  destruct (run_stops_at_the_first_send_on_a_closed_channel
    [Examples.setGoMacro] Examples.calm "m2" (Some [("x", "5")]) (Some "a")
    Examples.setGoMacro
    {| cmdData := Some "SET {{x}}"; cmdMode := Some "ascii";
       delayMs := Some 10 |}
    [ {| cmdData := Some "GO"; cmdMode := Some "ascii"; delayMs := Some 0 |} ]
    (MacroEngine.start (Manager.new true)))
    as (s' & Hrun & _ & _ & Hact).
  - reflexivity.
  - reflexivity.
  - intros n [= <-]. lia.
  - intros (c & Hc & _). vm_compute in Hc. discriminate.
  - exists s'. split; [exact Hrun|]. rewrite Hact. vm_compute. reflexivity.
Defined.

End RunEdges.

Section Accounting.

Variable world : nat -> World.
Variable channelId : string.
Variable measure : SerialManager -> Z.

Hypothesis measure_send : forall data mode,
  Account.advances channelId measure
    (MacroEngine.callSend world channelId data mode) 1.

Lemma advances_ret : Account.advances channelId measure (MacroEngine.ret ()) 0.
Proof. intros s Hs. exists s. repeat split; [done | simpl; lia]. Qed.

Lemma advances_sleep (ms : Z) :
  Account.advances channelId measure (MacroEngine.sleep ms) 0.
Proof.
  intros s Hs. eexists. split; [reflexivity|]. simpl. split; [done | lia].
Qed.

Lemma advances_bind (c1 c2 : MacroEngine.Run unit) (k1 k2 : nat) :
  Account.advances channelId measure c1 k1 ->
  Account.advances channelId measure c2 k2 ->
  Account.advances channelId measure
    (MacroEngine.bind c1 (fun _ => c2)) (k1 + k2).
Proof.
  intros H1 H2 s Hs. destruct (H1 s Hs) as (s1 & E1 & L1 & M1).
  destruct (H2 s1 L1) as (s2 & E2 & L2 & M2).
  exists s2. unfold MacroEngine.bind. rewrite E1, E2.
  split; [done|]. split; [done | lia].
Qed.

Lemma advances_runCommand (entries : list (string * string)) (cmd : Command) :
  Account.advances channelId measure
    (MacroEngine.runCommand world entries channelId cmd) 1.
Proof.
  unfold MacroEngine.runCommand. change 1%nat with (1 + 0)%nat.
  apply advances_bind; [apply measure_send|].
  destruct (delayMs cmd) as [d|]; [|apply advances_ret].
  destruct (0 <? d); [apply advances_sleep | apply advances_ret].
Qed.

Lemma advances_runCommands (entries : list (string * string))
    (cmds : list Command) :
  Account.advances channelId measure
    (MacroEngine.runCommands world entries channelId cmds) (length cmds).
Proof.
  induction cmds as [|cmd cmds IH]; [apply advances_ret|].
  change (length (cmd :: cmds)) with (1 + length cmds)%nat.
  apply advances_bind; [apply advances_runCommand | exact IH].
Qed.

Lemma advances_iterate (body : MacroEngine.Run unit) (k n : nat) :
  Account.advances channelId measure body k ->
  Account.advances channelId measure (MacroEngine.iterate n body) (n * k).
Proof.
  intros Hbody. induction n as [|n IH]; [apply advances_ret|].
  apply advances_bind; [exact Hbody | exact IH].
Qed.

Lemma advances_macro (entries : list (string * string)) (macro : Macro) :
  Account.advances channelId measure
    (MacroEngine.iterate (Account.passes macro)
       (MacroEngine.runCommands world entries channelId (commands macro)))
    (Account.sendsOf macro).
Proof. apply advances_iterate, advances_runCommands. Qed.

End Accounting.

Section Delivery.

Variable world : nat -> World.
Variable channelId : string.

Lemma written_app (e1 e2 : list Effect) :
  History.written (e1 ++ e2) = History.written e1 ++ History.written e2.
Proof.
  induction e1 as [|[ev|k bytes] e1 IH]; simpl; [done | done |].
  by rewrite IH.
Qed.

Lemma delivers_ret : Account.delivers channelId (MacroEngine.ret ()) [].
Proof.
  intros s Hs. exists s. split; [done|]. split; [done|]. by rewrite app_nil_r.
Qed.

Lemma delivers_sleep (ms : Z) :
  Account.delivers channelId (MacroEngine.sleep ms) [].
Proof.
  intros s Hs. eexists. split; [reflexivity|]. simpl.
  split; [done|]. by rewrite app_nil_r.
Qed.

Lemma delivers_bind (c1 c2 : MacroEngine.Run unit) (b1 b2 : list (list Z)) :
  Account.delivers channelId c1 b1 -> Account.delivers channelId c2 b2 ->
  Account.delivers channelId (MacroEngine.bind c1 (fun _ => c2)) (b1 ++ b2).
Proof.
  intros H1 H2 s Hs. destruct (H1 s Hs) as (s1 & E1 & L1 & W1).
  destruct (H2 s1 L1) as (s2 & E2 & L2 & W2).
  exists s2. unfold MacroEngine.bind. rewrite E1, E2.
  split; [done|]. split; [done|]. by rewrite W2, W1, app_assoc.
Qed.

Lemma callSend_parts (text how : string)
    (s : MacroEngine.RunState) (c : SerialConnection) :
  connections (MacroEngine.mgr s) !! channelId = Some c ->
  is_Some (port c) -> connected c = true ->
  exists s' c',
    MacroEngine.callSend world channelId text how s = (Ok (), s')
    /\ connections (MacroEngine.mgr s') !! channelId = Some c'
    /\ port c' = port c /\ connected c' = true
    /\ c' = fst (Manager.onWritten channelId text how
                   (Encoding.encode how text)
                   (writeError (world (MacroEngine.sends s)))
                   (now (world (MacroEngine.sends s))) c)
    /\ History.written (MacroEngine.effects s')
       = History.written (MacroEngine.effects s) ++ [Encoding.encode how text].
Proof.
  intros Hc Hp Hconn. unfold MacroEngine.callSend.
  rewrite (send_open _ _ _ _ _ _ c) by done.
  eexists _, _. split; [reflexivity|]. simpl. rewrite lookup_insert_eq.
  split; [reflexivity|].
  unfold Manager.onWritten.
  destruct (writeError (world (MacroEngine.sends s))); simpl;
    rewrite written_app; done.
Qed.

Lemma delivers_callSend (text how : string) :
  Account.delivers channelId (MacroEngine.callSend world channelId text how)
    [Encoding.encode how text].
Proof.
  intros s (c & Hc & Hp & Hconn).
  destruct (callSend_parts text how s c Hc Hp Hconn)
    as (s' & c' & Hrun & Hc' & Hp' & Hconn' & _ & Hw).
  exists s'. split; [done|]. split; [|done].
  exists c'. by rewrite Hp'.
Qed.

Lemma delivers_runCommand (entries : list (string * string)) (cmd : Command) :
  Account.delivers channelId
    (MacroEngine.runCommand world entries channelId cmd)
    [Account.payload entries cmd].
Proof.
  unfold MacroEngine.runCommand.
  change [Account.payload entries cmd]
    with ([Account.payload entries cmd] ++ []).
  apply delivers_bind; [apply delivers_callSend|].
  destruct (delayMs cmd) as [d|]; [|apply delivers_ret].
  destruct (0 <? d); [apply delivers_sleep | apply delivers_ret].
Qed.

Lemma delivers_runCommands (entries : list (string * string))
    (cmds : list Command) :
  Account.delivers channelId
    (MacroEngine.runCommands world entries channelId cmds)
    (map (Account.payload entries) cmds).
Proof.
  induction cmds as [|cmd cmds IH]; [apply delivers_ret|].
  change (map (Account.payload entries) (cmd :: cmds))
    with ([Account.payload entries cmd] ++ map (Account.payload entries) cmds).
  apply delivers_bind; [apply delivers_runCommand | exact IH].
Qed.

Lemma delivers_iterate (body : MacroEngine.Run unit) (once : list (list Z))
    (n : nat) :
  Account.delivers channelId body once ->
  Account.delivers channelId (MacroEngine.iterate n body)
    (concat (replicate n once)).
Proof.
  intros Hbody. induction n as [|n IH]; [apply delivers_ret|].
  apply delivers_bind; [exact Hbody | exact IH].
Qed.

Lemma written_send (text how : string) :
  (forall k, writeError (world k) = None) ->
  Account.advances channelId (Account.written channelId)
    (MacroEngine.callSend world channelId text how) 1.
Proof.
  intros Hw s (c & Hc & Hp & Hconn).
  destruct (callSend_parts text how s c Hc Hp Hconn)
    as (s' & c' & Hrun & Hc' & Hp' & Hconn' & Hval & _).
  exists s'. split; [done|]. split.
  - exists c'. by rewrite Hp'.
  - unfold Account.written. rewrite Hc, Hc', Hval.
    unfold Manager.onWritten. rewrite Hw. simpl. lia.
Qed.

End Delivery.

Section RunDelivers.



End RunDelivers.

(** ** The store of the macros *)

Section Store.

Lemma findIndex_unknown (macroId : string) (l : list Macro) :
  MacroStore.unknown macroId l -> MacroStore.findIndex macroId l = None.
Proof. intros H. by apply list_find_None. Qed.

Lemma findIndex_middle (macroId : string) (before after : list Macro)
    (old : Macro) :
  MacroStore.unknown macroId before -> id old = macroId ->
  MacroStore.findIndex macroId (before ++ old :: after)
  = Some (length before, old).
Proof.
  intros Hb Ho. unfold MacroStore.findIndex.
  rewrite list_find_app_r by by apply list_find_None.
  simpl. rewrite decide_True by done. done.
Qed.

Lemma findMacro_unknown (macroId : string) (l : list Macro) :
  MacroStore.unknown macroId l -> MacroEngine.findMacro l macroId = None.
Proof.
  induction 1 as [|m l Hm _ IH]; [done|].
  unfold MacroEngine.findMacro. simpl.
  destruct (String.eqb_spec (id m) macroId); [done|]. exact IH.
Qed.

Lemma findMacro_app (macroId : string) (before l : list Macro) :
  MacroStore.unknown macroId before ->
  MacroEngine.findMacro (before ++ l) macroId = MacroEngine.findMacro l macroId.
Proof.
  induction 1 as [|m before Hm _ IH]; [done|].
  unfold MacroEngine.findMacro. simpl.
  destruct (String.eqb_spec (id m) macroId); [done|]. exact IH.
Qed.

Lemma findMacro_app_l (macroId : string) (l after : list Macro) (m : Macro) :
  MacroEngine.findMacro l macroId = Some m ->
  MacroEngine.findMacro (l ++ after) macroId = Some m.
Proof.
  unfold MacroEngine.findMacro. induction l as [|x l IH]; [done|].
  simpl. destruct (String.eqb (id x) macroId); [done|]. exact IH.
Qed.

Lemma findMacro_app_other (macroId : string) (l after : list Macro) :
  MacroStore.unknown macroId after ->
  MacroEngine.findMacro (l ++ after) macroId = MacroEngine.findMacro l macroId.
Proof.
  intros Ha. unfold MacroEngine.findMacro. induction l as [|x l IH].
  - simpl. by apply findMacro_unknown.
  - simpl. destruct (String.eqb (id x) macroId); [done|]. exact IH.
Qed.

Lemma findMacro_head (macroId : string) (m : Macro) (l : list Macro) :
  MacroEngine.findMacro (m :: l) macroId
  = if String.eqb (id m) macroId then Some m
    else MacroEngine.findMacro l macroId.
Proof. done. Qed.

(** X21: an id that no macro has is refused and changes nothing.
    [update], [remove] and [run] throw [Macro not found]; the list of the
    macros and the data file stay as they were, nothing is written, and
    [run] sends nothing. *)
Theorem an_unknown_macro_is_refused_and_nothing_changes
    (macroId : string) (patch : MacroPatch) (now : Z)
    (writeError : option string) (s : MacroStore.State)
    (world : nat -> World) (entries : option (list (string * string)))
    (channelId : option string) (running : MacroEngine.RunState) :
  MacroStore.unknown macroId (MacroStore.macros s) ->
  MacroStore.update macroId patch now writeError s
  = (Throw MacroStore.NOT_FOUND, s)
  /\ MacroStore.remove macroId writeError s = (Throw MacroStore.NOT_FOUND, s)
  /\ MacroEngine.run (MacroStore.macros s) world macroId entries channelId
       running
     = (Throw MacroStore.NOT_FOUND, running).
Proof.
  intros H. unfold MacroStore.update, MacroStore.remove, MacroEngine.run.
  rewrite (findIndex_unknown _ _ H), (findMacro_unknown _ _ H). done.
Qed.

Lemma an_unknown_macro_is_refused_and_nothing_changes_witness :
  MacroStore.remove "m9" None Shelf.stocked
  = (Throw "Macro not found", Shelf.stocked).
Proof.
  refine (proj1 (proj2 (an_unknown_macro_is_refused_and_nothing_changes
    "m9" (Shelf.rename "m1") 0 None Shelf.stocked Examples.calm None None
    (MacroEngine.start (Manager.new true)) _))).
  repeat (constructor; [done|]). constructor.
Defined.

(** X22: creating a macro and removing it again restores the list.
    With an id that no macro has yet and writes that succeed, [create]
    appends the macro, with the defaults for the fields that the request
    leaves out, and the macros before it are found as before; the data file
    then holds the list, so that loading it gives the same state; [remove]
    with the new id gives back the former list, in memory and in the file. *)
Theorem create_then_remove_restores_the_list
    (data : MacroData) (uuid : string) (now1 now2 : Z) (s : MacroStore.State) :
  MacroStore.unknown uuid (MacroStore.macros s) ->
  exists macro s1 s2,
    MacroStore.create data uuid now1 now2 None s = (Ok macro, s1)
    /\ id macro = uuid /\ createdAt macro = now1 /\ updatedAt macro = now2
    /\ (exists n, repeatCount macro = Some n /\ n <> 0)
    /\ macroName macro <> EmptyString
    /\ MacroStore.list s1 = MacroStore.list s ++ [macro]
    /\ MacroEngine.findMacro (MacroStore.list s1) uuid = Some macro
    /\ (forall other, other <> uuid ->
        MacroEngine.findMacro (MacroStore.list s1) other
        = MacroEngine.findMacro (MacroStore.list s) other)
    /\ MacroStore._load (MacroStore.dataFile s1) = s1
    /\ MacroStore.remove uuid None s1 = (Ok (), s2)
    /\ MacroStore.list s2 = MacroStore.list s
    /\ MacroStore._load (MacroStore.dataFile s2) = s2.
Proof.
  intros Hfresh. unfold MacroStore.create, MacroStore.list. simpl.
  eexists _, _, _. split; [reflexivity|]. simpl.
  split; [done|]. split; [done|]. split; [done|]. split.
  { eexists. split; [reflexivity|]. unfold Manager.orDefaultZ.
    destruct (dataRepeatCount data) as [n|]; [|done].
    by destruct (Z.eqb_spec n 0). }
  split.
  { unfold Manager.orDefaultString.
    destruct (dataName data) as [n|]; [|done].
    destruct (String.eqb_spec n ""); done. }
  split; [done|]. split.
  { rewrite (findMacro_app _ _ _ Hfresh). rewrite findMacro_head. simpl.
    by rewrite String.eqb_refl. }
  split.
  { intros other Ho. apply findMacro_app_other.
    constructor; [by simpl | constructor]. }
  split; [done|].
  unfold MacroStore.remove. simpl.
  erewrite (findIndex_middle uuid _ []); [|exact Hfresh|reflexivity].
  simpl. rewrite delete_middle, app_nil_r. done.
Qed.

Lemma create_then_remove_restores_the_list_witness :
  exists macro s1,
    MacroStore.create Shelf.ping "m3" 10 11 None Shelf.stocked = (Ok macro, s1)
    /\ map id (MacroStore.list s1) = ["m1"; "m2"; "m3"]
    /\ repeatCount macro = Some 1
    /\ MacroStore.remove "m3" None s1 = (Ok (), Shelf.stocked).
Proof.
  destruct (create_then_remove_restores_the_list Shelf.ping "m3" 10 11
    Shelf.stocked) as (macro & s1 & s2 & Hc & _).
  - repeat (constructor; [done|]). constructor.
  - exists macro, s1. split; [exact Hc|].
    vm_compute in Hc. injection Hc as <- <-. vm_compute. done.
Defined.

(** X23: [update] replaces the first macro that has the id, in place.
    The macros before and after it stay where they are; the fields that the
    patch names are taken from the patch, the id and the time of creation
    among them, and the time of the update is the clock's in any case.
    When the patch gives another id and no later macro has the old one, the
    macro is no longer found under the old id. *)
Theorem update_replaces_the_first_match_in_place
    (macroId : string) (patch : MacroPatch) (now : Z)
    (before after : list Macro) (old : Macro) (file : DataFile) :
  let s := {| MacroStore.macros := before ++ old :: after;
              MacroStore.dataFile := file |} in
  MacroStore.unknown macroId before -> id old = macroId ->
  exists new s',
    MacroStore.update macroId patch now None s = (Ok new, s')
    /\ MacroStore.list s' = before ++ new :: after
    /\ MacroStore._load (MacroStore.dataFile s') = s'
    /\ updatedAt new = now
    /\ id new = default macroId (patchId patch)
    /\ createdAt new = default (createdAt old) (patchCreatedAt patch)
    /\ (id new = macroId ->
        MacroEngine.findMacro (MacroStore.list s') macroId = Some new)
    /\ (id new <> macroId -> MacroStore.unknown macroId after ->
        MacroEngine.findMacro (MacroStore.list s') macroId = None).
Proof.
  intros s Hb Ho. unfold MacroStore.update, MacroStore.list. simpl.
  rewrite (findIndex_middle _ _ _ _ Hb Ho). simpl.
  eexists _, _. split; [reflexivity|]. simpl.
  replace (length before) with (length before + 0)%nat by lia.
  rewrite insert_app_r. simpl.
  split; [done|]. split; [done|]. split; [done|].
  split; [by rewrite Ho|]. split; [done|]. split.
  - intros Hid. rewrite (findMacro_app _ _ _ Hb), findMacro_head.
    simpl in Hid. simpl. rewrite Hid. by rewrite String.eqb_refl.
  - intros Hid Ha. rewrite (findMacro_app _ _ _ Hb), findMacro_head.
    simpl in Hid. simpl.
    destruct (String.eqb_spec (default (id old) (patchId patch)) macroId);
      [done|].
    by apply findMacro_unknown.
Qed.

Lemma update_replaces_the_first_match_in_place_witness :
  exists new s',
    MacroStore.update "m1" (Shelf.rename "m7") 50 None Shelf.stocked
    = (Ok new, s')
    /\ map id (MacroStore.list s') = ["m7"; "m2"]
    /\ MacroEngine.findMacro (MacroStore.list s') "m1" = None.
Proof.
  destruct (update_replaces_the_first_match_in_place "m1" (Shelf.rename "m7")
    50 [] [Examples.setGoMacro] Examples.goMacro
    (Holds [Examples.goMacro; Examples.setGoMacro]))
    as (new & s' & Hu & Hl & _ & _ & Hid & _ & _ & Hgone).
  - constructor.
  - reflexivity.
  - exists new, s'. split; [exact Hu|]. split.
    + rewrite Hl. simpl. by rewrite Hid.
    + apply Hgone; [by rewrite Hid|].
      repeat (constructor; [done|]). constructor.
Defined.

End Store.

(** ** Requests over the socket *)

Section Socket.

Lemma linked_dec (channelId : string) (m : SerialManager) :
  Trace.linked channelId m \/ ~ Trace.linked channelId m.
Proof.
  destruct (connections m !! channelId) as [c|] eqn:E.
  - destruct (port c) as [p|] eqn:Ep.
    + destruct (connected c) eqn:Ec.
      * left. exists c. rewrite Ep. by split; [|split; [eexists|]].
      * right. intros (c' & Hc' & _ & Hconn). congruence.
    + right. intros (c' & Hc' & [p Hp] & _). congruence.
  - right. intros (c' & Hc' & _). congruence.
Qed.

(** X24: who hears of a send that fails.  For a [serial:send] request: on
    a channel that is not connected, the sender alone gets the error, and
    the manager stays as it was; when the device refuses the write, the
    sender gets no reply and every client gets a [serial:error] with the
    text [Send error:] before the device's message; when the write goes
    through, every client gets the tx entry as [serial:data]. *)
Theorem socket_send_tells_the_sender_or_everyone
    (plugins : list Plugin) (w : World) (msgChannelId : option string)
    (text : string) (how : option string) (m : SerialManager) :
  let ch := Manager.orDefaultString msgChannelId "default" in
  let h := WsHandler.handleMessage plugins w msgChannelId
             (SerialSend text how) m in
  (~ Trace.linked ch m ->
   WsHandler.manager h = m
   /\ WsHandler.toSender h = [SerialError ch Manager.NOT_CONNECTED]
   /\ WsHandler.toAll h = [])
  /\ (Trace.linked ch m -> forall e, writeError w = Some e ->
      WsHandler.toSender h = []
      /\ WsHandler.toAll h = [SerialError ch ("Send error: " +:+ e)])
  /\ (Trace.linked ch m -> writeError w = None ->
      WsHandler.toSender h = []
      /\ exists entry decoded,
           WsHandler.toAll h = [SerialData ch entry decoded]
           /\ direction entry = Tx /\ data entry = text
           /\ mode entry = Some (Manager.orDefaultString how "ascii")
           /\ timestamp entry = now w).
Proof.
  intros ch h. unfold h, WsHandler.handleMessage. fold ch.
  split; [|split].
  - intros Hc. by rewrite (send_closed _ _ _ _ _ _ (not_linked _ _ Hc)).
  - intros (c & Hc & Hp & Hconn) e He.
    rewrite (send_open _ _ _ _ _ _ c) by done.
    unfold Manager.onWritten. rewrite He. done.
  - intros (c & Hc & Hp & Hconn) He.
    rewrite (send_open _ _ _ _ _ _ c) by done.
    unfold Manager.onWritten. rewrite He. simpl.
    split; [done|]. eexists _, _. split; [reflexivity|]. done.
Qed.

Lemma socket_send_tells_the_sender_or_everyone_witness :
  WsHandler.toAll
    (WsHandler.handleMessage Examples.registry
       {| openError := None; writeError := Some "EIO"; now := 5 |}
       (Some "a") (SerialSend "AT" None) Examples.opened)
  = [SerialError "a" "Send error: EIO"]
  /\ WsHandler.toSender
       (WsHandler.handleMessage Examples.registry (Examples.calm 0)
          None (SerialSend "AT" None) Examples.opened)
     = [SerialError "default" Manager.NOT_CONNECTED].
Proof.
  split.
  - refine (proj2 (proj1 (proj2 (socket_send_tells_the_sender_or_everyone
      Examples.registry
      {| openError := None; writeError := Some "EIO"; now := 5 |}
      (Some "a") "AT" None Examples.opened)) _ "EIO" eq_refl)).
    eexists. vm_compute. split; [reflexivity|]. split; [by eexists | done].
  - refine (proj1 (proj2 (proj1 (socket_send_tells_the_sender_or_everyone
      Examples.registry (Examples.calm 0) None "AT" None Examples.opened) _))).
    intros (c & Hc & _). vm_compute in Hc. discriminate.
Defined.

Lemma connect_linked (channelId : string) (cfg : Config)
    (openError : option string) (t : Z) (m : SerialManager)
    (c : SerialConnection) :
  serialportAvailable m = true ->
  connections m !! channelId = Some c ->
  is_Some (port c) -> connected c = true ->
  Manager.connect channelId cfg openError t m
  = let closed :=
      Connection.setConfig None
        (Connection.setParser None
           (Connection.setPort None (Connection.setConnected false c))) in
    let m1 := Manager.store channelId closed m in
    let conn := Connection.setPort (Some {| isOpen := false |}) closed in
    match openError with
    | Some message =>
        (Throw ("Failed to open port: " +:+ message),
         Manager.store channelId (Connection.setConnected false conn) m1,
         [Emit (EvDisconnected channelId)])
    | None =>
        (Ok (Manager.portConfigOf cfg),
         Manager.store channelId
           (Connection.setParser (Some {| kept := EmptyString |})
              (Connection.setStats
                 {| bytesRx := 0; bytesTx := 0; linesRx := 0; linesTx := 0;
                    errors := 0; connectedAt := Some t |}
                 (Connection.setConnected true
                    (Connection.setConfig (Some (Manager.portConfigOf cfg))
                       (Connection.setPort (Some {| isOpen := true |}) conn)))))
           m1,
         [Emit (EvDisconnected channelId);
          Emit (EvConnected channelId (Manager.portConfigOf cfg))])
    end.
Proof.
  intros Ha Hc Hp Hconn. unfold Manager.connect, Manager.getConnection.
  rewrite Ha, Hc. simpl. rewrite Hconn.
  unfold Manager.disconnect. rewrite Hc, Hconn.
  rewrite bool_decide_true by done. simpl.
  rewrite lookup_insert_eq. simpl. by destruct openError.
Qed.

(** X25: a reconnection that fails leaves the channel closed.  For a
    [serial:connect] request on a channel that is connected, when the port
    does not open: the channel has been disconnected first, so that every
    client gets the [disconnected] status, the sender alone gets the error
    [Failed to open port:] with the device's message, and the channel is
    left not connected, without a configuration, with its buffer, its next
    index and its counters as they were. *)
Theorem a_failed_reconnection_leaves_the_channel_closed
    (plugins : list Plugin) (w : World) (msgChannelId : option string)
    (cfg : Config) (m : SerialManager) (c : SerialConnection) (e : string) :
  let ch := Manager.orDefaultString msgChannelId "default" in
  let h := WsHandler.handleMessage plugins w msgChannelId
             (SerialConnect cfg) m in
  serialportAvailable m = true ->
  connections m !! ch = Some c -> is_Some (port c) -> connected c = true ->
  openError w = Some e ->
  WsHandler.toSender h = [SerialError ch ("Failed to open port: " +:+ e)]
  /\ WsHandler.toAll h = [SerialStatusDisconnected ch]
  /\ ~ Trace.linked ch (WsHandler.manager h)
  /\ exists c', connections (WsHandler.manager h) !! ch = Some c'
       /\ connected c' = false /\ config c' = None
       /\ buffer c' = buffer c /\ bufferIndex c' = bufferIndex c
       /\ stats c' = stats c.
Proof.
  intros ch h Ha Hc Hp Hconn He. unfold h, WsHandler.handleMessage. fold ch.
  rewrite (connect_linked _ _ _ _ _ c Ha Hc Hp Hconn), He. simpl.
  split; [done|]. split; [done|]. split.
  - intros (c' & Hc' & _ & Hconn'). simpl in Hc'.
    rewrite lookup_insert_eq in Hc'. injection Hc' as <-. done.
  - eexists. rewrite lookup_insert_eq. split; [reflexivity|]. done.
Qed.

Lemma a_failed_reconnection_leaves_the_channel_closed_witness :
  WsHandler.toAll
    (WsHandler.handleMessage Examples.registry
       {| openError := Some "EBUSY"; writeError := None; now := 5 |}
       (Some "a") (SerialConnect Examples.ttyUSB0) Examples.opened)
  = [SerialStatusDisconnected "a"].
Proof.
  assert (exists c, connections Examples.opened !! "a" = Some c
            /\ is_Some (port c) /\ connected c = true) as (c & Hc & Hp & Hconn).
  { eexists. vm_compute. split; [reflexivity|]. split; [by eexists | done]. }
  exact (proj1 (proj2 (a_failed_reconnection_leaves_the_channel_closed
    Examples.registry
    {| openError := Some "EBUSY"; writeError := None; now := 5 |}
    (Some "a") Examples.ttyUSB0 Examples.opened c "EBUSY"
    eq_refl Hc Hp Hconn eq_refl))).
Defined.

(** X26: a connection that succeeds is announced to the sender twice.
    For a [serial:connect] request, when the package is there and the port
    opens: the sender gets the [connected] status with the configuration in
    use as the reply, every client (the sender among them) gets the same
    status as the last broadcast, and the channel is connected afterwards.
    A channel that was connected has its [disconnected] status broadcast
    first; otherwise nothing else is broadcast. *)
Theorem a_connection_is_announced_to_the_sender_and_to_everyone
    (plugins : list Plugin) (w : World) (msgChannelId : option string)
    (cfg : Config) (m : SerialManager) :
  let ch := Manager.orDefaultString msgChannelId "default" in
  let h := WsHandler.handleMessage plugins w msgChannelId
             (SerialConnect cfg) m in
  let announced := SerialStatusConnected ch (Manager.portConfigOf cfg) in
  serialportAvailable m = true -> openError w = None ->
  WsHandler.toSender h = [announced]
  /\ Trace.linked ch (WsHandler.manager h)
  /\ (Trace.linked ch m ->
      WsHandler.toAll h = [SerialStatusDisconnected ch; announced])
  /\ (~ Trace.linked ch m -> WsHandler.toAll h = [announced]).
Proof.
  intros ch h announced Ha He.
  destruct (linked_dec ch m) as [Hl | Hl].
  - assert (WsHandler.toSender h = [announced]
            /\ Trace.linked ch (WsHandler.manager h)
            /\ WsHandler.toAll h = [SerialStatusDisconnected ch; announced])
      as (H1 & H2 & H3).
    { destruct Hl as (c & Hc & Hp & Hconn).
      unfold h, WsHandler.handleMessage. fold ch.
      rewrite (connect_linked _ _ _ _ _ c Ha Hc Hp Hconn), He. simpl.
      split; [done|]. split; [|done].
      eexists. simpl. rewrite lookup_insert_eq. split; [reflexivity|].
      split; [by eexists | done]. }
    by repeat split.
  - assert (WsHandler.toSender h = [announced]
            /\ Trace.linked ch (WsHandler.manager h)
            /\ WsHandler.toAll h = [announced]) as (H1 & H2 & H3).
    { unfold h, WsHandler.handleMessage. fold ch.
      unfold Manager.connect, Manager.getConnection. rewrite Ha, He. simpl.
      destruct (connections m !! ch) as [c|] eqn:Hc.
      - destruct (connected c) eqn:Hconn.
        + unfold Manager.disconnect. rewrite Hc, Hconn.
          destruct (port c) as [p|] eqn:Hp.
          { exfalso. apply Hl. exists c. rewrite Hp.
            by split; [|split; [eexists|]]. }
          rewrite bool_decide_false by (intros [? ?]; done). simpl.
          rewrite lookup_insert_eq. simpl.
          split; [done|]. split; [|done].
          eexists. simpl. rewrite lookup_insert_eq. split; [reflexivity|].
          split; [by eexists | done].
        + simpl. rewrite Hc. simpl.
          split; [done|]. split; [|done].
          eexists. simpl. rewrite lookup_insert_eq. split; [reflexivity|].
          split; [by eexists | done].
      - simpl. rewrite lookup_insert_eq. simpl.
        split; [done|]. split; [|done].
        eexists. simpl. rewrite lookup_insert_eq. split; [reflexivity|].
        split; [by eexists | done]. }
    by repeat split.
Qed.

Lemma a_connection_is_announced_to_the_sender_and_to_everyone_witness :
  WsHandler.toSender
    (WsHandler.handleMessage Examples.registry (Examples.calm 0)
       (Some "b") (SerialConnect Examples.ttyUSB0) Examples.opened)
  = [SerialStatusConnected "b" (Manager.portConfigOf Examples.ttyUSB0)].
Proof.
  exact (proj1 (a_connection_is_announced_to_the_sender_and_to_everyone
    Examples.registry (Examples.calm 0) (Some "b") Examples.ttyUSB0
    Examples.opened eq_refl eq_refl)).
Defined.

End Socket.

(** ** Shutting down *)

Section Shutdown.

Lemma linked_lookup (k : string) (m m' : SerialManager) :
  connections m !! k = connections m' !! k ->
  Trace.linked k m <-> Trace.linked k m'.
Proof. intros H. unfold Trace.linked. by rewrite H. Qed.

Lemma disconnect_absent (k : string) (m : SerialManager) :
  connections m !! k = None -> Manager.disconnect k m = (m, []).
Proof. intros H. unfold Manager.disconnect. by rewrite H. Qed.

Lemma disconnect_present (k : string) (m : SerialManager) (c : SerialConnection) :
  connections m !! k = Some c ->
  exists c',
    connections (fst (Manager.disconnect k m)) !! k = Some c'
    /\ connected c' = false /\ buffer c' = buffer c
    /\ bufferIndex c' = bufferIndex c /\ stats c' = stats c
    /\ (Trace.linked k m ->
        snd (Manager.disconnect k m) = [Emit (EvDisconnected k)])
    /\ (~ Trace.linked k m -> snd (Manager.disconnect k m) = []).
Proof.
  intros Hc. unfold Manager.disconnect. rewrite Hc.
  destruct (port c) as [p|] eqn:Hp.
  - destruct (connected c) eqn:Hconn.
    + rewrite bool_decide_true by done. simpl.
      eexists. rewrite lookup_insert_eq. split; [reflexivity|]. simpl.
      repeat split; try done.
      intros H. exfalso. apply H. exists c. rewrite Hp.
      by split; [|split; [eexists|]].
    + rewrite orb_true_r. simpl.
      eexists. rewrite lookup_insert_eq. split; [reflexivity|]. simpl.
      repeat split; try done.
      intros (c' & Hc' & _ & Hconn'). congruence.
  - rewrite bool_decide_false by (intros [? ?]; done). simpl.
    eexists. rewrite lookup_insert_eq. split; [reflexivity|]. simpl.
    repeat split; try done.
    intros (c' & Hc' & [p Hp'] & _). congruence.
Qed.

Lemma disconnect_events (k : string) (m : SerialManager) :
  (Trace.linked k m -> snd (Manager.disconnect k m) = [Emit (EvDisconnected k)])
  /\ (~ Trace.linked k m -> snd (Manager.disconnect k m) = []).
Proof.
  destruct (connections m !! k) as [c|] eqn:Hc.
  - destruct (disconnect_present k m c Hc) as (c' & _ & _ & _ & _ & _ & H1 & H2).
    by split.
  - rewrite (disconnect_absent k m Hc). split; [|done].
    intros (c & Hc' & _). congruence.
Qed.

Lemma disconnectAll_cons (k : string) (rest : list string) (m : SerialManager) :
  Server.disconnectAll (k :: rest) m
  = (fst (Server.disconnectAll rest (fst (Manager.disconnect k m))),
     snd (Manager.disconnect k m)
     ++ snd (Server.disconnectAll rest (fst (Manager.disconnect k m)))).
Proof.
  simpl. destruct (Manager.disconnect k m) as [m1 e1]. simpl.
  by destruct (Server.disconnectAll rest m1).
Qed.

Lemma disconnectAll_others (l : list string) : forall (m : SerialManager) k,
  k ∉ l ->
  connections (fst (Server.disconnectAll l m)) !! k = connections m !! k.
Proof.
  induction l as [|j l IH]; intros m k Hk; [done|].
  rewrite disconnectAll_cons. simpl.
  apply not_elem_of_cons in Hk as [Hkj Hk].
  rewrite (IH _ _ Hk). by apply disconnect_touches_one.
Qed.

Lemma disconnectAll_closes (l : list string) : forall (m : SerialManager) k c,
  NoDup l -> k ∈ l -> connections m !! k = Some c ->
  exists c',
    connections (fst (Server.disconnectAll l m)) !! k = Some c'
    /\ connected c' = false /\ buffer c' = buffer c
    /\ bufferIndex c' = bufferIndex c /\ stats c' = stats c.
Proof.
  induction l as [|j l IH]; intros m k c Hnd Hk Hc.
  - by apply elem_of_nil in Hk.
  - rewrite disconnectAll_cons. simpl.
    apply NoDup_cons in Hnd as [Hj Hnd].
    destruct (decide (k = j)) as [-> | Hkj].
    + rewrite (disconnectAll_others _ _ _ Hj).
      destruct (disconnect_present j m c Hc) as (c' & H1 & H2 & H3 & H4 & H5 & _).
      by exists c'.
    + apply elem_of_cons in Hk as [Hk | Hk]; [done|].
      apply (IH _ k c Hnd Hk).
      rewrite <- Hc. by apply disconnect_touches_one.
Qed.

Lemma disconnectAll_events (l : list string) : forall (m : SerialManager),
  NoDup l ->
  (forall k, Emit (EvDisconnected k) ∈ snd (Server.disconnectAll l m)
             <-> k ∈ l /\ Trace.linked k m)
  /\ Forall (fun e => exists k, e = Emit (EvDisconnected k))
       (snd (Server.disconnectAll l m))
  /\ NoDup (snd (Server.disconnectAll l m)).
Proof.
  induction l as [|j l IH]; intros m Hnd.
  - simpl. split; [|split; [done | constructor]].
    intros k. split; [intros H; by apply elem_of_nil in H|].
    intros [H _]. by apply elem_of_nil in H.
  - rewrite disconnectAll_cons. simpl.
    apply NoDup_cons in Hnd as [Hj Hnd].
    destruct (IH (fst (Manager.disconnect j m)) Hnd) as (IH1 & IH2 & IH3).
    assert (forall k, k ∈ l ->
              (Trace.linked k (fst (Manager.disconnect j m))
               <-> Trace.linked k m)) as Hsame.
    { intros k Hk. apply linked_lookup, disconnect_touches_one.
      intros ->. done. }
    destruct (disconnect_events j m) as [Hyes Hno].
    destruct (linked_dec j m) as [Hl | Hl].
    + rewrite (Hyes Hl). split; [|split].
      * intros k. rewrite elem_of_app, list_elem_of_singleton, IH1, elem_of_cons.
        split.
        -- intros [[= ->] | [Hk Hlk]]; [by split; [left|]|].
           split; [by right | by apply Hsame].
        -- intros [[-> | Hk] Hlk]; [by left|].
           right. split; [done | by apply Hsame].
      * by constructor; [eexists|].
      * simpl. constructor; [|done]. rewrite IH1. by intros [? _].
    + rewrite (Hno Hl). simpl. split; [|split]; [|done..].
      intros k. rewrite IH1, elem_of_cons. split.
      * intros [Hk Hlk]. split; [by right | by apply Hsame].
      * intros [[-> | Hk] Hlk]; [done|].
        split; [done | by apply Hsame].
Qed.

(** X27: a shutdown closes every channel and removes none.  After
    [gracefulShutdown] the port polling is stopped; every channel is still
    there, not connected, with its buffer, its next index and its counters
    as they were; one [disconnected] event has been emitted for each
    channel that was connected, and nothing else. *)
Theorem shutdown_closes_every_channel_and_keeps_its_data
    (channels : list string) (p : Poller) (m : SerialManager) :
  let after := Server.gracefulShutdown channels p m in
  let m' := snd (fst after) in
  Server.keysOf channels m ->
  _portPollInterval (fst (fst after)) = None
  /\ (forall k, connections m' !! k = None <-> connections m !! k = None)
  /\ (forall k c, connections m !! k = Some c ->
        exists c', connections m' !! k = Some c'
          /\ connected c' = false /\ buffer c' = buffer c
          /\ bufferIndex c' = bufferIndex c /\ stats c' = stats c)
  /\ (forall k, ~ Trace.linked k m')
  /\ (forall k, Emit (EvDisconnected k) ∈ snd after <-> Trace.linked k m)
  /\ Forall (fun e => exists k, e = Emit (EvDisconnected k)) (snd after)
  /\ NoDup (snd after).
Proof.
  intros after m' [Hnd Hkeys]. unfold m', after, Server.gracefulShutdown.
  destruct (disconnectAll_events channels m Hnd) as (E1 & E2 & E3).
  pose proof (disconnectAll_closes channels m) as Hclose.
  pose proof (disconnectAll_others channels m) as Hothers.
  destruct (Server.disconnectAll channels m) as [m2 e2]. simpl in *.
  assert (forall k c, connections m !! k = Some c ->
            exists c', connections m2 !! k = Some c'
              /\ connected c' = false /\ buffer c' = buffer c
              /\ bufferIndex c' = bufferIndex c /\ stats c' = stats c) as Hall.
  { intros k c Hc. apply Hclose; [done | | done]. apply Hkeys. by eexists. }
  assert (forall k, connections m !! k = None -> connections m2 !! k = None)
    as Hnone.
  { intros k Hk. rewrite Hothers; [done|]. rewrite Hkeys, Hk.
    by intros [? ?]. }
  split; [|split; [|split; [|split; [|split; [|split]]]]]; try done.
  - unfold Ports.stopPortPolling. by destruct (_portPollInterval p) eqn:E.
  - intros k. split; [|apply Hnone].
    intros Hk. destruct (connections m !! k) as [c|] eqn:Hc; [|done].
    destruct (Hall k c Hc) as (c' & Hc' & _). congruence.
  - intros k (c' & Hc' & _ & Hconn).
    destruct (connections m !! k) as [c|] eqn:Hc.
    + destruct (Hall k c Hc) as (c2 & Hc2 & Hclosed & _). congruence.
    + rewrite (Hnone k Hc) in Hc'. done.
  - intros k. rewrite E1. split; [by intros [_ ?]|].
    intros Hl. split; [|done]. apply Hkeys.
    destruct Hl as (c & -> & _). by eexists.
Qed.

Lemma shutdown_closes_every_channel_and_keeps_its_data_witness :
  snd (Server.gracefulShutdown ["a"] (Hardware.watching []) Examples.opened)
  = [Emit (EvDisconnected "a")]
  /\ _portPollInterval
       (fst (fst (Server.gracefulShutdown ["a"] (Hardware.watching [])
                    Examples.opened))) = None.
Proof.
  split; [vm_compute; reflexivity|].
  refine (proj1 (shutdown_closes_every_channel_and_keeps_its_data ["a"]
    (Hardware.watching []) Examples.opened _)).
  split; [repeat constructor; by intros H%elem_of_nil|].
  intros k. rewrite list_elem_of_singleton. split.
  - intros ->. vm_compute. by eexists.
  - intros Hk. destruct (decide (k = "a")) as [|Hne]; [done|].
    exfalso.
    assert (connections Examples.opened
            = <["a" := default (Connection.new "a")
                         (connections Examples.opened !! "a")]> ∅) as E
      by (vm_compute; reflexivity).
    rewrite E, lookup_insert_ne, lookup_empty in Hk by done.
    by destruct Hk.
Defined.

End Shutdown.

(** ** The counters only grow *)

Section CountersGrow.

Lemma le_refl (s : Stats) : Counters.le s s.
Proof. unfold Counters.le. lia. Qed.

Lemma grown_refl (m : SerialManager) : Counters.grown m m.
Proof. intros k c Hc. exists c. split; [done | apply le_refl]. Qed.

Lemma grown_trans (m1 m2 m3 : SerialManager) :
  Counters.grown m1 m2 -> Counters.grown m2 m3 -> Counters.grown m1 m3.
Proof.
  intros H12 H23 k c Hc. destruct (H12 k c Hc) as (c2 & Hc2 & Hle2).
  destruct (H23 k c2 Hc2) as (c3 & Hc3 & Hle3).
  exists c3. split; [done|]. unfold Counters.le in *. lia.
Qed.

Lemma grown_store (k : string) (c c' : SerialConnection) (m : SerialManager) :
  connections m !! k = Some c -> Counters.le (stats c) (stats c') ->
  Counters.grown m (Manager.store k c' m).
Proof.
  intros Hc Hle j cj Hj. simpl.
  destruct (decide (j = k)) as [-> | Hne].
  - rewrite lookup_insert_eq. exists c'. split; [done|]. congruence.
  - rewrite lookup_insert_ne by done. exists cj. split; [done | apply le_refl].
Qed.

Lemma grown_fresh (k : string) (c' : SerialConnection) (m : SerialManager) :
  connections m !! k = None -> Counters.grown m (Manager.store k c' m).
Proof.
  intros Hc j cj Hj. simpl.
  destruct (decide (j = k)) as [-> | Hne]; [congruence|].
  rewrite lookup_insert_ne by done. exists cj. split; [done | apply le_refl].
Qed.

Lemma grown_put (k : string) (c' : SerialConnection) (m : SerialManager) :
  (forall c, connections m !! k = Some c -> Counters.le (stats c) (stats c')) ->
  Counters.grown m (Manager.store k c' m).
Proof.
  intros H. destruct (connections m !! k) as [c|] eqn:Hc.
  - apply (grown_store k c); [done | by apply H].
  - by apply grown_fresh.
Qed.

Lemma getConnection_grown (k : string) (m : SerialManager) :
  Counters.grown m (snd (Manager.getConnection k m)).
Proof.
  unfold Manager.getConnection.
  destruct (connections m !! k) eqn:Hc; simpl; [apply grown_refl|].
  by apply grown_fresh.
Qed.

Lemma disconnect_grown (k : string) (m : SerialManager) :
  Counters.grown m (fst (Manager.disconnect k m)).
Proof.
  unfold Manager.disconnect.
  destruct (connections m !! k) as [c|] eqn:Hc; [|apply grown_refl].
  destruct (_ || _); simpl; apply (grown_store k c); try done; apply le_refl.
Qed.

Lemma step_grown (m : SerialManager) (op : Op) :
  Counters.resets op = false -> Counters.grown m (fst (History.step m op)).
Proof.
  destruct op as [k | k cfg oe t | k | k chunk t | k msg | k d md we t
                 | k st cnt | k | ok | k]; simpl; intros Hop; try done.
  - apply getConnection_grown.
  - destruct oe as [e|]; [|done].
    unfold Manager.connect. destruct (serialportAvailable m); simpl;
      [|apply grown_refl].
    pose proof (getConnection_grown k m) as Hg.
    destruct (Manager.getConnection k m) as [c1 m1]. simpl in Hg.
    assert (Counters.grown m1
              (fst (if connected c1 then Manager.disconnect k m1 else (m1, []))))
      as Hd.
    { destruct (connected c1); [apply disconnect_grown | apply grown_refl]. }
    destruct (if connected c1 then Manager.disconnect k m1 else (m1, []))
      as [m2 e2]. simpl in *.
    apply (grown_trans _ m1); [done|]. apply (grown_trans _ m2); [done|].
    destruct (connections m2 !! k) as [c2|] eqn:Hc2; simpl.
    + apply (grown_store k c2); [done | apply le_refl].
    + by apply grown_fresh.
  - apply disconnect_grown.
  - unfold Manager.portData.
    destruct (connections m !! k) as [c|] eqn:Hc; [|apply grown_refl].
    destruct (port c) as [p|] eqn:Hp; [|apply grown_refl].
    destruct (isOpen p) eqn:Ho; [|apply grown_refl].
    destruct (portData_counts m k c p chunk t Hc Hp Ho)
      as (_ & c' & Hc' & _ & H1 & H2 & _ & H3 & H4 & H5 & _).
    unfold Manager.portData in Hc'. rewrite Hc, Hp, Ho in Hc'.
    destruct (Manager.onPortData k chunk t c) as [c2 e2]. simpl in Hc' |- *.
    rewrite lookup_insert_eq in Hc'. injection Hc' as ->.
    apply (grown_store k c); [done|]. unfold Counters.le. lia.
  - unfold Manager.portError.
    destruct (connections m !! k) as [c|] eqn:Hc; [|apply grown_refl].
    destruct (port c); [|apply grown_refl]. simpl.
    apply (grown_store k c); [done|]. unfold Counters.le. simpl. lia.
  - unfold Manager.send.
    destruct (connections m !! k) as [c|] eqn:Hc; [|apply grown_refl].
    destruct (_ || _); [apply grown_refl|].
    unfold Manager.onWritten. destruct we; simpl.
    + apply (grown_store k c); [done|]. unfold Counters.le. simpl. lia.
    + apply (grown_store k c); [done|]. unfold Counters.le. simpl. lia.
  - unfold Manager.getBuffer.
    destruct (connections m !! k); [|apply grown_refl].
    destruct cnt; apply grown_refl.
  - unfold Manager.clearBuffer.
    destruct (connections m !! k) as [c|] eqn:Hc; [|apply grown_refl]. simpl.
    apply (grown_store k c); [done | apply le_refl].
  - unfold Manager.getStatus. destruct ok as [i|]; [|apply grown_refl].
    destruct (negb _); [|apply grown_refl].
    destruct (connections m !! i); apply grown_refl.
Qed.

(** X28: between two connections the counters of a channel only grow.
    Over any history in which no port is opened and no channel is removed,
    every channel stays a channel of the manager, and none of its counters
    ([bytesRx], [bytesTx], [linesRx], [linesTx], [errors]) ever goes down:
    a disconnection, a failed connection, a cleared buffer and the errors of
    the device leave what has been counted. *)
Theorem counters_only_grow_between_connections
    (ops : list Op) (m : SerialManager) :
  Forall (fun op => Counters.resets op = false) ops ->
  Counters.grown m (fst (History.run ops m)).
Proof.
  intros H. revert m. induction H as [|op ops Hop _ IH]; intros m.
  - apply grown_refl.
  - simpl. pose proof (step_grown m op Hop) as Hs.
    destruct (History.step m op) as [m1 e1]. simpl in Hs.
    specialize (IH m1). destruct (History.run ops m1) as [m2 e2].
    simpl in *. by apply (grown_trans _ m1).
Qed.

Lemma counters_only_grow_between_connections_witness :
  Counters.grown Samples.afterSession
    (fst (History.run
            [OpSend "a" "x" "ascii" (Some "EIO") 9; OpDisconnect "a";
             OpClearBuffer "a"]
            Samples.afterSession)).
Proof.
  apply counters_only_grow_between_connections.
  repeat (constructor; [reflexivity|]). constructor.
Defined.

End CountersGrow.
